(** * Komi: the Go rules engine and its positional heuristics (utils/goLogic)

    A shallow embedding of the TypeScript module that owns the board grid:
    neighbour enumeration, the flood-fill liberty resolver, the move engine
    with captures and ko, the textual renderings, and the three heuristics
    (influence, shapes, safety). With it come the pure parts of what it
    calls and of what calls it: the sign maps, the influence summary and
    the pattern anchors of the adapters (utils/sabakiAdapters), the move
    values of the SGF reader and writer (utils/sgfParser), and the marker
    map of the board component (components/GoBoard).

    JavaScript numbers that hold coordinates and counters are integers here
    ([Z]); the influence scores are IEEE doubles ([float]).  An array is a
    [list]; reading past its ends gives [undefined] ([None]), and reading a
    property of [undefined] throws. *)

From Stdlib Require Import ZArith List Bool Lia Floats.
From stdpp Require Import base numbers option list strings pretty gmap sets.

Local Open Scope Z_scope.

(** ** Data model (types.ts) *)

Inductive StoneColor : Type := EMPTY | BLACK | WHITE.

Global Instance StoneColor_eq_dec : EqDecision StoneColor.
Proof. solve_decision. Defined.

Module Coordinate.
Record t : Type := mk { x : Z; y : Z }.
End Coordinate.
Abbreviation Coordinate := Coordinate.t.
Abbreviation Coord := Coordinate.mk.

Global Instance Coordinate_eq_dec : EqDecision Coordinate.
Proof. solve_decision. Defined.

(** The visited sets of the source are [Set<string>] keyed by the template
    [`${x},${y}`], which is injective on integer pairs: a set of keys is a
    set of coordinates. *)
Global Instance Coordinate_countable : Countable Coordinate :=
  inj_countable' (fun c => (Coordinate.x c, Coordinate.y c))
                 (fun p => Coord (fst p) (snd p))
                 (fun c => match c with Coord _ _ => eq_refl end).

Definition Grid : Type := list (list StoneColor).

Module Captures.
Record t : Type := mk { B : Z; W : Z }.
End Captures.
Abbreviation Captures := Captures.t.

Record BoardState : Type := mkBoardState {
  grid : Grid;
  captures : Captures;
  lastMove : option Coordinate;
  koPoint : option Coordinate
}.

(** ** Outcomes of a call

    [Ret v]: the call returns [v].  [TypeError]: it throws, which in this
    module only happens by indexing [undefined].  [Unmodelled]: the run
    leaves what the embedding covers: the fuel of a [while] loop is spent,
    a store lands past the end of an array (where JavaScript grows the
    array with holes), or a colour is read past the end of a row. No run of
    the resolver or of the move engine does ([checkLiberties_modelled],
    [playMove_modelled]); the safety scan does only on a grid with a row
    shorter than the grid is high. *)

Inductive Js (A : Type) : Type :=
| Ret (a : A)
| TypeError
| Unmodelled.
Arguments Ret {A} a.
Arguments TypeError {A}.
Arguments Unmodelled {A}.

Global Instance Js_ret : MRet Js := fun A a => Ret a.

Global Instance Js_bind : MBind Js := fun A B k m =>
  match m with
  | Ret a => k a
  | TypeError => TypeError
  | Unmodelled => Unmodelled
  end.

(** ** Arrays *)

(** [a[i]] for an integer [i]: [None] is [undefined]. *)
Definition index {A : Type} (a : list A) (i : Z) : option A :=
  if i <? 0 then None else a !! Z.to_nat i.

(** [grid[y][x]] *)
Definition cell_at (g : Grid) (x y : Z) : Js (option StoneColor) :=
  match index g y with
  | None => TypeError
  | Some row => Ret (index row x)
  end.

(** [grid[y][x]] where the row [y] exists, as in the loops over
    [grid.length]; also the stone at a point, [None] off the grid. *)
Definition stoneAt (g : Grid) (x y : Z) : option StoneColor :=
  row ← index g y; index row x.

(** [grid[y][x] = v] on the copy of the grid that [playMove] made. Every
    store of the module follows a read of the same point that found a
    stone colour there; a store past the end of a row is not followed. *)
Definition set_cell (g : Grid) (x y : Z) (v : StoneColor) : Js Grid :=
  match index g y with
  | None => TypeError
  | Some row =>
      match index row x with
      | None => Unmodelled
      | Some _ => Ret (<[Z.to_nat y := <[Z.to_nat x := v]> row]> g)
      end
  end.

(** ** Board geometry *)

Definition BOARD_SIZE : Z := 19.

Definition createEmptyGrid (size : Z) : Grid :=
  replicate (Z.to_nat size) (replicate (Z.to_nat size) EMPTY).

Definition getNeighbors (x y : Z) (size : Z) : list Coordinate :=
  (if 0 <? x then [Coord (x - 1) y] else []) ++
  (if x <? size - 1 then [Coord (x + 1) y] else []) ++
  (if 0 <? y then [Coord x (y - 1)] else []) ++
  (if y <? size - 1 then [Coord x (y + 1)] else []).

(** ** Textual coordinates *)

Definition letters : string := "ABCDEFGHJKLMNOPQRST".

(** [`${s[i]}`]: a character, or the text of [undefined]. *)
Definition char_at (s : string) (i : Z) : string :=
  match (if i <? 0 then None else String.get (Z.to_nat i) s) with
  | Some c => String c EmptyString
  | None => "undefined"
  end.

Definition toGtpCoordinate (x y : Z) : string :=
  if (x <? 0) || (19 <=? x) || (y <? 0) || (19 <=? y) then "pass"
  else
    let col := char_at letters x in
    let row := 19 - y in
    col +:+ pretty row.

(** ** Group / liberty resolver *)

Record CheckResult : Type := mkCheckResult {
  hasLiberties : bool;
  group : list Coordinate
}.

(** The [for (const n of neighbors)] loop of one visit: an EMPTY neighbour
    sets the flag, a neighbour of the colour that is not yet visited is
    pushed. [grid[n.y][n.x]] throws when the row [n.y] does not exist. *)
Fixpoint scanNeighbors (g : Grid) (color : StoneColor) (visited : gset Coordinate)
    (neighbors : list Coordinate) (stack : list Coordinate) (lib : bool)
    : Js (list Coordinate * bool) :=
  match neighbors with
  | [] => Ret (stack, lib)
  | n :: rest =>
      stone ← cell_at g (Coordinate.x n) (Coordinate.y n);
      if bool_decide (stone = Some EMPTY) then
        scanNeighbors g color visited rest stack true
      else if bool_decide (stone = Some color) && negb (bool_decide (n ∈ visited)) then
        scanNeighbors g color visited rest (n :: stack) lib
      else
        scanNeighbors g color visited rest stack lib
  end.

(** The [while (stack.length > 0)] loop. The stack has its top at the head:
    [push] conses and [pop] takes the head. [getNeighbors] is called without
    its third argument, so [size] is [BOARD_SIZE]. *)
Fixpoint checkLiberties_loop (fuel : nat) (g : Grid) (color : StoneColor)
    (stack : list Coordinate) (visited : gset Coordinate)
    (grp : list Coordinate) (lib : bool) : Js CheckResult :=
  match stack with
  | [] => Ret (mkCheckResult lib grp)
  | current :: stack' =>
      match fuel with
      | O => Unmodelled
      | S fuel' =>
          if bool_decide (current ∈ visited) then
            checkLiberties_loop fuel' g color stack' visited grp lib
          else
            let visited' := {[current]} ∪ visited in
            let neighbors :=
              getNeighbors (Coordinate.x current) (Coordinate.y current) BOARD_SIZE in
            '(stack'', lib') ← scanNeighbors g color visited' neighbors stack' lib;
            checkLiberties_loop fuel' g color stack'' visited' (grp ++ [current]) lib'
      end
  end.

(** All the points of a grid, row by row: [{x: col, y: row}]. *)
Fixpoint rowCells {A : Type} (row col : Z) (cells : list A) : list Coordinate :=
  match cells with
  | [] => []
  | _ :: rest => Coord col row :: rowCells row (col + 1) rest
  end.

Fixpoint cellsFrom {A : Type} (row : Z) (rows : list (list A)) : list Coordinate :=
  match rows with
  | [] => []
  | cells :: rest => rowCells row 0 cells ++ cellsFrom (row + 1) rest
  end.

Definition gridCells {A : Type} (g : list (list A)) : list Coordinate :=
  cellsFrom 0 g.

(** Every pass of the loop either drops a visited entry of the stack or
    visits a new point and pushes at most four: five passes per point. *)
Definition checkLiberties_fuel (g : Grid) : nat :=
  S (5 * S (length (gridCells g))).

Definition checkLiberties (g : Grid) (x y : Z) (color : StoneColor) : Js CheckResult :=
  checkLiberties_loop (checkLiberties_fuel g) g color [Coord x y] ∅ [] false.

(** ** Move engine *)

Record MoveResult : Type := mkMoveResult {
  newState : BoardState;
  valid : bool;
  message : option string
}.

Definition toSign (stone : StoneColor) : Z :=
  match stone with BLACK => 1 | WHITE => -1 | EMPTY => 0 end.

Definition ofSign (value : Z) : StoneColor :=
  if decide (value = 1) then BLACK
  else if decide (value = -1) then WHITE else EMPTY.

(** [@sabaki/go-board] is an npm package outside this repository. What it
    answers is a parameter of the engine: [nextBoard] is the value returned
    by [makeMove], with its [signMap] and [getCaptures] when it has them. *)
Record SabakiBoard : Type := mkSabakiBoard {
  signMap : option (list (list Z));
  getCaptures : option (Z -> Z)
}.

Inductive MakeMove : Type :=
| Throws (errorMessage : option string)
| Gives (nextBoard : option SabakiBoard).

(** The stones that a move took off the board: the double loop of the
    external branch over [currentState.grid], comparing it with the new
    grid. [newGrid[row]] is only read when the old point holds a stone. *)
Fixpoint capturedInRow (newGrid : Grid) (row : Z) (col : Z) (cells : list StoneColor)
    (acc : list Coordinate) : Js (list Coordinate) :=
  match cells with
  | [] => Ret acc
  | old :: rest =>
      if bool_decide (old ≠ EMPTY) then
        now ← cell_at newGrid col row;
        if bool_decide (now = Some EMPTY) then
          capturedInRow newGrid row (col + 1) rest (acc ++ [Coord col row])
        else capturedInRow newGrid row (col + 1) rest acc
      else capturedInRow newGrid row (col + 1) rest acc
  end.

Fixpoint capturedInRows (newGrid : Grid) (row : Z) (rows : list (list StoneColor))
    (acc : list Coordinate) : Js (list Coordinate) :=
  match rows with
  | [] => Ret acc
  | cells :: rest =>
      acc' ← capturedInRow newGrid row 0 cells acc;
      capturedInRows newGrid (row + 1) rest acc'
  end.

Definition opponentOf (color : StoneColor) : StoneColor :=
  if decide (color = BLACK) then WHITE else BLACK.

(** [for (const n of neighbors)]: every neighbour that holds an opposing
    stone has its group resolved on the grid with the new stone; a group
    without liberties is appended to [capturedStones]. *)
Fixpoint captureNeighbors (newGrid : Grid) (opponent : StoneColor)
    (neighbors : list Coordinate) (capturedStones : list Coordinate)
    : Js (list Coordinate) :=
  match neighbors with
  | [] => Ret capturedStones
  | n :: rest =>
      stone ← cell_at newGrid (Coordinate.x n) (Coordinate.y n);
      if bool_decide (stone = Some opponent) then
        result ← checkLiberties newGrid (Coordinate.x n) (Coordinate.y n) opponent;
        if negb (hasLiberties result) then
          captureNeighbors newGrid opponent rest (capturedStones ++ group result)
        else captureNeighbors newGrid opponent rest capturedStones
      else captureNeighbors newGrid opponent rest capturedStones
  end.

(** [capturedStones.forEach(s => newGrid[s.y][s.x] = EMPTY)] *)
Fixpoint removeStones (newGrid : Grid) (stones : list Coordinate) : Js Grid :=
  match stones with
  | [] => Ret newGrid
  | s :: rest =>
      g ← set_cell newGrid (Coordinate.x s) (Coordinate.y s) EMPTY;
      removeStones g rest
  end.

Definition reject (currentState : BoardState) (reason : string) : MoveResult :=
  mkMoveResult currentState false (Some reason).

(** [newCaptures.B += capturedStones.length], or [.W]. The counters are
    integers here; the source adds doubles, which is the same sum as long
    as the counts stay between -2^53 and 2^53. *)
Definition addCaptures (c : Captures) (color : StoneColor) (n : Z) : Captures :=
  if decide (color = BLACK)
  then Captures.mk (Captures.B c + n) (Captures.W c)
  else Captures.mk (Captures.B c) (Captures.W c + n).

Section MoveEngine.

(** [external g caps sign x y]: [None] when [createBoardForMove(g)] gives
    no board with a [makeMove]; otherwise what [makeMove(sign, [x, y])]
    does on that board, after [setCaptures]. [caughtTypeError] is the
    [message] of the engine's [TypeError]. *)
Variable external : Grid -> Captures -> Z -> Z -> Z -> option MakeMove.
Variable caughtTypeError : string.

(** The [if (nextBoard?.signMap)] block of the external branch. *)
Definition playMove_external (currentState : BoardState) (x y : Z)
    (next : SabakiBoard) (sm : list (list Z)) : MoveResult :=
  let newGrid := map (map ofSign) sm in
  match capturedInRows newGrid 0 (grid currentState) [] with
  | Ret capturedStones =>
      let newKoPoint :=
        if decide (length capturedStones = 1%nat) then head capturedStones else None in
      let newCaptures :=
        match getCaptures next with
        | Some f => Captures.mk (f 1) (f (-1))
        | None => captures currentState
        end in
      mkMoveResult (mkBoardState newGrid newCaptures (Some (Coord x y)) newKoPoint)
                   true None
  | _ => reject currentState caughtTypeError
  end.

(** From [// Clone grid] to the end of [playMove]. *)
Definition playMove_local (currentState : BoardState) (x y : Z)
    (color : StoneColor) : Js MoveResult :=
  placed ← set_cell (grid currentState) x y color;
  let opponent := opponentOf color in
  capturedStones ← captureNeighbors placed opponent (getNeighbors x y BOARD_SIZE) [];
  newGrid ← removeStones placed capturedStones;
  suicide ←
    (if decide (length capturedStones = 0%nat) then
       selfResult ← checkLiberties newGrid x y color;
       mret (negb (hasLiberties selfResult))
     else mret false);
  if (suicide : bool) then mret (reject currentState "Suicide move not allowed")
  else
    let newCaptures :=
      addCaptures (captures currentState) color (Z.of_nat (length capturedStones)) in
    newKoPoint ←
      (match capturedStones with
       | [s] =>
           selfResult ← checkLiberties newGrid x y color;
           if bool_decide (length (group selfResult) = 1%nat) && hasLiberties selfResult
           then mret (Some (Coord (Coordinate.x s) (Coordinate.y s)))
           else mret None
       | _ => mret None
       end);
    mret (mkMoveResult
            (mkBoardState newGrid newCaptures (Some (Coord x y)) newKoPoint)
            true None).

Definition isKoPoint (currentState : BoardState) (x y : Z) : bool :=
  match koPoint currentState with
  | Some k => bool_decide (Coordinate.x k = x) && bool_decide (Coordinate.y k = y)
  | None => false
  end.

Definition playMove (currentState : BoardState) (x y : Z) (color : StoneColor)
    : Js MoveResult :=
  target ← cell_at (grid currentState) x y;
  if bool_decide (target ≠ Some EMPTY) then
    mret (reject currentState "Point is occupied")
  else if isKoPoint currentState x y then
    mret (reject currentState "Ko rule violation")
  else
    match external (grid currentState) (captures currentState) (toSign color) x y with
    | Some (Throws msg) => mret (reject currentState (default "Invalid move" msg))
    | Some (Gives (Some next)) =>
        match signMap next with
        | Some sm => mret (playMove_external currentState x y next sm)
        | None => playMove_local currentState x y color
        end
    | _ => playMove_local currentState x y color
    end.

End MoveEngine.

(** The engine when no external rules library is loaded. *)
Definition noExternal : Grid -> Captures -> Z -> Z -> Z -> option MakeMove :=
  fun _ _ _ _ _ => None.

(** The move falls through to the engine's own rules: there is no board
    with a [makeMove], or the board it returns has no [signMap]. *)
Definition ownRules (external : Grid -> Captures -> Z -> Z -> Z -> option MakeMove)
    (st : BoardState) (x y : Z) (color : StoneColor) : Prop :=
  match external (grid st) (captures st) (toSign color) x y with
  | Some (Throws _) => False
  | Some (Gives (Some next)) => signMap next = None
  | _ => True
  end.

Definition emptyState (size : Z) : BoardState :=
  mkBoardState (createEmptyGrid size) (Captures.mk 0 0) None None.

(** A grid with stones of [color] put on the listed points, for writing
    positions down. *)
Definition place (g : Grid) (color : StoneColor) (stones : list (Z * Z)) : Grid :=
  foldl (fun acc p =>
           match set_cell acc (fst p) (snd p) color with Ret g' => g' | _ => acc end)
        g stones.

(** ** ASCII dump *)

Definition newline : string := String (Ascii.ascii_of_nat 10) EmptyString.

Definition glyph (s : option StoneColor) : string :=
  match s with
  | Some BLACK => "X "
  | Some WHITE => "O "
  | _ => ". "
  end.

(** [for (let i = 0; i < size; i++) ascii += `${coords[i]} `] *)
Definition columnHeader (coords : string) (size : Z) (ascii : string) : string :=
  foldl (fun acc i => acc +:+ char_at coords i +:+ " ") ascii (seqZ 0 size).

Definition boardToAscii (g : Grid) : string :=
  let size := Z.of_nat (length g) in
  let coords := String.substring 0 (length g) letters in
  let ascii := columnHeader coords size "   " +:+ newline in
  let ascii :=
    foldl (fun acc y =>
             let rowNum := size - y in
             let acc := acc +:+ (if rowNum <? 10 then " " else "") +:+ pretty rowNum +:+ " " in
             let acc := foldl (fun acc x => acc +:+ glyph (stoneAt g x y)) acc (seqZ 0 size) in
             acc +:+ pretty rowNum +:+ newline)
          ascii (seqZ 0 size) in
  columnHeader coords size (ascii +:+ "   ").

(** The text that the dump adds for the row [y] of a grid of side [size]:
    the row number [size - y], padded to two characters, the points, and
    the row number again. *)
Definition asciiCells (g : Grid) (size y : Z) : string :=
  foldl (fun acc x => acc +:+ glyph (stoneAt g x y)) "" (seqZ 0 size).

Definition asciiRow (g : Grid) (size y : Z) : string :=
  (if size - y <? 10 then " " else "") +:+ pretty (size - y) +:+ " "
    +:+ asciiCells g size y +:+ pretty (size - y) +:+ newline.

Definition joinStrings (l : list string) : string := foldr String.append "" l.

(** ** Influence heuristic *)

Record Area : Type := mkArea { blackArea : Z; whiteArea : Z }.

Record InfluenceStone : Type := mkInfluenceStone {
  stoneX : Z; stoneY : Z; stoneSign : float
}.

(** An integer as a JavaScript number. *)
Definition numberOfZ (z : Z) : float :=
  if z <? 0 then PrimFloat.opp (PrimFloat.of_uint63 (Uint63.of_Z (- z)))
  else PrimFloat.of_uint63 (Uint63.of_Z z).

Section Influence.

(** [Math.exp] and [Math.pow] are approximated by the engine. *)
Variable Math_exp : float -> float.
Variable Math_pow : float -> float -> float.

Definition DECAY : float := 2%float.

Definition influenceStones (g : Grid) : list InfluenceStone :=
  let size := Z.of_nat (length g) in
  foldl (fun stones y =>
    foldl (fun stones x =>
      let stones :=
        if bool_decide (stoneAt g x y = Some BLACK)
        then stones ++ [mkInfluenceStone x y 1%float] else stones in
      if bool_decide (stoneAt g x y = Some WHITE)
      then stones ++ [mkInfluenceStone x y (-1)%float] else stones)
      stones (seqZ 0 size))
    [] (seqZ 0 size).

Definition influenceAt (stones : list InfluenceStone) (x y : Z) : float :=
  foldl (fun val s =>
    let dist :=
      PrimFloat.sqrt
        (PrimFloat.add (Math_pow (numberOfZ (x - stoneX s)) 2%float)
                       (Math_pow (numberOfZ (y - stoneY s)) 2%float)) in
    PrimFloat.add val
      (PrimFloat.mul (stoneSign s)
                     (Math_exp (PrimFloat.div (PrimFloat.opp dist) DECAY))))
    0%float stones.

Definition calculateInfluenceHeuristic (g : Grid) : Area :=
  let size := Z.of_nat (length g) in
  let stones := influenceStones g in
  foldl (fun area y =>
    foldl (fun area x =>
      let val := influenceAt stones x y in
      let area :=
        if PrimFloat.ltb 0.5%float val
        then mkArea (blackArea area + 1) (whiteArea area) else area in
      if PrimFloat.ltb val (-0.5)%float
      then mkArea (blackArea area) (whiteArea area + 1) else area)
      area (seqZ 0 size))
    (mkArea 0 0) (seqZ 0 size).

(** [getInfluenceSummary(grid) ?? calculateInfluenceHeuristic(grid)]: the
    summary comes from the [@sabaki/influence] package when it is loaded. *)
Definition calculateInfluence (getInfluenceSummary : Grid -> option Area) (g : Grid) : Area :=
  match getInfluenceSummary g with
  | Some summary => summary
  | None => calculateInfluenceHeuristic g
  end.

End Influence.

(** ** Shape matcher *)

Inductive PatternType : Type := BAD | GOOD.

Record ShapePattern : Type := mkShapePattern {
  patName : string;
  patSize : Z;
  patGrid : list (list Z);
  patType : PatternType
}.

Definition PATTERNS : list ShapePattern :=
  [ mkShapePattern "Empty Triangle" 2 [[1; 1]; [1; 0]] BAD;
    mkShapePattern "Ponnuki" 3 [[0; 1; 0]; [1; 0; 1]; [0; 1; 0]] GOOD;
    mkShapePattern "Hane at Head of Two" 3 [[0; 1; 0]; [1; -1; 0]; [1; -1; 0]] GOOD ].

(** [res[i][j] = v]; both indices are inside [res] at every call. *)
Definition store2 (res : list (list Z)) (i j : Z) (v : Z) : list (list Z) :=
  match index res i with
  | Some row => <[Z.to_nat i := <[Z.to_nat j := v]> row]> res
  | None => res
  end.

(** A quarter turn. The templates are square, so every [g[r][c]] read in
    the loop exists. *)
Definition rotateGrid (g : list (list Z)) : list (list Z) :=
  let N := Z.of_nat (length g) in
  let res := replicate (length g) (replicate (length g) 0) in
  foldl (fun res r =>
    foldl (fun res c =>
      match index g r ≫= (fun row => index row c) with
      | Some v => store2 res c (N - 1 - r) v
      | None => res
      end) res (seqZ 0 N))
    res (seqZ 0 N).

Definition numGridOf (g : Grid) : list (list Z) := map (map toSign) g.

(** [pat.grid.map(row => row.map(x => x === 1 ? colorSign : x === -1 ? -colorSign : x))] *)
Definition colorize (colorSign : Z) (pg : list (list Z)) : list (list Z) :=
  map (map (fun v => if decide (v = 1) then colorSign
                     else if decide (v = -1) then - colorSign else v)) pg.

(** The two inner loops with their [break]s: the template matches at the
    window whose top-left corner is [(x, y)]. The row [y + py] of the board
    exists for every window the scan visits. *)
Definition matchAt (numGrid pGrid : list (list Z)) (size : Z) (x y : Z) : bool :=
  forallb (fun py =>
    forallb (fun px =>
      let boardVal := index numGrid (y + py) ≫= (fun row => index row (x + px)) in
      let patVal := index pGrid py ≫= (fun row => index row px) in
      negb (negb (bool_decide (patVal = Some 2)) && negb (bool_decide (boardVal = patVal))))
      (seqZ 0 size))
    (seqZ 0 size).

Definition typeName (t : PatternType) : string :=
  match t with BAD => "BAD" | GOOD => "GOOD" end.

Definition colorName (colorSign : Z) : string :=
  if decide (colorSign = 1) then "Black" else "White".

Definition shapeFinding (pat : ShapePattern) (colorSign : Z) (x y : Z) : string :=
  typeName (patType pat) +:+ ": " +:+ colorName colorSign +:+ " " +:+ patName pat
    +:+ " at " +:+ toGtpCoordinate x y.

(** [Set.prototype.add] on a set that keeps insertion order. *)
Definition setAdd (s : string) (found : list string) : list string :=
  if bool_decide (s ∈ found) then found else found ++ [s].

Definition scanBoard (numGrid pGrid : list (list Z)) (size : Z) (pat : ShapePattern)
    (colorSign : Z) (found : list string) : list string :=
  foldl (fun found y =>
    foldl (fun found x =>
      if matchAt numGrid pGrid (patSize pat) x y
      then setAdd (shapeFinding pat colorSign x y) found else found)
      found (seqZ 0 (size - patSize pat + 1)))
    found (seqZ 0 (size - patSize pat + 1)).

(** The four passes of [for (let r = 0; r < 4; r++)] for one pattern and
    one colour. *)
Definition scanRotations (g : Grid) (pat : ShapePattern) (colorSign : Z)
    (found : list string) : list string :=
  snd (foldl (fun '(pGrid, found) (_ : Z) =>
                let pGrid := rotateGrid pGrid in
                (pGrid, scanBoard (numGridOf g) pGrid (Z.of_nat (length g)) pat colorSign found))
             (colorize colorSign (patGrid pat), found) (seqZ 0 4)).

Definition findShapesHeuristic (g : Grid) : list string :=
  foldl (fun found pat =>
    foldl (fun found colorSign => scanRotations g pat colorSign found)
      found [1; -1])
    [] PATTERNS.

(** ** Safety heuristic *)

Definition colorLabel (color : StoneColor) : string :=
  if decide (color = BLACK) then "Black" else "White".

(** [getNeighbors(s.x, s.y).forEach(n => ...)] for every stone of the group. *)
Fixpoint libertiesOf (g : Grid) (neighbors : list Coordinate) (libs : gset Coordinate)
    : Js (gset Coordinate) :=
  match neighbors with
  | [] => Ret libs
  | n :: rest =>
      stone ← cell_at g (Coordinate.x n) (Coordinate.y n);
      libertiesOf g rest (if bool_decide (stone = Some EMPTY) then {[n]} ∪ libs else libs)
  end.

Fixpoint groupLiberties (g : Grid) (grp : list Coordinate) (libs : gset Coordinate)
    : Js (gset Coordinate) :=
  match grp with
  | [] => Ret libs
  | s :: rest =>
      libs' ← libertiesOf g (getNeighbors (Coordinate.x s) (Coordinate.y s) BOARD_SIZE) libs;
      groupLiberties g rest libs'
  end.

Definition safetyFinding (color : StoneColor) (anchor : Coordinate) (libs : Z) : string :=
  "DANGER: " +:+ colorLabel color +:+ " group at "
    +:+ toGtpCoordinate (Coordinate.x anchor) (Coordinate.y anchor)
    +:+ " has only " +:+ pretty libs +:+ " liberties.".

(** One pass of the body of the two scanning loops, at the point [(x, y)].
    A row shorter than the grid is high gives [undefined] as a colour,
    which the embedding does not follow. *)
Definition safetyVisit (g : Grid) (x y : Z) (st : gset Coordinate * list string)
    : Js (gset Coordinate * list string) :=
  let '(visited, report) := st in
  match stoneAt g x y with
  | None => Unmodelled
  | Some EMPTY => Ret st
  | Some color =>
      if bool_decide (Coord x y ∈ visited) then Ret st
      else
        result ← checkLiberties g x y color;
        let visited := list_to_set (group result) ∪ visited in
        libs ← groupLiberties g (group result) ∅;
        if Z.of_nat (size libs) <=? 2 then
          match head (group result) with
          | Some anchor =>
              Ret (visited, report ++ [safetyFinding color anchor (Z.of_nat (size libs))])
          | None => TypeError
          end
        else Ret (visited, report)
  end.

Fixpoint forJs {S : Type} (body : Z -> S -> Js S) (range : list Z) (st : S) : Js S :=
  match range with
  | [] => Ret st
  | i :: rest => st' ← body i st; forJs body rest st'
  end.

Definition analyzeSafetyHeuristic (g : Grid) : Js (list string) :=
  let size := Z.of_nat (length g) in
  st ← forJs (fun y => forJs (fun x => safetyVisit g x y) (seqZ 0 size)) (seqZ 0 size) (∅, []);
  mret (snd st).

(** ** Groups and liberties, as the rules of Go define them *)

(** The point [c] of [g] holds a stone of [color]. *)
Definition colored (g : Grid) (color : StoneColor) (c : Coordinate) : Prop :=
  stoneAt g (Coordinate.x c) (Coordinate.y c) = Some color.

(** Two points are orthogonal neighbours. *)
Definition adjacent (a b : Coordinate) : Prop :=
  (Coordinate.x a = Coordinate.x b /\
   (Coordinate.y a = Coordinate.y b + 1 \/ Coordinate.y b = Coordinate.y a + 1)) \/
  (Coordinate.y a = Coordinate.y b /\
   (Coordinate.x a = Coordinate.x b + 1 \/ Coordinate.x b = Coordinate.x a + 1)).

(** Two neighbouring stones of the same colour. *)
Definition link (g : Grid) (color : StoneColor) (a b : Coordinate) : Prop :=
  adjacent a b /\ colored g color a /\ colored g color b.

(** [b] is reached from [a] through neighbouring stones of [color]: the
    maximal 4-connected group of [a] is the set of these [b]. *)
Definition sameGroup (g : Grid) (color : StoneColor) : relation Coordinate :=
  rtc (link g color).

(** [n] is an EMPTY point next to [c]. *)
Definition libertyOf (g : Grid) (c n : Coordinate) : Prop :=
  adjacent c n /\ stoneAt g (Coordinate.x n) (Coordinate.y n) = Some EMPTY.

(** A board of 19 rows of 19 points, and a board that is at most that. *)
Definition standardBoard (g : Grid) : Prop :=
  length g = 19%nat /\ forall row, row ∈ g -> length row = 19%nat.

Definition fitsBoard (g : Grid) : Prop :=
  (length g <= 19)%nat /\ forall row, row ∈ g -> (length row <= 19)%nat.

(** What the resolver's loop keeps true, for the seed [seed]: the stack and
    the visited set hold stones of the seed's group only, every stone next
    to a visited one is visited or waits on the stack, and the flag is set
    exactly when a visited stone has a liberty. *)
Record Resolving (g : Grid) (color : StoneColor) (seed : Coordinate)
    (stack : list Coordinate) (visited : gset Coordinate)
    (grp : list Coordinate) (lib : bool) : Prop := {
  res_stack : forall c, c ∈ stack -> sameGroup g color seed c;
  res_visited : forall c, c ∈ visited -> sameGroup g color seed c;
  res_closed : forall v n, v ∈ visited -> link g color v n -> n ∈ visited \/ n ∈ stack;
  res_seed : seed ∈ visited \/ seed ∈ stack;
  res_group : forall c, c ∈ visited <-> c ∈ grp;
  res_lib : lib = true <-> exists v n, v ∈ visited /\ libertyOf g v n
}.

(** A point with both coordinates between 0 and 18. *)
Definition onBoard19 (c : Coordinate) : Prop :=
  0 <= Coordinate.x c < 19 /\ 0 <= Coordinate.y c < 19.

(** The group of the stone [n] has no liberty. *)
Definition dead (g : Grid) (color : StoneColor) (n : Coordinate) : Prop :=
  colored g color n /\
  forall v m, sameGroup g color n v -> ~ libertyOf g v m.

(** On the grid [placed] that holds the new stone at [p], the stone [c]
    belongs to a group of [opponent] stones that touches [p] and has no
    liberty left. *)
Definition takes (placed : Grid) (opponent : StoneColor) (p c : Coordinate) : Prop :=
  exists n, adjacent p n /\ dead placed opponent n /\ sameGroup placed opponent n c.

(** [L] is the set of liberties of the group of the stone [a]. *)
Definition libertiesOfGroup (g : Grid) (color : StoneColor) (a : Coordinate)
    (L : gset Coordinate) : Prop :=
  forall n, n ∈ L <-> exists v, sameGroup g color a v /\ libertyOf g v n.

(** A finding of the safety scan before it is rendered: the colour, the
    anchor and the liberties of a group. *)
Definition WeakGroup : Type := (StoneColor * Coordinate * gset Coordinate)%type.

Definition renderWeakGroup (w : WeakGroup) : string :=
  let '(color, anchor, L) := w in safetyFinding color anchor (Z.of_nat (size L)).

(** What the safety scan keeps true once the points [D] are behind it. *)
Record Scanned (g : Grid) (D : Coordinate -> Prop) (visited : gset Coordinate)
    (found : list WeakGroup) : Prop := {
  sc_closed : forall c d color, c ∈ visited -> sameGroup g color c d -> d ∈ visited;
  sc_done : forall c color, D c -> color <> EMPTY -> colored g color c -> c ∈ visited;
  sc_found : forall color a L, (color, a, L) ∈ found ->
             color <> EMPTY /\ colored g color a /\ a ∈ visited /\
             libertiesOfGroup g color a L /\ (size L <= 2)%nat;
  sc_all : forall c color L, c ∈ visited -> colored g color c ->
           libertiesOfGroup g color c L -> (size L <= 2)%nat ->
           exists a, (color, a, L) ∈ found /\ sameGroup g color a c;
  sc_once : forall i j color a L color' a' L',
            found !! i = Some (color, a, L) -> found !! j = Some (color', a', L') ->
            sameGroup g color a a' -> i = j
}.

(** ** What a move took off the board

    The points that hold a stone before the move and are EMPTY after it,
    row by row. *)
Definition removedStones (old new : Grid) : list Coordinate :=
  filter (fun c =>
            stoneAt old (Coordinate.x c) (Coordinate.y c) <> Some EMPTY /\
            stoneAt new (Coordinate.x c) (Coordinate.y c) = Some EMPTY)
         (gridCells old).

(** The first point of a template, row by row, whose value is a stone:
    the anchor that [toSignedVertices] of the adapters computes. *)
Definition firstStonePoint (pGrid : list (list Z)) : option Coordinate :=
  let at_ (c : Coordinate) : option Z :=
    row ← index pGrid (Coordinate.y c); index row (Coordinate.x c) in
  head (filter (fun c => at_ c <> None /\ at_ c <> Some 2 /\ at_ c <> Some 0)
               (gridCells pGrid)).

(** ** Positions used below *)

Module Boards.

(** A 19 by 19 board: three WHITE stones bent around the corner point
    (0,0), shut in by BLACK from outside. *)
Definition bentThree : BoardState :=
  mkBoardState
    (place (place (createEmptyGrid 19) BLACK [(2,0); (2,1); (1,2); (0,2)])
           WHITE [(1,0); (1,1); (0,1)])
    (Captures.mk 0 0) None None.

(** A 5 by 5 board: (0,4) is shut in by two WHITE stones. *)
Definition smallCorner : BoardState :=
  mkBoardState (place (createEmptyGrid 5) WHITE [(1,4); (0,3)])
               (Captures.mk 0 0) None None.

(** A 5 by 5 board with one BLACK stone on the bottom row. *)
Definition bottomStone : Grid := place (createEmptyGrid 5) BLACK [(2,4)].

(** A 5 by 5 board with one BLACK stone in the top-left corner. *)
Definition topLeftStone : Grid := place (createEmptyGrid 5) BLACK [(0,0)].

(** A 20 by 20 board with two BLACK stones side by side at the right end
    of the top row. *)
Definition wideBoard : Grid := place (createEmptyGrid 20) BLACK [(18,0); (19,0)].

(** A 19 by 19 board with a BLACK ponnuki in the top-left corner. *)
Definition ponnuki : Grid :=
  place (createEmptyGrid 19) BLACK [(1,0); (0,1); (2,1); (1,2)].

(** The 5 by 5 position of the second scenario: a WHITE stone at (1,1)
    with BLACK on three sides, BLACK to play (1,2). *)
Definition koShape : BoardState :=
  mkBoardState
    (place (place (createEmptyGrid 5) BLACK [(0,1); (2,1); (1,0)]) WHITE [(1,1)])
    (Captures.mk 0 0) None None.

Definition koResult : MoveResult :=
  match playMove noExternal "" koShape 1 2 BLACK with
  | Ret r => r
  | _ => reject koShape ""
  end.

End Boards.

(** ** Recorded matches of the shape scan *)

(** The template of [pat] for [colorSign] after [r] quarter turns. *)
Definition templateOf (pat : ShapePattern) (colorSign : Z) (r : nat) : list (list Z) :=
  Nat.iter r rotateGrid (colorize colorSign (patGrid pat)).

(** The scan of [g] records a match of [pat], coloured by [colorSign] and
    turned [r] times, at the window with top-left corner [(x, y)]. *)
Definition matchRecorded (g : Grid) (pat : ShapePattern) (colorSign : Z) (r : nat)
    (x y : Z) : Prop :=
  pat ∈ PATTERNS /\ colorSign ∈ [1; -1] /\ (1 <= r <= 4)%nat /\
  0 <= x <= Z.of_nat (length g) - patSize pat /\
  0 <= y <= Z.of_nat (length g) - patSize pat /\
  matchAt (numGridOf g) (templateOf pat colorSign r) (patSize pat) x y = true.

(** ** Further notions for the board and the resolver *)

(** [g[i][j]] in a grid of numbers. *)
Definition entry (g : list (list Z)) (i j : Z) : option Z :=
  row ← index g i; index row j.

(** A grid of [N] rows of [N] numbers. *)
Definition squareGrid (N : nat) (g : list (list Z)) : Prop :=
  length g = N /\ forall row, row ∈ g -> length row = N.

(** The template has a stone among its first [size] by [size] cells. *)
Definition hasStoneCell (pGrid : list (list Z)) (size : Z) : bool :=
  existsb (fun py =>
    existsb (fun px =>
      match entry pGrid py px with
      | Some v => negb (bool_decide (v = 0)) && negb (bool_decide (v = 2))
      | None => false
      end) (seqZ 0 size)) (seqZ 0 size).

(** Every neighbour of [c], as the resolver takes them, lies in a row of
    the grid. *)
Definition rowsAround (g : Grid) (c : Coordinate) : Prop :=
  forall n, n ∈ getNeighbors (Coordinate.x c) (Coordinate.y c) BOARD_SIZE ->
            is_Some (index g (Coordinate.y n)).

(** No visited point of the safety scan is on the bottom row. *)
Definition aboveBottom (g : Grid) (st : gset Coordinate * list string) : Prop :=
  forall c, c ∈ st.1 -> Coordinate.y c <> Z.of_nat (length g) - 1.

(** The two counters of an area estimate after [n] points: neither is
    negative and together they count at most [n] points. *)
Record Counted (n : Z) (area : Area) : Prop := {
  counted_black : 0 <= blackArea area;
  counted_white : 0 <= whiteArea area;
  counted_sum : blackArea area + whiteArea area <= n
}.

(** ** The adapters of the external libraries (utils/sabakiAdapters) *)

(** [grid.map((row) => row.map((stone) => toSign(stone)))] *)
Definition toSignMap (g : Grid) : list (list Z) := map (map toSign) g.

(** The two counting loops of [getInfluenceSummary] over the map that the
    package answered. *)
Definition countAreas (map_ : list (list float)) : Area :=
  foldl (fun area row =>
    foldl (fun area value =>
      let area :=
        if PrimFloat.ltb 0%float value
        then mkArea (blackArea area + 1) (whiteArea area) else area in
      if PrimFloat.ltb value 0%float
      then mkArea (blackArea area) (whiteArea area + 1) else area)
      area row)
    (mkArea 0 0) map_.

(** [influenceMap signMap] is what [@sabaki/influence] answers for the sign
    map: [None] when the package is not loaded, has neither [areaMap] nor
    [map], throws, or answers something that is not an array. *)
Definition getInfluenceSummary (influenceMap : list (list Z) -> option (list (list float)))
    (g : Grid) : option Area :=
  countAreas <$> influenceMap (toSignMap g).

Record SignedVertices : Type := mkSignedVertices {
  anchors : list (Z * Z);
  vertices : list ((Z * Z) * Z)
}.

(** [a.forEach((value, i) => ...)]: the entries of [a] with their indices,
    counted from [i]. *)
Fixpoint indexedFrom {A : Type} (i : Z) (a : list A) : list (Z * A) :=
  match a with
  | [] => []
  | v :: rest => (i, v) :: indexedFrom (i + 1) rest
  end.

(** The body of the inner [forEach] of [toSignedVertices]: the wildcard 2
    is left out, and the first vertex with a sign becomes the anchor. *)
Definition pushVertex (y : Z) (acc : SignedVertices) (cell : Z * Z) : SignedVertices :=
  let '(x, value) := cell in
  if decide (value = 2) then acc
  else
    let signed := if decide (value = 0) then 0 else value in
    let vertices := vertices acc ++ [((x, y), signed)] in
    if bool_decide (length (anchors acc) = 0%nat) && negb (bool_decide (signed = 0))
    then mkSignedVertices (anchors acc ++ [(x, y)]) vertices
    else mkSignedVertices (anchors acc) vertices.

Definition toSignedVertices (pattern : ShapePattern) : SignedVertices :=
  foldl (fun acc '(y, row) => foldl (pushVertex y) acc (indexedFrom 0 row))
        (mkSignedVertices [] []) (indexedFrom 0 (patGrid pattern)).

(** The point [c] of a template holds a stone: a value that is neither
    the wildcard 2 nor 0. *)
Definition stoneCell (pGrid : list (list Z)) (c : Coordinate) : Prop :=
  (index pGrid (Coordinate.y c) ≫= fun row => index row (Coordinate.x c)) <> None /\
  (index pGrid (Coordinate.y c) ≫= fun row => index row (Coordinate.x c)) <> Some 2 /\
  (index pGrid (Coordinate.y c) ≫= fun row => index row (Coordinate.x c)) <> Some 0.

Definition anchorOf (first : option Coordinate) : list (Z * Z) :=
  match first with
  | Some c => [(Coordinate.x c, Coordinate.y c)]
  | None => []
  end.

(** No vertex is the wildcard, and every anchor is a vertex with a sign. *)
Definition wellAnchored (acc : SignedVertices) : Prop :=
  (forall p v, (p, v) ∈ vertices acc -> v <> 2) /\
  (forall a, a ∈ anchors acc -> exists v, (a, v) ∈ vertices acc /\ v <> 0).

(** ** SGF move values (utils/sgfParser)

    The text between the brackets of a [B[..]] or [W[..]] property is a
    JavaScript string, a sequence of UTF-16 code units. A coordinate read
    from it is a number that can be [NaN] ([None]). *)

(** [String.fromCharCode(n)] *)
Definition fromCharCode (n : option Z) : list Z :=
  match n with
  | Some n => [n mod 65536]
  | None => [0]
  end.

(** [s.charCodeAt(i)] *)
Definition charCodeAt (s : list Z) (i : Z) : option Z := index s i.

(** The coordinates that [parseSgfFallback] gives a move: [val === ''] is
    a pass, otherwise
    [{x: val.charCodeAt(0) - 97, y: val.charCodeAt(1) - 97}]. *)
Definition moveOfValue (val : list Z) : option Z * option Z :=
  if decide (val = []) then (Some (-1), Some (-1))
  else ((fun c => c - 97) <$> charCodeAt val 0, (fun c => c - 97) <$> charCodeAt val 1).

(** The value that [buildSabakiTreeFromGameTree] writes for a move. *)
Definition valueOfMove (x y : option Z) : list Z :=
  if bool_decide (x = Some (-1)) || bool_decide (y = Some (-1)) then []
  else fromCharCode ((fun c => c + 97) <$> x) ++ fromCharCode ((fun c => c + 97) <$> y).

(** The value that the fallback of [generateSGF] writes for a move. *)
Definition valueOfMove_fallback (x y : option Z) : list Z :=
  fromCharCode ((fun c => c + 97) <$> x) ++ fromCharCode ((fun c => c + 97) <$> y).

(** ** Board markers (components/GoBoard) *)

Record Marker : Type := mkMarker { markerX : Z; markerY : Z; markerLabel : string }.

(** A point of the marker map holds [null] ([None]) or a marker name. *)
Definition MarkerMap : Type := list (list (option string)).

(** [map[y][x]] *)
Definition markerAt (m : MarkerMap) (x y : Z) : option (option string) :=
  row ← index m y; index row x.

(** The body of [markers.forEach]: the label is stored when the row exists
    and the point is not [undefined]. *)
Definition setMarker (m : MarkerMap) (marker : Marker) : MarkerMap :=
  match index m (markerY marker) with
  | Some row =>
      match index row (markerX marker) with
      | Some _ =>
          <[Z.to_nat (markerY marker) :=
              <[Z.to_nat (markerX marker) := Some (markerLabel marker)]> row]> m
      | None => m
      end
  | None => m
  end.

(** The [useMemo] callback that builds [markerMap]. The store of the
    circle is not guarded: it throws when the row does not exist, and a
    store past the end of the row is not followed. *)
Definition markerMap (boardSize : Z) (lastMove : option Coordinate)
    (markers : option (list Marker)) : Js MarkerMap :=
  let m := replicate (Z.to_nat boardSize) (replicate (Z.to_nat boardSize) None) in
  m ← match lastMove with
      | Some c =>
          match index m (Coordinate.y c) with
          | None => TypeError
          | Some row =>
              match index row (Coordinate.x c) with
              | None => Unmodelled
              | Some _ =>
                  Ret (<[Z.to_nat (Coordinate.y c) :=
                           <[Z.to_nat (Coordinate.x c) := Some "circle"]> row]> m)
              end
          end
      | None => Ret m
      end;
  mret (match markers with
        | Some ms => foldl setMarker m ms
        | None => m
        end).

(** A map of [N] rows of [N] points. *)
Definition squareMap (N : nat) (m : MarkerMap) : Prop :=
  length m = N /\ forall row, row ∈ m -> length row = N.

(** The marker sits on the point [(x, y)]. *)
Definition markerOn (x y : Z) (marker : Marker) : Prop :=
  markerX marker = x /\ markerY marker = y.

Global Instance markerOn_dec (x y : Z) (marker : Marker) : Decision (markerOn x y marker).
Proof. unfold markerOn. apply _. Defined.

(** ** A move applied by the rules library *)

Module Library.

(** A 19 by 19 board. The WHITE stone at (1,0) on the top edge has its
    last liberty at (1,1); the BLACK stones at (0,0) and (0,1) have theirs
    there too. BLACK to play (1,1). *)
Definition edgeStone : BoardState :=
  mkBoardState
    (place (place (createEmptyGrid 19) BLACK [(0,0); (0,1); (2,0)])
           WHITE [(1,0); (2,1); (1,2); (0,2)])
    (Captures.mk 0 0) None None.

(** The board after BLACK (1,1): the WHITE stone at (1,0) is gone. *)
Definition edgeTaken : Grid :=
  place (place (createEmptyGrid 19) BLACK [(0,0); (0,1); (2,0); (1,1)])
        WHITE [(2,1); (1,2); (0,2)].

(** What [makeMove(1, [1, 1])] of [@sabaki/go-board] answers on the board
    of [edgeStone]: the board after the move, with the capture counted. No
    other call of the library is followed. *)
Definition goBoard : Grid -> Captures -> Z -> Z -> Z -> option MakeMove :=
  fun g caps sign x y =>
    if bool_decide (g = grid edgeStone /\ sign = 1 /\ x = 1 /\ y = 1) then
      Some (Gives (Some (mkSabakiBoard
        (Some (toSignMap edgeTaken))
        (Some (fun s => if decide (s = 1) then Captures.B caps + 1 else Captures.W caps)))))
    else None.

End Library.

(** * Properties *)

(** ** Loops *)

Lemma foldl_invariant {A B : Type} (P : A -> Prop) (f : A -> B -> A) (l : list B) (a : A) :
  P a -> (forall a' b, b ∈ l -> P a' -> P (f a' b)) -> P (foldl f a l).
Proof.
  revert a. induction l as [|b l IH]; intros a Ha Hstep; simpl; [done|].
  apply IH.
  - apply Hstep; [left | done].
  - intros a' b' Hb'. apply Hstep. by right.
Qed.

Lemma index_Some {A : Type} (a : list A) (i : Z) (v : A) :
  index a i = Some v <-> 0 <= i /\ a !! Z.to_nat i = Some v.
Proof.
  unfold index. destruct (Z.ltb_spec i 0).
  - split; [done | intros [? _]; lia].
  - split; [intros ?; split; [lia | done] | by intros [_ ?]].
Qed.

Lemma index_elem_of {A : Type} (a : list A) (i : Z) (v : A) :
  index a i = Some v -> v ∈ a.
Proof. intros [_ H]%index_Some. by eapply list_elem_of_lookup_2. Qed.

Lemma stoneAt_elem_of (g : Grid) (x y : Z) (s : StoneColor) :
  stoneAt g x y = Some s -> exists row, row ∈ g /\ s ∈ row.
Proof.
  unfold stoneAt. destruct (index g y) as [row|] eqn:Hrow; simpl; [|done].
  intros Hs. exists row. split; eauto using index_elem_of.
Qed.

(** ** Textual coordinates *)

(** C10. Outside the 19 by 19 range [toGtpCoordinate] answers "pass" and
    does not fail; inside it answers the column letter followed by the
    decimal row number [19 - y], which is between 1 and 19, and that text is
    never "pass". *)
Theorem toGtpCoordinate_pass_or_label (x y : Z) :
  ((x < 0 \/ 19 <= x \/ y < 0 \/ 19 <= y) -> toGtpCoordinate x y = "pass") /\
  (0 <= x < 19 -> 0 <= y < 19 ->
   exists col : Ascii.ascii,
     String.get (Z.to_nat x) letters = Some col /\
     toGtpCoordinate x y = String col (pretty (19 - y)) /\
     1 <= 19 - y <= 19 /\
     toGtpCoordinate x y <> "pass").
Proof.
  split.
  - intros Hout. unfold toGtpCoordinate.
    destruct (Z.ltb_spec x 0); [done|].
    destruct (Z.leb_spec 19 x); [done|].
    destruct (Z.ltb_spec y 0); [done|].
    destruct (Z.leb_spec 19 y); [done|]. lia.
  - intros Hx Hy. unfold toGtpCoordinate.
    destruct (Z.ltb_spec x 0); [lia|].
    destruct (Z.leb_spec 19 x); [lia|].
    destruct (Z.ltb_spec y 0); [lia|].
    destruct (Z.leb_spec 19 y); [lia|]. simpl.
    assert (Hcases : (Z.to_nat x < 19)%nat) by lia.
    unfold char_at. destruct (Z.ltb_spec x 0); [lia|].
    set (n := Z.to_nat x) in *. clearbody n.
    do 19 (destruct n as [|n];
           [eexists; split; [reflexivity|]; split; [reflexivity|];
            split; [lia|]; simpl; discriminate |]).
    lia.
Qed.

Lemma toGtpCoordinate_pass_or_label_witness :
  toGtpCoordinate 3 15 = "D4" /\ toGtpCoordinate 19 0 = "pass".
Proof.
  destruct (toGtpCoordinate_pass_or_label 3 15) as [_ Hin].
  destruct (toGtpCoordinate_pass_or_label 19 0) as [Hout _].
  split.
  - destruct (Hin ltac:(lia) ltac:(lia)) as (col & Hcol & Heq & _).
    rewrite Heq. vm_compute in Hcol. injection Hcol as <-. reflexivity.
  - apply Hout. lia.
Defined.

(** ** Influence *)

Lemma influenceStones_no_stone (g : Grid) :
  (forall row s, row ∈ g -> s ∈ row -> s = EMPTY) -> influenceStones g = [].
Proof.
  intros Hempty. unfold influenceStones.
  apply (foldl_invariant (fun stones => stones = [])); [done|].
  intros stones y _ ->.
  apply (foldl_invariant (fun stones => stones = [])); [done|].
  intros stones x _ ->.
  assert (Hno : forall c, c <> EMPTY -> stoneAt g x y <> Some c).
  { intros c Hc Hs. apply stoneAt_elem_of in Hs as (row & Hrow & Hin).
    apply Hc. eauto. }
  rewrite !bool_decide_eq_false_2; [done | by apply Hno..].
Qed.

(** C9. On a grid without stones the influence heuristic counts no point
    for either colour: every score is the empty sum 0, which is neither
    above 0.5 nor below -0.5. *)
Theorem calculateInfluenceHeuristic_empty
    (Math_exp : float -> float) (Math_pow : float -> float -> float) (g : Grid) :
  (forall row s, row ∈ g -> s ∈ row -> s = EMPTY) ->
  (forall x y, influenceAt Math_exp Math_pow (influenceStones g) x y = 0%float) /\
  calculateInfluenceHeuristic Math_exp Math_pow g = mkArea 0 0.
Proof.
  intros Hempty. unfold calculateInfluenceHeuristic.
  rewrite (influenceStones_no_stone g Hempty). split; [done|].
  apply (foldl_invariant (fun area => area = mkArea 0 0)); [done|].
  intros area y _ ->.
  apply (foldl_invariant (fun area => area = mkArea 0 0)); [done|].
  intros area x _ ->. reflexivity.
Qed.

Lemma calculateInfluenceHeuristic_empty_witness :
  calculateInfluenceHeuristic (fun v => v) (fun v _ => v) (createEmptyGrid 5) = mkArea 0 0.
Proof.
  apply (calculateInfluenceHeuristic_empty (fun v => v) (fun v _ => v) (createEmptyGrid 5)).
  intros row s Hrow Hs.
  apply list_elem_of_In in Hrow. apply list_elem_of_In in Hs.
  vm_compute in Hrow.
  repeat (destruct Hrow as [<-|Hrow]; [vm_compute in Hs; intuition congruence|]).
  destruct Hrow.
Defined.

(** ** The engine at the positions above *)

(** C1. On a 19 by 19 board BLACK plays the corner (0,0) and takes the
    three WHITE stones bent around it. The group touches the new stone at
    (1,0) and at (0,1), is resolved once for each and appended twice: three
    stones leave the board and BLACK's count goes up by six. *)
Theorem playMove_counts_shared_group_twice (caught : string) :
  exists r,
    playMove noExternal caught Boards.bentThree 0 0 BLACK = Ret r /\
    valid r = true /\
    removedStones (grid Boards.bentThree) (grid (newState r))
      = [Coord 1 0; Coord 0 1; Coord 1 1] /\
    captures Boards.bentThree = Captures.mk 0 0 /\
    captures (newState r) = Captures.mk 6 0.
Proof. eexists. split; [vm_compute; reflexivity|]. by vm_compute. Qed.

(** C2. On the empty 5 by 5 board a BLACK move at the in-bounds point
    (0,4) throws: the neighbours are taken for a 19 by 19 board, (0,5) is
    among them and row 5 does not exist. The resolver throws alike for a
    stone on the bottom row. *)
Theorem playMove_throws_on_small_board (caught : string) :
  cell_at (grid (emptyState 5)) 0 4 = Ret (Some EMPTY) /\
  getNeighbors 0 4 BOARD_SIZE = [Coord 1 4; Coord 0 3; Coord 0 5] /\
  playMove noExternal caught (emptyState 5) 0 4 BLACK = TypeError /\
  checkLiberties Boards.bottomStone 2 4 BLACK = TypeError.
Proof. by vm_compute. Qed.

(** C4. On a 5 by 5 board the point (0,4) is empty, is not a ko point and
    has WHITE stones on both of its neighbours, each with liberties of its
    own: a BLACK move there is a suicide. The engine throws instead of
    returning a rejection. *)
Theorem playMove_suicide_throws_on_small_board (caught : string) :
  stoneAt (grid Boards.smallCorner) 0 4 = Some EMPTY /\
  koPoint Boards.smallCorner = None /\
  (stoneAt (grid Boards.smallCorner) 1 4 = Some WHITE /\
   stoneAt (grid Boards.smallCorner) 0 3 = Some WHITE /\
   getNeighbors 0 4 5 = [Coord 1 4; Coord 0 3]) /\
  (stoneAt (grid Boards.smallCorner) 2 4 = Some EMPTY /\
   stoneAt (grid Boards.smallCorner) 0 2 = Some EMPTY) /\
  playMove noExternal caught Boards.smallCorner 0 4 BLACK = TypeError.
Proof. by vm_compute. Qed.

(** C5. The resolver throws for a stone on the bottom row of a 5 by 5 grid,
    and on a 20 by 20 grid it returns the stone at (18,0) alone although
    the stone at (19,0) beside it has the same colour. *)
Theorem checkLiberties_wrong_off_19 :
  stoneAt Boards.bottomStone 2 4 = Some BLACK /\
  checkLiberties Boards.bottomStone 2 4 BLACK = TypeError /\
  stoneAt Boards.wideBoard 18 0 = Some BLACK /\
  stoneAt Boards.wideBoard 19 0 = Some BLACK /\
  checkLiberties Boards.wideBoard 18 0 BLACK = Ret (mkCheckResult true [Coord 18 0]).
Proof. by vm_compute. Qed.

(** C6. On a 5 by 5 grid the stone at (0,0) stands on row 5 - 0 = 5. The
    ASCII dump labels that row 5; the safety report, through
    [toGtpCoordinate], labels the same point A19. *)
Theorem toGtpCoordinate_ignores_board_size :
  length Boards.topLeftStone = 5%nat /\
  toGtpCoordinate 0 0 = "A19" /\
  analyzeSafetyHeuristic Boards.topLeftStone
    = Ret ["DANGER: Black group at A19 has only 2 liberties."] /\
  boardToAscii Boards.topLeftStone
    = "   A B C D E " +:+ newline +:+
      " 5 X . . . . 5" +:+ newline +:+
      " 4 . . . . . 4" +:+ newline +:+
      " 3 . . . . . 3" +:+ newline +:+
      " 2 . . . . . 2" +:+ newline +:+
      " 1 . . . . . 1" +:+ newline +:+
      "   A B C D E ".
Proof. by vm_compute. Qed.

(** C8. The safety scan throws on a 5 by 5 grid with a stone on the bottom
    row. On a 20 by 20 grid the two stones at (18,0) and (19,0) form one
    group with the three liberties (17,0), (18,1) and (19,1); the scan
    reports it with two. *)
Theorem analyzeSafetyHeuristic_wrong_off_19 :
  analyzeSafetyHeuristic Boards.bottomStone = TypeError /\
  (stoneAt Boards.wideBoard 17 0 = Some EMPTY /\
   stoneAt Boards.wideBoard 18 1 = Some EMPTY /\
   stoneAt Boards.wideBoard 19 1 = Some EMPTY) /\
  analyzeSafetyHeuristic Boards.wideBoard
    = Ret ["DANGER: Black group at T19 has only 2 liberties."].
Proof. by vm_compute. Qed.

(** ** Shape matcher *)

Lemma setAdd_elem_of (s s' : string) (found : list string) :
  s' ∈ setAdd s found <-> s' = s \/ s' ∈ found.
Proof.
  unfold setAdd. case_bool_decide.
  - split; [by right | intros [->|?]; done].
  - rewrite elem_of_app, list_elem_of_singleton. tauto.
Qed.

Lemma setAdd_NoDup (s : string) (found : list string) :
  NoDup found -> NoDup (setAdd s found).
Proof.
  intros Hnd. unfold setAdd. case_bool_decide; [done|].
  apply NoDup_app. split; [done|]. split; [|apply NoDup_singleton].
  intros s' Hs' ->%list_elem_of_singleton. done.
Qed.

Section Collect.
Context {B : Type} (F : list string -> B -> list string) (Q : B -> string -> Prop).
Hypothesis F_elem_of : forall found b s, s ∈ F found b <-> s ∈ found \/ Q b s.
Hypothesis F_NoDup : forall found b, NoDup found -> NoDup (F found b).

Lemma foldl_collect_elem_of (l : list B) (found : list string) (s : string) :
  s ∈ foldl F found l <-> s ∈ found \/ exists b, b ∈ l /\ Q b s.
Proof.
  revert found. induction l as [|b l IH]; intros found; simpl.
  - split; [by left | intros [?|(b & Hb & _)]; [done | by apply elem_of_nil in Hb]].
  - rewrite IH, F_elem_of. split.
    + intros [[?|?]|(b' & ? & ?)]; [by left | right; exists b | right; exists b'];
        split; try done; [left | by right].
    + intros [?|(b' & Hb' & ?)]; [by left; left|].
      apply elem_of_cons in Hb' as [->|?]; [by left; right | right; by exists b'].
Qed.

Lemma foldl_collect_NoDup (l : list B) (found : list string) :
  NoDup found -> NoDup (foldl F found l).
Proof. revert found. induction l; simpl; auto. Qed.
End Collect.

Lemma scanBoard_elem_of (numGrid pGrid : list (list Z)) (size : Z) (pat : ShapePattern)
    (colorSign : Z) (found : list string) (s : string) :
  s ∈ scanBoard numGrid pGrid size pat colorSign found <->
  s ∈ found \/
  exists x y, 0 <= x <= size - patSize pat /\ 0 <= y <= size - patSize pat /\
              matchAt numGrid pGrid (patSize pat) x y = true /\
              s = shapeFinding pat colorSign x y.
Proof.
  unfold scanBoard.
  rewrite (foldl_collect_elem_of _
    (fun y s => exists x, 0 <= x <= size - patSize pat /\
                          matchAt numGrid pGrid (patSize pat) x y = true /\
                          s = shapeFinding pat colorSign x y)).
  - split; (intros [?|Hex]; [by left | right]).
    + destruct Hex as (y & Hy%elem_of_seqZ & x & ? & ? & ?).
      exists x, y. repeat split; try done; lia.
    + destruct Hex as (x & y & ? & ? & ? & ?). exists y.
      split; [apply elem_of_seqZ; lia | by exists x].
  - intros found' y s'.
    rewrite (foldl_collect_elem_of _
      (fun x s => matchAt numGrid pGrid (patSize pat) x y = true /\
                  s = shapeFinding pat colorSign x y)).
    + split; (intros [?|Hex]; [by left | right]).
      * destruct Hex as (x & Hx%elem_of_seqZ & ? & ?). exists x.
        repeat split; try done; lia.
      * destruct Hex as (x & ? & ? & ?). exists x.
        split; [apply elem_of_seqZ; lia | done].
    + intros found'' x s''. destruct (matchAt _ _ _ x y).
      * rewrite setAdd_elem_of. split.
        -- intros [->|?]; [by right | by left].
        -- intros [?|[_ ->]]; [by right | by left].
      * split; [by left | by intros [?|[? _]]].
Qed.

Lemma scanBoard_NoDup (numGrid pGrid : list (list Z)) (size : Z) (pat : ShapePattern)
    (colorSign : Z) (found : list string) :
  NoDup found -> NoDup (scanBoard numGrid pGrid size pat colorSign found).
Proof.
  unfold scanBoard. apply foldl_collect_NoDup. intros found' y.
  apply foldl_collect_NoDup. intros found'' x ?.
  destruct (matchAt _ _ _ x y); auto using setAdd_NoDup.
Qed.

Lemma scanRotations_elem_of (g : Grid) (pat : ShapePattern) (colorSign : Z)
    (found : list string) (s : string) :
  s ∈ scanRotations g pat colorSign found <->
  s ∈ found \/
  exists r x y, (1 <= r <= 4)%nat /\
                0 <= x <= Z.of_nat (length g) - patSize pat /\
                0 <= y <= Z.of_nat (length g) - patSize pat /\
                matchAt (numGridOf g) (templateOf pat colorSign r) (patSize pat) x y = true /\
                s = shapeFinding pat colorSign x y.
Proof.
  unfold scanRotations, templateOf. cbn [seqZ foldl snd].
  change (seqZ 0 4) with [0; 1; 2; 3]. cbn [foldl snd].
  rewrite !scanBoard_elem_of. split.
  - intros [[[[?|H]|H]|H]|H]; [by left|right..];
      destruct H as (x & y & ? & ? & ? & ?);
      [exists 1%nat | exists 2%nat | exists 3%nat | exists 4%nat];
      exists x, y; repeat split; try done; lia.
  - intros [?|(r & x & y & Hr & ? & ? & Hm & ?)]; [by do 4 left|].
    assert (Hcases : (r = 1 \/ r = 2 \/ r = 3 \/ r = 4)%nat) by lia.
    destruct Hcases as [->|[->|[->| ->]]];
      [do 3 left; right | do 2 left; right | left; right | right];
      exists x, y; done.
Qed.

Lemma scanRotations_NoDup (g : Grid) (pat : ShapePattern) (colorSign : Z)
    (found : list string) :
  NoDup found -> NoDup (scanRotations g pat colorSign found).
Proof.
  intros Hnd. unfold scanRotations.
  change (seqZ 0 4) with [0; 1; 2; 3]. cbn [foldl snd].
  by do 4 apply scanBoard_NoDup.
Qed.

(** C7, as the code has it. The scan returns a list without repetitions,
    and a text is in it exactly when it is the finding of a recorded match:
    the pattern's type and name, the colour, and the coordinate of the
    top-left corner [(x, y)] of the matching window as [toGtpCoordinate]
    renders it. *)
Theorem findShapesHeuristic_findings (g : Grid) :
  NoDup (findShapesHeuristic g) /\
  forall s, s ∈ findShapesHeuristic g <->
            exists pat colorSign r x y,
              matchRecorded g pat colorSign r x y /\
              s = shapeFinding pat colorSign x y.
Proof.
  unfold findShapesHeuristic. split.
  - apply foldl_collect_NoDup; [|apply NoDup_nil_2].
    intros found pat. apply foldl_collect_NoDup.
    intros found' colorSign. apply scanRotations_NoDup.
  - intros s.
    rewrite (foldl_collect_elem_of _
      (fun pat s => exists colorSign r x y,
                      colorSign ∈ [1; -1] /\ (1 <= r <= 4)%nat /\
                      0 <= x <= Z.of_nat (length g) - patSize pat /\
                      0 <= y <= Z.of_nat (length g) - patSize pat /\
                      matchAt (numGridOf g) (templateOf pat colorSign r) (patSize pat) x y = true /\
                      s = shapeFinding pat colorSign x y)).
    + unfold matchRecorded. split.
      * intros [Hnil|(pat & ? & cs & r & x & y & ? & ? & ? & ? & ? & ?)];
          [by apply elem_of_nil in Hnil|].
        exists pat, cs, r, x, y. done.
      * intros (pat & cs & r & x & y & (? & ? & ? & ? & ? & ?) & ?).
        right. exists pat. split; [done|]. exists cs, r, x, y. done.
    + intros found pat s'.
      rewrite (foldl_collect_elem_of _
        (fun colorSign s => exists r x y,
                      (1 <= r <= 4)%nat /\
                      0 <= x <= Z.of_nat (length g) - patSize pat /\
                      0 <= y <= Z.of_nat (length g) - patSize pat /\
                      matchAt (numGridOf g) (templateOf pat colorSign r) (patSize pat) x y = true /\
                      s = shapeFinding pat colorSign x y)).
      * split; (intros [?|Hex]; [by left | right]).
        -- destruct Hex as (cs & ? & r & x & y & ? & ? & ? & ? & ?).
           exists cs, r, x, y. done.
        -- destruct Hex as (cs & r & x & y & ? & ?). exists cs. split; [done|].
           exists r, x, y. done.
      * intros found' cs s''. apply scanRotations_elem_of.
Qed.

(** C7, as the claim has it, fails: on the ponnuki position the scan
    records the match of the Ponnuki template at the window (0,0) and
    reports it at A19, the corner of the window, which is an empty point.
    The first stone of the template is at (1,0), B19 on the board. *)
Lemma findShapesHeuristic_anchor_not_first_stone :
  ~ (forall g pat colorSign r x y,
       matchRecorded g pat colorSign r x y ->
       exists a, firstStonePoint (templateOf pat colorSign r) = Some a /\
                 shapeFinding pat colorSign (x + Coordinate.x a) (y + Coordinate.y a)
                   ∈ findShapesHeuristic g).
Proof.
  intros Hclaim.
  destruct (Hclaim Boards.ponnuki
              (mkShapePattern "Ponnuki" 3 [[0; 1; 0]; [1; 0; 1]; [0; 1; 0]] GOOD)
              1 1%nat 0 0) as (a & Ha & Hin).
  - unfold matchRecorded. repeat split; try (by vm_compute); try lia.
    + right; left.
    + left.
  - vm_compute in Ha. injection Ha as <-.
    vm_compute in Hin.
    apply list_elem_of_In in Hin. destruct Hin as [Hin|[]]. discriminate Hin.
Qed.

(** ** Outcomes *)

Lemma bind_Ret {A B : Type} (m : Js A) (k : A -> Js B) (b : B) :
  m ≫= k = Ret b -> exists a, m = Ret a /\ k a = Ret b.
Proof. destruct m; simpl; [eauto | done..]. Qed.

Ltac js_inv H :=
  let a := fresh "v" in
  let Ha := fresh "Hv" in
  apply bind_Ret in H as (a & Ha & H).

(** ** Reading and writing the grid *)

Lemma cell_at_Ret (g : Grid) (x y : Z) (o : option StoneColor) :
  cell_at g x y = Ret o -> stoneAt g x y = o.
Proof.
  unfold cell_at, stoneAt. destruct (index g y); simpl; [|done]. by intros [= ->].
Qed.

Lemma stoneAt_cell_at (g : Grid) (x y : Z) (s : StoneColor) :
  stoneAt g x y = Some s -> cell_at g x y = Ret (Some s).
Proof.
  unfold cell_at, stoneAt. destruct (index g y); simpl; [|done]. by intros ->.
Qed.

Lemma index_insert {A : Type} (a : list A) (i j : Z) (v w : A) :
  index a i = Some w ->
  index (<[Z.to_nat i := v]> a) j = if decide (j = i) then Some v else index a j.
Proof.
  intros [Hi Hw]%index_Some. unfold index at 1.
  destruct (Z.ltb_spec j 0) as [Hj|Hj].
  - case_decide; [lia|]. unfold index. by destruct (Z.ltb_spec j 0); [|lia].
  - case_decide as Heq.
    + subst j. apply list_lookup_insert_eq. by eapply lookup_lt_Some.
    + rewrite list_lookup_insert_ne by lia.
      unfold index. by destruct (Z.ltb_spec j 0); [lia|].
Qed.

Lemma set_cell_Ret (g g' : Grid) (x y : Z) (v : StoneColor) :
  set_cell g x y v = Ret g' ->
  forall x' y', stoneAt g' x' y' =
                if decide (x' = x /\ y' = y) then Some v else stoneAt g x' y'.
Proof.
  unfold set_cell. destruct (index g y) as [row|] eqn:Hrow; [|done].
  destruct (index row x) as [w|] eqn:Hw; [|done]. intros [= <-] x' y'.
  unfold stoneAt. rewrite (index_insert g y y' _ row Hrow).
  destruct (decide (y' = y)) as [->|Hy]; simpl.
  - rewrite Hrow. simpl. rewrite (index_insert row x x' _ w Hw).
    destruct (decide (x' = x)); case_decide; try done; tauto.
  - case_decide; [tauto | done].
Qed.

Lemma set_cell_defined (g : Grid) (x y : Z) (v s : StoneColor) :
  stoneAt g x y = Some s -> exists g', set_cell g x y v = Ret g'.
Proof.
  unfold stoneAt, set_cell. destruct (index g y) as [row|]; simpl; [|done].
  intros ->. eauto.
Qed.

Lemma removeStones_Ret (stones : list Coordinate) (g g' : Grid) :
  removeStones g stones = Ret g' ->
  forall x y, stoneAt g' x y =
              if decide (Coord x y ∈ stones) then Some EMPTY else stoneAt g x y.
Proof.
  revert g. induction stones as [|s stones IH]; intros g Hrm x y; simpl in Hrm.
  - injection Hrm as <-. by rewrite decide_False by apply not_elem_of_nil.
  - js_inv Hrm. rewrite (IH _ Hrm), (set_cell_Ret _ _ _ _ _ Hv).
    destruct s as [sx sy]; simpl.
    destruct (decide (Coord x y ∈ stones)) as [Hin|Hin].
    + rewrite decide_True; [done | by right].
    + destruct (decide (x = sx /\ y = sy)) as [[-> ->]|Hne].
      * rewrite decide_True; [done | left].
      * rewrite decide_False; [done|].
        intros [[= -> ->]|?]%elem_of_cons; tauto.
Qed.

(** ** The points of a grid *)

Lemma elem_of_rowCells {A : Type} (cells : list A) (row col : Z) (c : Coordinate) :
  c ∈ rowCells row col cells <->
  Coordinate.y c = row /\ col <= Coordinate.x c < col + Z.of_nat (length cells).
Proof.
  revert col. induction cells as [|a cells IH]; intros col; simpl.
  - rewrite elem_of_nil. lia.
  - rewrite elem_of_cons, IH. destruct c as [cx cy]; simpl. split.
    + intros [[= -> ->]|?]; lia.
    + intros [-> ?]. destruct (decide (cx = col)) as [->|?]; [by left | right; lia].
Qed.

Lemma NoDup_rowCells {A : Type} (cells : list A) (row col : Z) :
  NoDup (rowCells row col cells).
Proof.
  revert col. induction cells as [|a cells IH]; intros col; simpl.
  - apply NoDup_nil_2.
  - apply NoDup_cons. split; [|apply IH].
    rewrite elem_of_rowCells. simpl. lia.
Qed.

Lemma elem_of_cellsFrom {A : Type} (rows : list (list A)) (row : Z) (c : Coordinate) :
  c ∈ cellsFrom row rows <->
  exists cells, row <= Coordinate.y c /\
                rows !! Z.to_nat (Coordinate.y c - row) = Some cells /\
                0 <= Coordinate.x c < Z.of_nat (length cells).
Proof.
  revert row. induction rows as [|cells rows IH]; intros row; simpl.
  - rewrite elem_of_nil. split; [done | by intros (? & _ & ? & _)].
  - rewrite elem_of_app, elem_of_rowCells, IH. split.
    + intros [[Hy Hx]|(cells' & Hy & Hrow & Hx)].
      * exists cells. rewrite Hy, Z.sub_diag. split; [lia|]. split; [done | lia].
      * exists cells'. split; [lia|]. split; [|done].
        replace (Z.to_nat (Coordinate.y c - row))
          with (S (Z.to_nat (Coordinate.y c - (row + 1)))) by lia. done.
    + intros (cells' & Hy & Hrow & Hx).
      destruct (decide (Coordinate.y c = row)) as [Heq|Hne].
      * left. rewrite Heq, Z.sub_diag in Hrow. injection Hrow as ->. lia.
      * right. exists cells'. split; [lia|]. split; [|done].
        replace (Z.to_nat (Coordinate.y c - row))
          with (S (Z.to_nat (Coordinate.y c - (row + 1)))) in Hrow by lia. done.
Qed.

Lemma NoDup_cellsFrom {A : Type} (rows : list (list A)) (row : Z) :
  NoDup (cellsFrom row rows).
Proof.
  revert row. induction rows as [|cells rows IH]; intros row; simpl.
  - apply NoDup_nil_2.
  - apply NoDup_app. split; [apply NoDup_rowCells|]. split; [|apply IH].
    intros c [Hy _]%elem_of_rowCells (? & ? & _)%elem_of_cellsFrom. lia.
Qed.

Lemma elem_of_gridCells (g : Grid) (c : Coordinate) :
  c ∈ gridCells g <-> is_Some (stoneAt g (Coordinate.x c) (Coordinate.y c)).
Proof.
  unfold gridCells. rewrite elem_of_cellsFrom. unfold stoneAt. split.
  - intros (cells & Hy & Hrow & Hx). rewrite Z.sub_0_r in Hrow.
    assert (Hi : index g (Coordinate.y c) = Some cells) by (apply index_Some; split; [lia | done]).
    rewrite Hi. simpl.
    destruct (lookup_lt_is_Some_2 cells (Z.to_nat (Coordinate.x c))) as [s Hs]; [lia|].
    exists s. apply index_Some. split; [lia | done].
  - intros [s Hs]. destruct (index g (Coordinate.y c)) as [cells|] eqn:Hrow; [|done].
    simpl in Hs. apply index_Some in Hrow as [? Hrow]. apply index_Some in Hs as [? Hs].
    exists cells. rewrite Z.sub_0_r. split; [lia|]. split; [done|].
    apply lookup_lt_Some in Hs. lia.
Qed.

Lemma NoDup_gridCells (g : Grid) : NoDup (gridCells g).
Proof. apply NoDup_cellsFrom. Qed.

Lemma NoDup_getNeighbors (x y size : Z) : NoDup (getNeighbors x y size).
Proof.
  unfold getNeighbors.
  destruct (0 <? x), (x <? size - 1), (0 <? y), (y <? size - 1); simpl;
    repeat (apply NoDup_cons; split;
            [rewrite ?elem_of_cons, ?elem_of_nil;
             intros Hin; decompose [or] Hin; simplify_eq; lia |]);
    apply NoDup_nil_2.
Qed.

(** ** The resolver: what every returned group satisfies *)

Lemma scanNeighbors_Ret (g : Grid) (color : StoneColor) (visited : gset Coordinate)
    (ns stack : list Coordinate) (lib : bool) (stack' : list Coordinate) (lib' : bool) :
  scanNeighbors g color visited ns stack lib = Ret (stack', lib') ->
  (forall c, c ∈ stack' -> c ∈ stack \/ (c ∈ ns /\ colored g color c /\ c ∉ visited)) /\
  (length stack' <= length stack + length ns)%nat.
Proof.
  revert stack lib. induction ns as [|n ns IH]; intros stack lib Hscan; simpl in Hscan.
  - injection Hscan as <- <-. split; [by left | lia].
  - js_inv Hscan. apply cell_at_Ret in Hv.
    destruct (bool_decide (v = Some EMPTY)).
    { destruct (IH _ _ Hscan) as [Hin Hlen]. split; [|simpl; lia].
      intros c Hc. destruct (Hin c Hc) as [?|(? & ? & ?)]; [by left | right].
      split; [by right | done]. }
    destruct (bool_decide (v = Some color)) eqn:Hcol; simpl in Hscan;
      [destruct (bool_decide (n ∈ visited)) eqn:Hvis; simpl in Hscan|].
    + destruct (IH _ _ Hscan) as [Hin Hlen]. split; [|simpl; lia].
      intros c Hc. destruct (Hin c Hc) as [?|(? & ? & ?)]; [by left | right].
      split; [by right | done].
    + destruct (IH _ _ Hscan) as [Hin Hlen]. split; [|simpl in *; lia].
      apply bool_decide_eq_true in Hcol. apply bool_decide_eq_false in Hvis.
      intros c Hc. destruct (Hin c Hc) as [[->|?]%elem_of_cons|(? & ? & ?)].
      * right. split; [left|]. split; [|done]. unfold colored. by rewrite Hv, Hcol.
      * by left.
      * right. split; [by right | done].
    + destruct (IH _ _ Hscan) as [Hin Hlen]. split; [|simpl; lia].
      intros c Hc. destruct (Hin c Hc) as [?|(? & ? & ?)]; [by left | right].
      split; [by right | done].
Qed.

Lemma checkLiberties_loop_Ret (fuel : nat) (g : Grid) (color : StoneColor)
    (stack : list Coordinate) (visited : gset Coordinate) (grp : list Coordinate)
    (lib : bool) (res : CheckResult) :
  checkLiberties_loop fuel g color stack visited grp lib = Ret res ->
  (forall c, c ∈ stack -> colored g color c) ->
  (forall c, c ∈ visited <-> c ∈ grp) ->
  NoDup grp ->
  (forall c, c ∈ grp -> colored g color c) ->
  NoDup (group res) /\
  (forall c, c ∈ group res -> colored g color c) /\
  exists tail, group res = grp ++ tail.
Proof.
  revert stack visited grp lib.
  induction fuel as [|fuel IH]; intros stack visited grp lib Hloop Hstack Hvis Hnd Hgrp;
    destruct stack as [|current stack]; simpl in Hloop; try done.
  - injection Hloop as <-. simpl. split; [done|]. split; [done|].
    exists []. by rewrite app_nil_r.
  - injection Hloop as <-. simpl. split; [done|]. split; [done|].
    exists []. by rewrite app_nil_r.
  - destruct (bool_decide (current ∈ visited)) eqn:Hcur.
    + apply (IH _ _ _ _ Hloop); try done.
      intros c Hc. apply Hstack. by right.
    + apply bool_decide_eq_false in Hcur.
      js_inv Hloop. destruct v as [stack'' lib''].
      apply scanNeighbors_Ret in Hv as [Hin _].
      destruct (IH _ _ _ _ Hloop) as (Hnd' & Hcol' & tail & Htail).
      * intros c Hc. destruct (Hin c Hc) as [?|(_ & ? & _)]; [|done].
        apply Hstack. by right.
      * intros c. rewrite elem_of_union, elem_of_singleton, elem_of_app,
          list_elem_of_singleton, Hvis. tauto.
      * apply NoDup_app. split; [done|]. split; [|apply NoDup_singleton].
        intros c Hc ->%list_elem_of_singleton. apply Hcur. by apply Hvis.
      * intros c [?| ->%list_elem_of_singleton]%elem_of_app; [by apply Hgrp|].
        apply Hstack. left.
      * split; [done|]. split; [done|].
        exists (current :: tail). by rewrite Htail, <- app_assoc.
Qed.

Lemma checkLiberties_Ret (g : Grid) (x y : Z) (color : StoneColor) (res : CheckResult) :
  checkLiberties g x y color = Ret res ->
  stoneAt g x y = Some color ->
  NoDup (group res) /\
  (forall c, c ∈ group res -> colored g color c) /\
  exists tail, group res = Coord x y :: tail.
Proof.
  unfold checkLiberties, checkLiberties_fuel. intros Hloop Hseed.
  cbn [checkLiberties_loop] in Hloop.
  rewrite bool_decide_eq_false_2 in Hloop by apply not_elem_of_empty.
  js_inv Hloop. destruct v as [stack' lib'].
  apply scanNeighbors_Ret in Hv as [Hin _].
  destruct (checkLiberties_loop_Ret _ _ _ _ _ _ _ _ Hloop) as (Hnd & Hcol & tail & Htail).
  - intros c Hc. destruct (Hin c Hc) as [Hnil|(_ & ? & _)]; [|done].
    by apply elem_of_nil in Hnil.
  - intros c. rewrite union_empty_r_L, elem_of_singleton. simpl.
    by rewrite list_elem_of_singleton.
  - apply NoDup_singleton.
  - intros c ->%list_elem_of_singleton. done.
  - split; [done|]. split; [done|]. by exists tail.
Qed.

(** ** Captures *)

Lemma captureNeighbors_Ret (g : Grid) (opponent : StoneColor)
    (ns acc res : list Coordinate) :
  captureNeighbors g opponent ns acc = Ret res ->
  exists extra, res = acc ++ extra /\ forall c, c ∈ extra -> colored g opponent c.
Proof.
  revert acc. induction ns as [|n ns IH]; intros acc Hcap; simpl in Hcap.
  - injection Hcap as <-. exists []. split; [by rewrite app_nil_r|].
    by intros c ?%elem_of_nil.
  - js_inv Hcap. apply cell_at_Ret in Hv.
    case_bool_decide as Hopp; [|by apply IH].
    js_inv Hcap. destruct (hasLiberties v0); simpl in Hcap; [by apply IH|].
    destruct (IH _ Hcap) as (extra & -> & Hextra).
    destruct (checkLiberties_Ret _ _ _ _ _ Hv0) as (_ & Hcol & _); [by rewrite Hv|].
    exists (group v0 ++ extra). split; [by rewrite app_assoc|].
    intros c [?|?]%elem_of_app; auto.
Qed.

Lemma captureNeighbors_single (g : Grid) (opponent : StoneColor)
    (ns acc res : list Coordinate) (k : Coordinate) :
  captureNeighbors g opponent ns acc = Ret res ->
  NoDup ns ->
  (forall c, c ∈ res -> c = k) ->
  acc = [] \/ (acc = [k] /\ k ∉ ns) ->
  res = [] \/ res = [k].
Proof.
  revert acc. induction ns as [|n ns IH]; intros acc Hcap Hnd Hall Hacc; simpl in Hcap.
  - injection Hcap as <-. destruct Hacc as [->|[-> _]]; auto.
  - apply NoDup_cons in Hnd as [Hn Hnd].
    assert (Hacc' : acc = [] \/ (acc = [k] /\ k ∉ ns)).
    { destruct Hacc as [->|[-> Hk]]; [by left | right]. split; [done|].
      intros ?. apply Hk. by right. }
    js_inv Hcap. apply cell_at_Ret in Hv.
    case_bool_decide as Hopp; [|by apply (IH acc)].
    js_inv Hcap. destruct (hasLiberties v0); simpl in Hcap; [by apply (IH acc)|].
    destruct (captureNeighbors_Ret _ _ _ _ _ Hcap) as (extra & Hres & _).
    destruct (checkLiberties_Ret _ _ _ _ _ Hv0) as (Hndg & _ & tail & Htail);
      [by rewrite Hv|].
    assert (Hnk : n = k).
    { destruct n as [nx ny]. apply Hall. rewrite Hres, Htail. simpl.
      apply elem_of_app. left. apply elem_of_app. right. left. }
    assert (Htl : tail = []).
    { destruct tail as [|c tail]; [done|]. exfalso.
      rewrite Htail in Hndg. apply NoDup_cons in Hndg as [Hnotin _].
      apply Hnotin. assert (c = k) as ->.
      { apply Hall. rewrite Hres, Htail.
        apply elem_of_app. left. apply elem_of_app. right. right. left. }
      destruct n; simpl in *. subst k. left. }
    apply (IH (acc ++ group v0)); try done.
    destruct Hacc as [->|[-> Hk]].
    + right. rewrite Htail, Htl. destruct n; simpl in *. subst k. done.
    + exfalso. apply Hk. subst k. left.
Qed.

Lemma opponentOf_ne (color : StoneColor) :
  opponentOf color <> color /\ opponentOf color <> EMPTY.
Proof. by destruct color. Qed.

(** ** The local move *)

Lemma playMove_local_Ret (st : BoardState) (x y : Z) (color : StoneColor) (r : MoveResult) :
  playMove_local st x y color = Ret r -> valid r = true ->
  exists placed captured,
    set_cell (grid st) x y color = Ret placed /\
    captureNeighbors placed (opponentOf color) (getNeighbors x y BOARD_SIZE) [] = Ret captured /\
    removeStones placed captured = Ret (grid (newState r)) /\
    captures (newState r)
      = addCaptures (captures st) color (Z.of_nat (length captured)) /\
    lastMove (newState r) = Some (Coord x y) /\
    message r = None /\
    forall k, koPoint (newState r) = Some k <->
              captured = [k] /\
              exists own, checkLiberties (grid (newState r)) x y color = Ret own /\
                          length (group own) = 1%nat /\ hasLiberties own = true.
Proof.
  unfold playMove_local. intros Hplay Hvalid.
  js_inv Hplay. rename v into placed, Hv into Hplaced.
  js_inv Hplay. rename v into captured, Hv into Hcaptured.
  js_inv Hplay. rename v into newGrid, Hv into HnewGrid.
  js_inv Hplay. destruct v; [injection Hplay as <-; done|]. clear Hv.
  js_inv Hplay. injection Hplay as <-. simpl.
  exists placed, captured. do 6 (split; [done|]). intros k. split.
  - intros Hko. destruct captured as [|s [|s' captured]];
      [by injection Hv as <- | | by injection Hv as <-].
    js_inv Hv. destruct s as [sx sy]. simpl in Hv.
    destruct (bool_decide (length (group v0) = 1%nat)) eqn:Hlen; simpl in Hv;
      [|by injection Hv as <-].
    destruct (hasLiberties v0) eqn:Hlib; simpl in Hv; [|by injection Hv as <-].
    injection Hv as <-. injection Hko as <-. split; [done|]. exists v0.
    apply bool_decide_eq_true in Hlen. done.
  - intros [-> (own & Hown & Hlen & Hlib)].
    rewrite Hown in Hv. simpl in Hv. rewrite Hlib, bool_decide_eq_true_2 in Hv by done.
    simpl in Hv. injection Hv as <-. by destruct k.
Qed.

Lemma removedStones_captured (old placed new : Grid) (x y : Z) (color : StoneColor)
    (captured : list Coordinate) :
  stoneAt old x y = Some EMPTY ->
  set_cell old x y color = Ret placed ->
  (forall c, c ∈ captured -> colored placed (opponentOf color) c) ->
  removeStones placed captured = Ret new ->
  forall c, c ∈ removedStones old new <-> c ∈ captured.
Proof.
  intros Hempty Hplaced Hcol Hnew c. unfold removedStones.
  rewrite list_elem_of_filter, (elem_of_gridCells old c).
  rewrite (removeStones_Ret _ _ _ Hnew (Coordinate.x c) (Coordinate.y c)).
  destruct (opponentOf_ne color) as [Hne1 Hne2].
  assert (Heta : Coord (Coordinate.x c) (Coordinate.y c) = c) by by destruct c.
  rewrite Heta. split.
  - intros [[Hold Hnow] _]. destruct (decide (c ∈ captured)); [done|]. exfalso.
    rewrite (set_cell_Ret _ _ _ _ _ Hplaced) in Hnow.
    case_decide as Hxy; [|done]. destruct Hxy as [Hx Hy].
    rewrite Hx, Hy in Hold. by rewrite Hempty in Hold.
  - intros Hc. rewrite decide_True by done.
    specialize (Hcol c Hc). unfold colored in Hcol.
    rewrite (set_cell_Ret _ _ _ _ _ Hplaced) in Hcol.
    case_decide as Hxy; [congruence|].
    rewrite Hcol. split; [split; [congruence | done] | done].
Qed.

Lemma NoDup_only (l : list Coordinate) (k : Coordinate) :
  NoDup l -> (forall c, c ∈ l <-> c = k) -> l = [k].
Proof.
  intros Hnd Hl. destruct l as [|a l].
  - exfalso. eapply elem_of_nil, Hl. done.
  - assert (a = k) as -> by (apply Hl; left).
    destruct l as [|b l]; [done|]. exfalso.
    assert (b = k) as -> by (apply Hl; right; left).
    apply NoDup_cons in Hnd as [Hnotin _]. apply Hnotin. left.
Qed.

Lemma NoDup_removedStones (old new : Grid) : NoDup (removedStones old new).
Proof. apply NoDup_filter, NoDup_gridCells. Qed.

Lemma playMove_ownRules
    (external : Grid -> Captures -> Z -> Z -> Z -> option MakeMove) (caught : string)
    (st : BoardState) (x y : Z) (color : StoneColor) :
  ownRules external st x y color ->
  match external (grid st) (captures st) (toSign color) x y with
  | Some (Throws msg) => mret (reject st (default "Invalid move" msg))
  | Some (Gives (Some next)) =>
      match signMap next with
      | Some sm => mret (playMove_external caught st x y next sm)
      | None => playMove_local st x y color
      end
  | _ => playMove_local st x y color
  end = playMove_local st x y color.
Proof.
  unfold ownRules. destruct (external _ _ _ _ _) as [[msg|[next|]]|]; try done.
  by intros ->.
Qed.

(** The ko point of the engine's own rules. For a valid move that they
    play, the new state has the ko point [k] exactly when [k] is the one
    stone that left the board and the group resolved from the new stone is
    that stone alone with a liberty; otherwise there is no ko point. A move
    at the ko point of the new state, with either colour, is rejected as a
    ko violation and gives the new state back. *)
Theorem playMove_ko_point
    (external : Grid -> Captures -> Z -> Z -> Z -> option MakeMove) (caught : string)
    (st : BoardState) (x y : Z) (color : StoneColor) (r : MoveResult) :
  ownRules external st x y color ->
  playMove external caught st x y color = Ret r ->
  valid r = true ->
  (forall k, koPoint (newState r) = Some k <->
             removedStones (grid st) (grid (newState r)) = [k] /\
             exists own, checkLiberties (grid (newState r)) x y color = Ret own /\
                         length (group own) = 1%nat /\ hasLiberties own = true) /\
  (forall k color',
     koPoint (newState r) = Some k ->
     playMove external caught (newState r) (Coordinate.x k) (Coordinate.y k) color'
       = Ret (reject (newState r) "Ko rule violation")).
Proof.
  intros Hext Hplay Hvalid. unfold playMove in Hplay.
  js_inv Hplay. rename v into target, Hv into Htarget. apply cell_at_Ret in Htarget.
  case_bool_decide as Hocc; [injection Hplay as <-; done|].
  rewrite Hocc in Htarget.
  destruct (isKoPoint st x y); [injection Hplay as <-; done|].
  apply (playMove_ownRules _ caught) in Hext. rewrite Hext in Hplay.
  destruct (playMove_local_Ret _ _ _ _ _ Hplay Hvalid)
    as (placed & captured & Hplaced & Hcaptured & Hnew & _ & _ & _ & Hko).
  destruct (captureNeighbors_Ret _ _ _ _ _ Hcaptured) as (extra & Hextra & Hcol).
  simpl in Hextra. subst extra.
  pose proof (removedStones_captured _ _ _ _ _ _ _ Htarget Hplaced Hcol Hnew) as Hrem.
  assert (Hiff : forall k, removedStones (grid st) (grid (newState r)) = [k] <-> captured = [k]).
  { intros k. split; intros Heq.
    - destruct (captureNeighbors_single _ _ _ _ _ k Hcaptured) as [->| ->];
        [apply NoDup_getNeighbors | | by left | | done].
      + intros c Hc. apply Hrem in Hc. rewrite Heq in Hc.
        by apply list_elem_of_singleton in Hc.
      + exfalso. eapply elem_of_nil, Hrem. rewrite Heq. left.
    - apply NoDup_only; [apply NoDup_removedStones|].
      intros c. rewrite Hrem, Heq. apply list_elem_of_singleton. }
  split.
  - intros k. rewrite Hko, Hiff. done.
  - intros k color' Hk. unfold playMove.
    assert (Hempty : stoneAt (grid (newState r)) (Coordinate.x k) (Coordinate.y k) = Some EMPTY).
    { apply Hko in Hk as [Hk _]. apply Hiff in Hk.
      assert (Hin : k ∈ removedStones (grid st) (grid (newState r))) by (rewrite Hk; left).
      unfold removedStones in Hin. apply list_elem_of_filter in Hin as [[_ ?] _]. done. }
    rewrite (stoneAt_cell_at _ _ _ _ Hempty). simpl.
    unfold isKoPoint. rewrite Hk, !bool_decide_eq_true_2 by done. done.
Qed.

Lemma playMove_ko_point_witness :
  koPoint (newState Boards.koResult) = Some (Coord 1 1) /\
  removedStones (grid Boards.koShape) (grid (newState Boards.koResult)) = [Coord 1 1] /\
  playMove noExternal "" (newState Boards.koResult) 1 1 WHITE
    = Ret (reject (newState Boards.koResult) "Ko rule violation").
Proof.
  destruct (playMove_ko_point noExternal "" Boards.koShape 1 2 BLACK Boards.koResult)
    as [Hko Hreplay]; [exact I | vm_compute; reflexivity | reflexivity |].
  assert (Hk : koPoint (newState Boards.koResult) = Some (Coord 1 1)) by reflexivity.
  split; [exact Hk|]. split.
  - exact (proj1 (proj1 (Hko (Coord 1 1)) Hk)).
  - exact (Hreplay (Coord 1 1) WHITE Hk).
Defined.

(** C3. The block for the rules library sets the ko point without looking
    at the group of the new stone. On [Library.edgeStone] BLACK plays
    (1,1) and takes the one WHITE stone at (1,0); the new stone joins the
    BLACK stones at (0,1) and (0,0), a group of three with a liberty. The
    library applies the move and the new state has the ko point (1,0);
    WHITE's move there, which takes the three BLACK stones and repeats no
    position, is rejected as a ko violation. The engine's own rules give
    the same grid with no ko point and accept WHITE's move. *)
Theorem playMove_library_ko_without_own_group (caught : string) :
  exists r own r' r'',
    playMove Library.goBoard caught Library.edgeStone 1 1 BLACK = Ret r /\
    valid r = true /\
    removedStones (grid Library.edgeStone) (grid (newState r)) = [Coord 1 0] /\
    checkLiberties (grid (newState r)) 1 1 BLACK = Ret own /\
    group own = [Coord 1 1; Coord 0 1; Coord 0 0] /\
    hasLiberties own = true /\
    koPoint (newState r) = Some (Coord 1 0) /\
    playMove Library.goBoard caught (newState r) 1 0 WHITE
      = Ret (reject (newState r) "Ko rule violation") /\
    playMove noExternal caught Library.edgeStone 1 1 BLACK = Ret r' /\
    valid r' = true /\
    grid (newState r') = grid (newState r) /\
    koPoint (newState r') = None /\
    playMove noExternal caught (newState r') 1 0 WHITE = Ret r'' /\
    valid r'' = true /\
    removedStones (grid (newState r')) (grid (newState r''))
      = [Coord 0 0; Coord 0 1; Coord 1 1].
Proof.
  do 4 eexists.
  split; [vm_compute; reflexivity|]. split; [reflexivity|].
  split; [vm_compute; reflexivity|].
  split; [vm_compute; reflexivity|]. split; [reflexivity|]. split; [reflexivity|].
  split; [reflexivity|].
  split; [vm_compute; reflexivity|].
  split; [vm_compute; reflexivity|]. split; [reflexivity|].
  split; [vm_compute; reflexivity|]. split; [reflexivity|].
  split; [vm_compute; reflexivity|]. split; [reflexivity|].
  vm_compute. reflexivity.
Qed.

(** ** Every run stays inside the embedding *)

Lemma bind_modelled {A B : Type} (m : Js A) (k : A -> Js B) :
  m <> Unmodelled -> (forall a, m = Ret a -> k a <> Unmodelled) -> m ≫= k <> Unmodelled.
Proof. destruct m; simpl; [eauto | done..]. Qed.

Lemma cell_at_modelled (g : Grid) (x y : Z) : cell_at g x y <> Unmodelled.
Proof. unfold cell_at. by destruct (index g y). Qed.

Lemma scanNeighbors_modelled (g : Grid) (color : StoneColor) (visited : gset Coordinate)
    (ns stack : list Coordinate) (lib : bool) :
  scanNeighbors g color visited ns stack lib <> Unmodelled.
Proof.
  revert stack lib. induction ns as [|n ns IH]; intros stack lib; simpl; [done|].
  apply bind_modelled; [apply cell_at_modelled|]. intros v _.
  destruct (bool_decide (v = Some EMPTY)); [apply IH|].
  destruct (bool_decide (v = Some color) && negb (bool_decide (n ∈ visited))); apply IH.
Qed.

Lemma length_getNeighbors (x y size : Z) : (length (getNeighbors x y size) <= 4)%nat.
Proof.
  unfold getNeighbors.
  by destruct (0 <? x), (x <? size - 1), (0 <? y), (y <? size - 1); simpl; lia.
Qed.

Lemma unvisited_visit (U : list Coordinate) (V : gset Coordinate) (c : Coordinate) :
  c ∈ U -> c ∉ V ->
  (length (filter (fun c' => c' ∉ {[c]} ∪ V) U) < length (filter (fun c' => c' ∉ V) U))%nat.
Proof.
  intros Hc Hv.
  assert (Hle : forall l : list Coordinate,
            (length (filter (fun c' => c' ∉ {[c]} ∪ V) l)
             <= length (filter (fun c' => c' ∉ V) l))%nat).
  { induction l as [|a l IH]; [done|]. rewrite !filter_cons.
    destruct (decide (a ∉ {[c]} ∪ V)) as [Ha|Ha].
    - rewrite decide_True by set_solver. simpl. lia.
    - destruct (decide (a ∉ V)); simpl; lia. }
  induction U as [|a U IH]; [by apply elem_of_nil in Hc|].
  rewrite !filter_cons. apply elem_of_cons in Hc as [<-|Hc].
  - rewrite decide_False by set_solver. rewrite decide_True by done.
    simpl. specialize (Hle U). lia.
  - specialize (IH Hc). destruct (decide (a ∉ {[c]} ∪ V)) as [Ha|Ha].
    + rewrite decide_True by set_solver. simpl. lia.
    + destruct (decide (a ∉ V)); simpl; lia.
Qed.

Lemma checkLiberties_loop_modelled (g : Grid) (color : StoneColor) (U : list Coordinate)
    (fuel : nat) (stack : list Coordinate) (visited : gset Coordinate)
    (grp : list Coordinate) (lib : bool) :
  (forall c, colored g color c -> c ∈ U) ->
  (forall c, c ∈ stack -> c ∈ U) ->
  (5 * length (filter (fun c => c ∉ visited) U) + length stack <= fuel)%nat ->
  checkLiberties_loop fuel g color stack visited grp lib <> Unmodelled.
Proof.
  intros HU. revert stack visited grp lib.
  induction fuel as [|fuel IH]; intros stack visited grp lib Hstack Hfuel;
    destruct stack as [|current stack]; simpl in *; try done; [lia|].
  destruct (bool_decide (current ∈ visited)) eqn:Hcur.
  - apply IH; [|lia]. intros c Hc. apply Hstack. by right.
  - apply bool_decide_eq_false in Hcur.
    apply bind_modelled; [apply scanNeighbors_modelled|].
    intros [stack' lib'] Hscan.
    apply scanNeighbors_Ret in Hscan as [Hin Hlen].
    pose proof (length_getNeighbors (Coordinate.x current) (Coordinate.y current) BOARD_SIZE).
    pose proof (unvisited_visit U visited current (Hstack _ ltac:(left)) Hcur).
    apply IH; [|lia].
    intros c Hc. destruct (Hin c Hc) as [?|(_ & ? & _)]; [|by apply HU].
    apply Hstack. by right.
Qed.

(** The fuel of the resolver's loop is never spent: on every grid, from
    every seed, the model follows the run to its return or its throw. *)
Lemma checkLiberties_modelled (g : Grid) (x y : Z) (color : StoneColor) :
  checkLiberties g x y color <> Unmodelled.
Proof.
  unfold checkLiberties, checkLiberties_fuel.
  apply (checkLiberties_loop_modelled g color (Coord x y :: gridCells g)).
  - intros c Hc. right. apply elem_of_gridCells. unfold colored in Hc. by rewrite Hc.
  - intros c ->%list_elem_of_singleton. left.
  - match goal with
    | |- context [length (@filter _ _ _ ?P ?H ?l)] =>
        pose proof (@length_filter _ P H l) as Hle
    end.
    cbn [length] in Hle |- *. lia.
Qed.

Lemma captureNeighbors_modelled (g : Grid) (opponent : StoneColor)
    (ns acc : list Coordinate) :
  captureNeighbors g opponent ns acc <> Unmodelled.
Proof.
  revert acc. induction ns as [|n ns IH]; intros acc; simpl; [done|].
  apply bind_modelled; [apply cell_at_modelled|]. intros v _.
  destruct (bool_decide (v = Some opponent)); [|apply IH].
  apply bind_modelled; [apply checkLiberties_modelled|]. intros res _.
  destruct (negb (hasLiberties res)); apply IH.
Qed.

Lemma removeStones_defined (stones : list Coordinate) (g : Grid) :
  (forall c, c ∈ stones -> is_Some (stoneAt g (Coordinate.x c) (Coordinate.y c))) ->
  exists g', removeStones g stones = Ret g'.
Proof.
  revert g. induction stones as [|s stones IH]; intros g Hdef; simpl; [eauto|].
  destruct (Hdef s ltac:(left)) as [w Hw].
  destruct (set_cell_defined g _ _ EMPTY w Hw) as [g1 Hg1]. rewrite Hg1. simpl.
  apply IH. intros c Hc. rewrite (set_cell_Ret _ _ _ _ _ Hg1).
  case_decide; [done|]. apply Hdef. by right.
Qed.

(** The move engine, with or without an external rules library, never
    leaves the embedding: no store of [playMove] lands outside the grid. *)
Lemma playMove_modelled
    (external : Grid -> Captures -> Z -> Z -> Z -> option MakeMove) (caught : string)
    (st : BoardState) (x y : Z) (color : StoneColor) :
  playMove external caught st x y color <> Unmodelled.
Proof.
  assert (Hlocal : stoneAt (grid st) x y = Some EMPTY ->
                   playMove_local st x y color <> Unmodelled).
  { intros Hempty. unfold playMove_local.
    destruct (set_cell_defined (grid st) x y color _ Hempty) as [placed Hplaced].
    rewrite Hplaced. simpl.
    apply bind_modelled; [apply captureNeighbors_modelled|]. intros captured Hcap.
    destruct (captureNeighbors_Ret _ _ _ _ _ Hcap) as (extra & Hextra & Hcol).
    simpl in Hextra. subst extra.
    destruct (removeStones_defined captured placed) as [newGrid HnewGrid].
    { intros c Hc. specialize (Hcol c Hc). unfold colored in Hcol. by rewrite Hcol. }
    rewrite HnewGrid. simpl.
    apply bind_modelled.
    { destruct (decide (length captured = 0%nat)); [|done].
      apply bind_modelled; [apply checkLiberties_modelled | done]. }
    intros [|] _; [done|].
    apply bind_modelled; [|done].
    destruct captured as [|s [|s' captured]]; try done.
    apply bind_modelled; [apply checkLiberties_modelled|]. intros own _.
    by destruct (bool_decide (length (group own) = 1%nat) && hasLiberties own). }
  unfold playMove.
  apply bind_modelled; [apply cell_at_modelled|]. intros target Htarget.
  apply cell_at_Ret in Htarget.
  case_bool_decide as Hocc; [done|].
  destruct (isKoPoint st x y); [done|].
  rewrite Hocc in Htarget.
  destruct (external _ _ _ _ _) as [[msg|[next|]]|]; [done | | by apply Hlocal..].
  destruct (signMap next); [done | by apply Hlocal].
Qed.

(** ** The resolver and the groups of the rules *)

Lemma stoneAt_is_Some (g : Grid) (x y : Z) :
  is_Some (stoneAt g x y) <->
  exists row, g !! Z.to_nat y = Some row /\ 0 <= y /\ 0 <= x < Z.of_nat (length row).
Proof.
  unfold stoneAt. split.
  - intros [s Hs]. destruct (index g y) as [row|] eqn:Hrow; [|done]. simpl in Hs.
    apply index_Some in Hrow as [? Hrow]. apply index_Some in Hs as [? Hs].
    exists row. apply lookup_lt_Some in Hs. repeat split; try done; lia.
  - intros (row & Hrow & Hy & Hx).
    assert (Hi : index g y = Some row) by (by apply index_Some).
    rewrite Hi. simpl.
    destruct (lookup_lt_is_Some_2 row (Z.to_nat x)) as [s Hs]; [lia|].
    exists s. apply index_Some. split; [lia | done].
Qed.

Lemma fitsBoard_range (g : Grid) (x y : Z) :
  fitsBoard g -> is_Some (stoneAt g x y) -> 0 <= x < 19 /\ 0 <= y < 19.
Proof.
  intros [Hrows Hcols] (row & Hrow & Hy & Hx)%stoneAt_is_Some.
  pose proof (lookup_lt_Some _ _ _ Hrow).
  specialize (Hcols row (list_elem_of_lookup_2 _ _ _ Hrow)). lia.
Qed.

Lemma standardBoard_fits (g : Grid) : standardBoard g -> fitsBoard g.
Proof.
  intros [Hrows Hcols]. split; [lia|]. intros row Hrow. rewrite (Hcols row Hrow). lia.
Qed.

Lemma standardBoard_defined (g : Grid) (x y : Z) :
  standardBoard g -> 0 <= x < 19 -> 0 <= y < 19 -> is_Some (stoneAt g x y).
Proof.
  intros [Hrows Hcols] Hx Hy. apply stoneAt_is_Some.
  destruct (lookup_lt_is_Some_2 g (Z.to_nat y)) as [row Hrow]; [lia|].
  exists row. rewrite (Hcols row (list_elem_of_lookup_2 _ _ _ Hrow)).
  repeat split; try done; lia.
Qed.

Lemma getNeighbors_adjacent (x y size : Z) (n : Coordinate) :
  n ∈ getNeighbors x y size -> adjacent (Coord x y) n.
Proof.
  unfold getNeighbors, adjacent.
  destruct (0 <? x), (x <? size - 1), (0 <? y), (y <? size - 1); simpl; intros Hn;
    repeat (apply elem_of_cons in Hn as [->|Hn]; [simpl; lia|]);
    by apply elem_of_nil in Hn.
Qed.

Lemma adjacent_getNeighbors (x y : Z) (n : Coordinate) :
  adjacent (Coord x y) n ->
  0 <= x < 19 -> 0 <= y < 19 ->
  0 <= Coordinate.x n < 19 -> 0 <= Coordinate.y n < 19 ->
  n ∈ getNeighbors x y BOARD_SIZE.
Proof.
  unfold adjacent, getNeighbors, BOARD_SIZE. destruct n as [nx ny]. simpl.
  intros Hadj Hx Hy Hnx Hny.
  assert (Hcases : (nx = x - 1 /\ ny = y) \/ (nx = x + 1 /\ ny = y) \/
                   (nx = x /\ ny = y - 1) \/ (nx = x /\ ny = y + 1)) by lia.
  clear Hadj. rewrite !elem_of_app.
  destruct Hcases as [[-> ->]|[[-> ->]|[[-> ->]|[-> ->]]]].
  - left. destruct (Z.ltb_spec 0 x); [left | lia].
  - right; left. destruct (Z.ltb_spec x (19 - 1)); [left | lia].
  - do 2 right; left. destruct (Z.ltb_spec 0 y); [left | lia].
  - do 3 right. destruct (Z.ltb_spec y (19 - 1)); [left | lia].
Qed.

Lemma getNeighbors_range (x y : Z) (n : Coordinate) :
  n ∈ getNeighbors x y BOARD_SIZE ->
  0 <= x < 19 -> 0 <= y < 19 ->
  0 <= Coordinate.x n < 19 /\ 0 <= Coordinate.y n < 19.
Proof.
  unfold getNeighbors, BOARD_SIZE. intros Hn Hx Hy.
  destruct (Z.ltb_spec 0 x), (Z.ltb_spec x (19 - 1)),
           (Z.ltb_spec 0 y), (Z.ltb_spec y (19 - 1)); simpl in Hn;
    repeat (apply elem_of_cons in Hn as [->|Hn]; [simpl; lia|]);
    by apply elem_of_nil in Hn.
Qed.

Lemma adjacent_sym (a b : Coordinate) : adjacent a b -> adjacent b a.
Proof. unfold adjacent. lia. Qed.

Lemma sameGroup_colored (g : Grid) (color : StoneColor) (a b : Coordinate) :
  colored g color a -> sameGroup g color a b -> colored g color b.
Proof. intros Ha Hab. induction Hab as [|a b c (_ & _ & ?) _ IH]; auto. Qed.

Lemma sameGroup_sym (g : Grid) (color : StoneColor) (a b : Coordinate) :
  sameGroup g color a b -> sameGroup g color b a.
Proof.
  intros Hab. induction Hab as [|a b c (Hadj & Ha & Hb) _ IH]; [done|].
  eapply rtc_r; [exact IH|]. split; [by apply adjacent_sym | done].
Qed.

Lemma scanNeighbors_full (g : Grid) (color : StoneColor) (visited : gset Coordinate)
    (ns stack : list Coordinate) (lib : bool) (stack' : list Coordinate) (lib' : bool) :
  color <> EMPTY ->
  scanNeighbors g color visited ns stack lib = Ret (stack', lib') ->
  (forall c, c ∈ stack' <-> c ∈ stack \/ (c ∈ ns /\ colored g color c /\ c ∉ visited)) /\
  (lib' = true <->
   lib = true \/
   exists n, n ∈ ns /\ stoneAt g (Coordinate.x n) (Coordinate.y n) = Some EMPTY).
Proof.
  intros Hcolor. revert stack lib.
  induction ns as [|n ns IH]; intros stack lib Hscan; simpl in Hscan.
  - injection Hscan as <- <-. split.
    + intros c. split; [by left | intros [?|[Hc _]]; [done | by apply elem_of_nil in Hc]].
    + split; [by left | intros [?|(n & Hn & _)]; [done | by apply elem_of_nil in Hn]].
  - js_inv Hscan. apply cell_at_Ret in Hv. rename v into stone.
    assert (Hcase :
      exists stack1 lib1,
        scanNeighbors g color visited ns stack1 lib1 = Ret (stack', lib') /\
        (forall c, c ∈ stack1 <->
                   c ∈ stack \/ (c = n /\ colored g color c /\ c ∉ visited)) /\
        (lib1 = true <-> lib = true \/ stone = Some EMPTY)).
    { case_bool_decide as Hempty.
      - exists stack, true. split; [done|]. split; [|split; auto].
        intros c. split; [by left | intros [?|(-> & Hc & _)]; [done|]].
        unfold colored in Hc. congruence.
      - destruct (bool_decide (stone = Some color)) eqn:Hcol; simpl in Hscan;
          [destruct (bool_decide (n ∈ visited)) eqn:Hvis; simpl in Hscan|].
        + apply bool_decide_eq_true in Hvis.
          exists stack, lib. split; [done|]. split; [|split; [by left | by intros [?|?]]].
          intros c. split; [by left | by intros [?|(-> & _ & ?)]].
        + apply bool_decide_eq_true in Hcol. apply bool_decide_eq_false in Hvis.
          exists (n :: stack), lib. split; [done|]. split; [|split; [by left | by intros [?|?]]].
          intros c. rewrite elem_of_cons. split.
          * intros [->|?]; [right | by left]. unfold colored. by rewrite Hv.
          * intros [?|(-> & _)]; [by right | by left].
        + apply bool_decide_eq_false in Hcol.
          exists stack, lib. split; [done|]. split; [|split; [by left | by intros [?|?]]].
          intros c. split; [by left | intros [?|(-> & Hc & _)]; [done|]].
          unfold colored in Hc. congruence. }
    destruct Hcase as (stack1 & lib1 & Hrest & Hstack1 & Hlib1).
    destruct (IH _ _ Hrest) as [Hin Hlib]. split.
    + intros c. rewrite Hin, Hstack1, elem_of_cons. split.
      * intros [[?|(-> & ? & ?)]|(? & ? & ?)]; [by left | right | right];
          (split; [by auto | done]).
      * intros [?|([->|?] & ? & ?)]; [by do 2 left | left; by right | by right].
    + rewrite Hlib, Hlib1. split.
      * intros [[?|?]|(n' & ? & ?)]; [by left | right | right].
        -- exists n. split; [left | congruence].
        -- exists n'. split; [by right | done].
      * intros [?|(n' & [->|?]%elem_of_cons & Hn')]; [by do 2 left | left; right | right].
        -- congruence.
        -- by exists n'.
Qed.

Section Resolver.

Variable g : Grid.
Variable color : StoneColor.
Variable seed : Coordinate.
Hypothesis color_stone : color <> EMPTY.
Hypothesis g_fits : fitsBoard g.
Hypothesis seed_colored : colored g color seed.

Lemma colored_range (c : Coordinate) :
  colored g color c -> 0 <= Coordinate.x c < 19 /\ 0 <= Coordinate.y c < 19.
Proof. intros Hc. apply (fitsBoard_range g); [done|]. unfold colored in Hc. by rewrite Hc. Qed.

Lemma link_getNeighbors (c n : Coordinate) :
  link g color c n -> n ∈ getNeighbors (Coordinate.x c) (Coordinate.y c) BOARD_SIZE.
Proof.
  intros (Hadj & Hc & Hn).
  destruct (colored_range c Hc), (colored_range n Hn).
  by apply adjacent_getNeighbors.
Qed.

Lemma libertyOf_getNeighbors (c n : Coordinate) :
  colored g color c -> libertyOf g c n ->
  n ∈ getNeighbors (Coordinate.x c) (Coordinate.y c) BOARD_SIZE.
Proof.
  intros Hc [Hadj Hn].
  destruct (colored_range c Hc).
  destruct (fitsBoard_range g (Coordinate.x n) (Coordinate.y n) g_fits); [by rewrite Hn|].
  by apply adjacent_getNeighbors.
Qed.

Lemma Resolving_skip (current : Coordinate) (stack : list Coordinate)
    (visited : gset Coordinate) (grp : list Coordinate) (lib : bool) :
  current ∈ visited ->
  Resolving g color seed (current :: stack) visited grp lib ->
  Resolving g color seed stack visited grp lib.
Proof.
  intros Hcur [Hst Hvi Hcl Hse Hgr Hli]. split; try done.
  - intros c Hc. apply Hst. by right.
  - intros v n Hv Hl. destruct (Hcl v n Hv Hl) as [?|[->|?]%elem_of_cons]; auto.
  - destruct Hse as [?|[->|?]%elem_of_cons]; auto.
Qed.

Lemma Resolving_visit (current : Coordinate) (stack stack' : list Coordinate)
    (visited : gset Coordinate) (grp : list Coordinate) (lib lib' : bool) :
  current ∉ visited ->
  scanNeighbors g color ({[current]} ∪ visited)
    (getNeighbors (Coordinate.x current) (Coordinate.y current) BOARD_SIZE) stack lib
    = Ret (stack', lib') ->
  Resolving g color seed (current :: stack) visited grp lib ->
  Resolving g color seed stack' ({[current]} ∪ visited) (grp ++ [current]) lib'.
Proof.
  intros Hcur Hscan [Hst Hvi Hcl Hse Hgr Hli].
  apply (scanNeighbors_full _ _ _ _ _ _ _ _ color_stone) in Hscan as [Hin Hlib].
  assert (Hcurrent : sameGroup g color seed current) by (apply Hst; left).
  assert (Hcolored : colored g color current) by by eapply sameGroup_colored.
  assert (Heta : Coord (Coordinate.x current) (Coordinate.y current) = current)
    by by destruct current.
  split.
  - intros c [?|(Hn & Hc & _)]%Hin; [apply Hst; by right|].
    eapply rtc_r; [exact Hcurrent|]. split; [|done].
    rewrite <- Heta. by eapply getNeighbors_adjacent.
  - intros c [->%elem_of_singleton|?]%elem_of_union; auto.
  - intros v n [->%elem_of_singleton|Hv]%elem_of_union Hl.
    + destruct (decide (n ∈ {[current]} ∪ visited)); [by left | right].
      apply Hin. right. split; [by apply link_getNeighbors|]. split; [apply Hl | done].
    + destruct (Hcl v n Hv Hl) as [?|[->|?]%elem_of_cons].
      * left. apply elem_of_union. by right.
      * left. apply elem_of_union. left. by apply elem_of_singleton.
      * right. apply Hin. by left.
  - destruct Hse as [?|[->|?]%elem_of_cons].
    + left. apply elem_of_union. by right.
    + left. apply elem_of_union. left. by apply elem_of_singleton.
    + right. apply Hin. by left.
  - intros c. rewrite elem_of_union, elem_of_singleton, elem_of_app,
      list_elem_of_singleton, Hgr. tauto.
  - rewrite Hlib, Hli. split.
    + intros [(v & n & Hv & Hn)|(n & Hn & Hempty)].
      * exists v, n. split; [apply elem_of_union; by right | done].
      * exists current, n.
        split; [apply elem_of_union; left; by apply elem_of_singleton|].
        split; [|done].
        rewrite <- Heta. by eapply getNeighbors_adjacent.
    + intros (v & n & [->%elem_of_singleton|Hv]%elem_of_union & Hn).
      * right. exists n. split; [by apply libertyOf_getNeighbors | apply Hn].
      * left. by exists v, n.
Qed.

Lemma checkLiberties_loop_full (fuel : nat) (stack : list Coordinate)
    (visited : gset Coordinate) (grp : list Coordinate) (lib : bool) (res : CheckResult) :
  checkLiberties_loop fuel g color stack visited grp lib = Ret res ->
  Resolving g color seed stack visited grp lib ->
  (forall c, c ∈ group res <-> sameGroup g color seed c) /\
  (hasLiberties res = true <-> exists v n, v ∈ group res /\ libertyOf g v n).
Proof.
  revert stack visited grp lib.
  assert (Hdone : forall visited grp lib,
            Resolving g color seed [] visited grp lib ->
            (forall c, c ∈ grp <-> sameGroup g color seed c) /\
            (lib = true <-> exists v n, v ∈ grp /\ libertyOf g v n)).
  { intros visited grp lib [Hst Hvi Hcl Hse Hgr Hli]. split.
    - intros c. rewrite <- Hgr. split; [apply Hvi|].
      revert c. apply (rtc_ind_r (fun c => c ∈ visited)).
      + destruct Hse as [?|Hnil]; [done | by apply elem_of_nil in Hnil].
      + intros a b _ Hl IH.
        destruct (Hcl _ _ IH Hl) as [?|Hnil]; [done | by apply elem_of_nil in Hnil].
    - rewrite Hli. by setoid_rewrite Hgr. }
  induction fuel as [|fuel IH]; intros stack visited grp lib Hloop Hinv;
    destruct stack as [|current stack]; simpl in Hloop; try done.
  - injection Hloop as <-. by apply (Hdone visited).
  - injection Hloop as <-. by apply (Hdone visited).
  - destruct (bool_decide (current ∈ visited)) eqn:Hcur.
    + apply bool_decide_eq_true in Hcur.
      apply (IH _ _ _ _ Hloop). by apply (Resolving_skip current).
    + apply bool_decide_eq_false in Hcur.
      js_inv Hloop. destruct v as [stack' lib'].
      apply (IH _ _ _ _ Hloop). by eapply Resolving_visit.
Qed.

End Resolver.

Lemma scanNeighbors_standard (g : Grid) (color : StoneColor) (visited : gset Coordinate)
    (ns stack : list Coordinate) (lib : bool) :
  standardBoard g -> (forall n, n ∈ ns -> onBoard19 n) ->
  exists r, scanNeighbors g color visited ns stack lib = Ret r.
Proof.
  intros Hstd. revert stack lib.
  induction ns as [|n ns IH]; intros stack lib Hns; simpl; [eauto|].
  destruct (Hns n ltac:(left)) as [Hx Hy].
  destruct (standardBoard_defined g _ _ Hstd Hx Hy) as [s Hs].
  rewrite (stoneAt_cell_at _ _ _ _ Hs). simpl.
  assert (Hrest : forall n', n' ∈ ns -> onBoard19 n') by (intros n' ?; apply Hns; by right).
  destruct (bool_decide (Some s = Some EMPTY)); [by apply IH|].
  destruct (bool_decide (Some s = Some color) && negb (bool_decide (n ∈ visited)));
    by apply IH.
Qed.

Lemma checkLiberties_loop_standard (g : Grid) (color : StoneColor) (fuel : nat)
    (stack : list Coordinate) (visited : gset Coordinate) (grp : list Coordinate)
    (lib : bool) :
  standardBoard g -> (forall c, c ∈ stack -> onBoard19 c) ->
  checkLiberties_loop fuel g color stack visited grp lib <> TypeError.
Proof.
  intros Hstd. revert stack visited grp lib.
  induction fuel as [|fuel IH]; intros stack visited grp lib Hstack;
    destruct stack as [|current stack]; simpl; try done.
  assert (Hrest : forall c, c ∈ stack -> onBoard19 c) by (intros c ?; apply Hstack; by right).
  destruct (bool_decide (current ∈ visited)); [by apply IH|].
  destruct (Hstack current ltac:(left)) as [Hx Hy].
  destruct (scanNeighbors_standard g color ({[current]} ∪ visited)
              (getNeighbors (Coordinate.x current) (Coordinate.y current) BOARD_SIZE)
              stack lib Hstd) as [[stack' lib'] Hscan].
  { intros n Hn. by apply (getNeighbors_range _ _ _ Hn). }
  rewrite Hscan. simpl. apply IH.
  intros c Hc. apply scanNeighbors_Ret in Hscan as [Hin _].
  destruct (Hin c Hc) as [?|(Hn & _)]; [by apply Hrest|].
  by apply (getNeighbors_range _ _ _ Hn).
Qed.

(** On a 19 by 19 board the resolver returns for every seed on the board. *)
Lemma checkLiberties_returns (g : Grid) (x y : Z) (color : StoneColor) :
  standardBoard g -> 0 <= x < 19 -> 0 <= y < 19 ->
  exists res, checkLiberties g x y color = Ret res.
Proof.
  intros Hstd Hx Hy.
  destruct (checkLiberties g x y color) as [res| |] eqn:Hres; [eauto | exfalso..].
  - revert Hres. apply checkLiberties_loop_standard; [done|].
    by intros c ->%list_elem_of_singleton.
  - by apply checkLiberties_modelled in Hres.
Qed.

(** On a board of at most 19 by 19 points, whatever the resolver returns
    is the group of the seed: its members are the stones reached from the
    seed through neighbouring stones of the colour, each once, and the flag
    tells whether one of them has a liberty. *)
Lemma checkLiberties_group_of_seed (g : Grid) (x y : Z) (color : StoneColor)
    (res : CheckResult) :
  fitsBoard g -> color <> EMPTY -> colored g color (Coord x y) ->
  checkLiberties g x y color = Ret res ->
  NoDup (group res) /\
  (forall c, c ∈ group res <-> sameGroup g color (Coord x y) c) /\
  (forall c, c ∈ group res -> colored g color c) /\
  (hasLiberties res = true <-> exists v n, v ∈ group res /\ libertyOf g v n).
Proof.
  intros Hfits Hcolor Hseed Hres.
  destruct (checkLiberties_Ret _ _ _ _ _ Hres Hseed) as (Hnd & Hcol & _).
  destruct (checkLiberties_loop_full g color (Coord x y) Hcolor Hfits Hseed
              _ _ _ _ _ _ Hres) as [Hgroup Hlib]; [|done].
  split.
  - by intros c ->%list_elem_of_singleton.
  - by intros c ?%elem_of_empty.
  - by intros v n ?%elem_of_empty.
  - right. left.
  - intros c. split; [by intros ?%elem_of_empty | by intros ?%elem_of_nil].
  - split; [done | by intros (v & _ & ?%elem_of_empty & _)].
Qed.

(** The groups of a board do not overlap: two stones that share a group
    have the same group. *)
Lemma sameGroup_partition (g : Grid) (color color' : StoneColor) (a b c : Coordinate) :
  colored g color a -> colored g color' b ->
  sameGroup g color a c -> sameGroup g color' b c ->
  color = color' /\ forall d, sameGroup g color a d <-> sameGroup g color' b d.
Proof.
  intros Ha Hb Hac Hbc.
  pose proof (sameGroup_colored _ _ _ _ Ha Hac) as Hc.
  pose proof (sameGroup_colored _ _ _ _ Hb Hbc) as Hc'.
  unfold colored in Hc, Hc'. assert (color = color') as <- by congruence.
  split; [done|]. intros d. split; intros Hd.
  - eapply rtc_trans; [exact Hbc|].
    eapply rtc_trans; [apply sameGroup_sym; exact Hac | exact Hd].
  - eapply rtc_trans; [exact Hac|].
    eapply rtc_trans; [apply sameGroup_sym; exact Hbc | exact Hd].
Qed.

(** ** The move engine on the 19 by 19 board *)

Lemma set_cell_standard (g g' : Grid) (x y : Z) (v : StoneColor) :
  set_cell g x y v = Ret g' -> standardBoard g -> standardBoard g'.
Proof.
  unfold set_cell. destruct (index g y) as [row|] eqn:Hrow; [|done].
  destruct (index row x); [|done]. intros [= <-] [Hrows Hcols].
  apply index_Some in Hrow as [_ Hrow]. unfold Grid in *.
  split; [by rewrite length_insert|].
  apply Forall_forall, Forall_insert; [by apply Forall_forall|].
  cbv beta. rewrite length_insert. apply Hcols. by eapply list_elem_of_lookup_2.
Qed.

Lemma removeStones_nil_inv (g g' : Grid) : removeStones g [] = Ret g' -> g' = g.
Proof. by intros [= ->]. Qed.

Lemma dead_iff (g : Grid) (color : StoneColor) (n : Coordinate) (res : CheckResult) :
  fitsBoard g -> color <> EMPTY -> colored g color n ->
  checkLiberties g (Coordinate.x n) (Coordinate.y n) color = Ret res ->
  hasLiberties res = false <-> dead g color n.
Proof.
  intros Hfits Hcolor Hn Hres.
  assert (Heta : Coord (Coordinate.x n) (Coordinate.y n) = n) by by destruct n.
  destruct (checkLiberties_group_of_seed g (Coordinate.x n) (Coordinate.y n) color res
              Hfits Hcolor) as (_ & Hgrp & _ & Hlib);
    [by rewrite Heta | done |].
  rewrite Heta in Hgrp. split.
  - intros Hno. split; [done|]. intros v m Hv Hm.
    assert (hasLiberties res = true) by (apply Hlib; exists v, m; split; [by apply Hgrp | done]).
    congruence.
  - intros [_ Hdead]. destruct (hasLiberties res) eqn:Hhas; [exfalso | done].
    destruct (proj1 Hlib eq_refl) as (v & m & Hv & Hm).
    apply (Hdead v m); [by apply Hgrp | done].
Qed.

Lemma captureNeighbors_standard (g : Grid) (opponent : StoneColor)
    (ns acc : list Coordinate) :
  standardBoard g -> opponent <> EMPTY -> (forall n, n ∈ ns -> onBoard19 n) ->
  exists res,
    captureNeighbors g opponent ns acc = Ret res /\
    forall c, c ∈ res <->
              c ∈ acc \/ exists n, n ∈ ns /\ dead g opponent n /\ sameGroup g opponent n c.
Proof.
  intros Hstd Hopp. revert acc.
  induction ns as [|n ns IH]; intros acc Hns; simpl.
  - exists acc. split; [done|]. intros c.
    split; [by left | intros [?|(n & Hn & _)]; [done | by apply elem_of_nil in Hn]].
  - destruct (Hns n ltac:(left)) as [Hx Hy].
    assert (Hrest : forall n', n' ∈ ns -> onBoard19 n') by (intros n' ?; apply Hns; by right).
    destruct (standardBoard_defined g _ _ Hstd Hx Hy) as [s Hs].
    rewrite (stoneAt_cell_at _ _ _ _ Hs). simpl.
    assert (Heta : Coord (Coordinate.x n) (Coordinate.y n) = n) by by destruct n.
    case_bool_decide as Hstone.
    + assert (Hn : colored g opponent n) by (unfold colored; congruence).
      destruct (checkLiberties_returns g _ _ opponent Hstd Hx Hy) as [res Hres].
      rewrite Hres. simpl.
      pose proof (dead_iff g opponent n res (standardBoard_fits _ Hstd) Hopp Hn Hres) as Hdead.
      destruct (checkLiberties_group_of_seed g (Coordinate.x n) (Coordinate.y n) opponent res
                  (standardBoard_fits _ Hstd) Hopp) as (_ & Hgrp & _ & _);
        [by rewrite Heta | done |].
      rewrite Heta in Hgrp.
      destruct (hasLiberties res) eqn:Hhas; simpl.
      * destruct (IH acc Hrest) as (out & Hout & Hspec). exists out. split; [done|].
        intros c. rewrite Hspec. split.
        -- intros [?|(n' & ? & ? & ?)]; [by left | right]. exists n'. split; [by right | done].
        -- intros [?|(n' & [->|?]%elem_of_cons & Hd & ?)]; [by left | | right].
           ++ apply Hdead in Hd. congruence.
           ++ by exists n'.
      * destruct (IH (acc ++ group res) Hrest) as (out & Hout & Hspec).
        exists out. split; [done|].
        intros c. rewrite Hspec, elem_of_app, Hgrp. split.
        -- intros [[?|?]|(n' & ? & ? & ?)]; [by left | right | right].
           ++ exists n. split; [left|]. split; [by apply Hdead | done].
           ++ exists n'. split; [by right | done].
        -- intros [?|(n' & [->|?]%elem_of_cons & Hd & ?)];
             [by do 2 left | left; by right | right]. by exists n'.
    + destruct (IH acc Hrest) as (out & Hout & Hspec). exists out. split; [done|].
      intros c. rewrite Hspec. split.
      * intros [?|(n' & ? & ? & ?)]; [by left | right]. exists n'. split; [by right | done].
      * intros [?|(n' & [->|?]%elem_of_cons & Hd & ?)]; [by left | | right].
        -- destruct Hd as [Hd _]. unfold colored in Hd. congruence.
        -- by exists n'.
Qed.

Lemma getNeighbors_takes (placed : Grid) (opponent : StoneColor) (x y : Z) (c : Coordinate) :
  fitsBoard placed -> onBoard19 (Coord x y) ->
  takes placed opponent (Coord x y) c <->
  exists n, n ∈ getNeighbors x y BOARD_SIZE /\ dead placed opponent n /\
            sameGroup placed opponent n c.
Proof.
  intros Hfits [Hx Hy]. unfold takes. split; intros (n & Hn & Hd & Hc); exists n.
  - split; [|done]. destruct Hd as [Hcol _].
    destruct (fitsBoard_range placed (Coordinate.x n) (Coordinate.y n) Hfits);
      [unfold colored in Hcol; by rewrite Hcol|].
    by apply adjacent_getNeighbors.
  - split; [|done]. by eapply getNeighbors_adjacent.
Qed.

Lemma removeStones_standard (stones : list Coordinate) (g g' : Grid) :
  removeStones g stones = Ret g' -> standardBoard g -> standardBoard g'.
Proof.
  revert g. induction stones as [|s stones IH]; intros g Hrm Hstd; simpl in Hrm.
  - by injection Hrm as <-.
  - js_inv Hrm. eapply IH; [done|]. by eapply set_cell_standard.
Qed.

(** X28. On a 19 by 19 board, for a point of the board and a stone colour, the
    engine's own rules always answer, and they reject exactly the occupied
    point, the ko point and the suicide; a rejection gives the prior state
    back with a reason. A valid move removes exactly the stones of the
    opposing groups that touch the new stone and are left without liberty. *)
Theorem playMove_on_standard_board
    (external : Grid -> Captures -> Z -> Z -> Z -> option MakeMove) (caught : string)
    (st : BoardState) (x y : Z) (color : StoneColor) :
  standardBoard (grid st) -> onBoard19 (Coord x y) -> color <> EMPTY ->
  ownRules external st x y color ->
  exists r,
    playMove external caught st x y color = Ret r /\
    (valid r = false -> newState r = st /\ is_Some (message r)) /\
    (valid r = false <->
       stoneAt (grid st) x y <> Some EMPTY \/
       isKoPoint st x y = true \/
       exists placed,
         set_cell (grid st) x y color = Ret placed /\
         (forall c, ~ takes placed (opponentOf color) (Coord x y) c) /\
         dead placed color (Coord x y)) /\
    (valid r = true ->
       exists placed,
         set_cell (grid st) x y color = Ret placed /\
         forall c,
           (takes placed (opponentOf color) (Coord x y) c ->
            stoneAt (grid (newState r)) (Coordinate.x c) (Coordinate.y c) = Some EMPTY) /\
           (~ takes placed (opponentOf color) (Coord x y) c ->
            stoneAt (grid (newState r)) (Coordinate.x c) (Coordinate.y c)
              = stoneAt placed (Coordinate.x c) (Coordinate.y c))).
Proof.
  intros Hstd [Hx Hy] Hcolor Hown. simpl in Hx, Hy.
  destruct (standardBoard_defined _ _ _ Hstd Hx Hy) as [s Hs].
  unfold playMove. rewrite (stoneAt_cell_at _ _ _ _ Hs). simpl.
  case_bool_decide as Hocc.
  { eexists. split; [done|]. simpl. split; [by eauto|]. split; [|done].
    split; [left; congruence | done]. }
  injection Hocc as ->.
  destruct (isKoPoint st x y) eqn:Hko.
  { eexists. split; [done|]. simpl. split; [by eauto|]. split; [|done].
    split; [by right; left | done]. }
  rewrite (playMove_ownRules _ caught _ _ _ _ Hown). unfold playMove_local.
  destruct (set_cell_defined (grid st) x y color _ Hs) as [placed Hplaced].
  rewrite Hplaced. simpl.
  pose proof (set_cell_standard _ _ _ _ _ Hplaced Hstd) as Hstd'.
  pose proof (standardBoard_fits _ Hstd') as Hfits'.
  destruct (opponentOf_ne color) as [_ Hopp].
  destruct (captureNeighbors_standard placed (opponentOf color)
              (getNeighbors x y BOARD_SIZE) [] Hstd' Hopp) as (captured & Hcap & Hspec).
  { intros n Hn. by apply (getNeighbors_range _ _ _ Hn). }
  rewrite Hcap. simpl.
  assert (Htakes : forall c, c ∈ captured <-> takes placed (opponentOf color) (Coord x y) c).
  { intros c. rewrite Hspec, getNeighbors_takes by done. split; [|by right].
    by intros [?%elem_of_nil|?]. }
  destruct (captureNeighbors_Ret _ _ _ _ _ Hcap) as (extra & Hextra & Hcol).
  simpl in Hextra. subst extra.
  destruct (removeStones_defined captured placed) as [newGrid HnewGrid].
  { intros c Hc. specialize (Hcol c Hc). unfold colored in Hcol. by rewrite Hcol. }
  rewrite HnewGrid. simpl.
  pose proof (removeStones_standard _ _ _ HnewGrid Hstd') as Hstd''.
  assert (Hself : colored placed color (Coord x y)).
  { unfold colored. simpl. rewrite (set_cell_Ret _ _ _ _ _ Hplaced). by rewrite decide_True. }
  assert (Hremoved : forall c,
    (takes placed (opponentOf color) (Coord x y) c ->
     stoneAt newGrid (Coordinate.x c) (Coordinate.y c) = Some EMPTY) /\
    (~ takes placed (opponentOf color) (Coord x y) c ->
     stoneAt newGrid (Coordinate.x c) (Coordinate.y c)
       = stoneAt placed (Coordinate.x c) (Coordinate.y c))).
  { intros c. rewrite <- Htakes, (removeStones_Ret _ _ _ HnewGrid).
    assert (Coord (Coordinate.x c) (Coordinate.y c) = c) as -> by by destruct c.
    split; intros ?; [by rewrite decide_True | by rewrite decide_False]. }
  destruct (checkLiberties_returns newGrid x y color Hstd'' Hx Hy) as [own Hown'].
  destruct captured as [|s1 captured].
  - (* nothing is captured: the suicide test *)
    apply removeStones_nil_inv in HnewGrid. subst newGrid.
    simpl. rewrite Hown'. simpl.
    pose proof (dead_iff placed color (Coord x y) own Hfits' Hcolor Hself Hown') as Hdead.
    destruct (hasLiberties own) eqn:Hlib; simpl.
    + eexists. split; [done|]. simpl. split; [done|]. split; [|by eauto].
      split; [done|]. intros [?|[?|(placed' & Hp & _ & Hd)]]; [done..|].
      injection Hp as <-. apply Hdead in Hd. congruence.
    + eexists. split; [done|]. simpl. split; [by eauto|]. split; [|done].
      split; [|done]. intros _. do 2 right. exists placed. split; [done|].
      split; [|by apply Hdead]. intros c Hc. apply Htakes in Hc. by apply elem_of_nil in Hc.
  - (* stones are captured: the move stands *)
    assert (Hnot_suicide :
      ~ (stoneAt (grid st) x y <> Some EMPTY \/ false = true \/
         exists placed',
           Ret placed = Ret placed' /\
           (forall c, ~ takes placed' (opponentOf color) (Coord x y) c) /\
           dead placed' color (Coord x y))).
    { intros [?|[?|(placed' & Hp & Hno & _)]]; [done..|].
      injection Hp as <-. apply (Hno s1), Htakes. left. }
    simpl. destruct captured as [|s2 captured]; simpl.
    + rewrite Hown'. simpl.
      destruct (bool_decide (length (group own) = 1%nat) && hasLiberties own); simpl;
        (eexists; split; [done|]; simpl; split; [done|]; split; [|by eauto];
         split; [done | by intros ?%Hnot_suicide]).
    + eexists. split; [done|]. simpl. split; [done|]. split; [|by eauto].
      split; [done | by intros ?%Hnot_suicide].
Qed.

Lemma standardBoard_bentThree : standardBoard (grid Boards.bentThree).
Proof.
  split; [reflexivity|]. intros row Hrow. apply list_elem_of_In in Hrow.
  vm_compute in Hrow.
  repeat (destruct Hrow as [<-|Hrow]; [reflexivity|]). destruct Hrow.
Qed.

Lemma playMove_on_standard_board_witness :
  exists r, playMove noExternal "" Boards.bentThree 0 0 BLACK = Ret r /\ valid r = true.
Proof.
  destruct (playMove_on_standard_board noExternal "" Boards.bentThree 0 0 BLACK)
    as (r & Hr & _ & Hvalid & _).
  - apply standardBoard_bentThree.
  - split; simpl; lia.
  - discriminate.
  - exact I.
  - exists r. split; [exact Hr|].
    vm_compute in Hr. injection Hr as <-. reflexivity.
Defined.

(** ** The safety scan on the 19 by 19 board *)

Lemma libertiesOf_standard (g : Grid) (ns : list Coordinate) (libs : gset Coordinate) :
  standardBoard g -> (forall n, n ∈ ns -> onBoard19 n) ->
  exists L, libertiesOf g ns libs = Ret L /\
            forall n, n ∈ L <->
                      n ∈ libs \/
                      (n ∈ ns /\ stoneAt g (Coordinate.x n) (Coordinate.y n) = Some EMPTY).
Proof.
  intros Hstd. revert libs. induction ns as [|m ns IH]; intros libs Hns; simpl.
  - exists libs. split; [done|]. intros n.
    split; [by left | intros [?|[Hn _]]; [done | by apply elem_of_nil in Hn]].
  - destruct (Hns m ltac:(left)) as [Hx Hy].
    destruct (standardBoard_defined g _ _ Hstd Hx Hy) as [s Hs].
    rewrite (stoneAt_cell_at _ _ _ _ Hs). simpl.
    destruct (IH (if bool_decide (Some s = Some EMPTY) then {[m]} ∪ libs else libs))
      as (L & HL & Hspec); [intros n ?; apply Hns; by right|].
    exists L. split; [done|]. intros n. rewrite Hspec, elem_of_cons.
    case_bool_decide as Hempty.
    + rewrite elem_of_union, elem_of_singleton. split.
      * intros [[->|?]|[? ?]]; [right | by left | right]; (split; [by auto | congruence]).
      * intros [?|[[->|?] ?]]; [left; by right | left; by left | right; done].
    + split.
      * intros [?|[? ?]]; [by left | right]. split; [by right | done].
      * intros [?|[[->|?] ?]]; [by left | congruence | by right].
Qed.

Lemma groupLiberties_standard (g : Grid) (grp : list Coordinate) (libs : gset Coordinate) :
  standardBoard g -> (forall v, v ∈ grp -> onBoard19 v) ->
  exists L, groupLiberties g grp libs = Ret L /\
            forall n, n ∈ L <-> n ∈ libs \/ exists v, v ∈ grp /\ libertyOf g v n.
Proof.
  intros Hstd. revert libs. induction grp as [|v grp IH]; intros libs Hgrp; simpl.
  - exists libs. split; [done|]. intros n.
    split; [by left | intros [?|(v & Hv & _)]; [done | by apply elem_of_nil in Hv]].
  - destruct (Hgrp v ltac:(left)) as [Hx Hy].
    destruct (libertiesOf_standard g
                (getNeighbors (Coordinate.x v) (Coordinate.y v) BOARD_SIZE) libs Hstd)
      as (L1 & HL1 & Hspec1).
    { intros n Hn. by apply (getNeighbors_range _ _ _ Hn). }
    rewrite HL1. simpl.
    destruct (IH L1) as (L & HL & Hspec); [intros w ?; apply Hgrp; by right|].
    exists L. split; [done|]. intros n. rewrite Hspec, Hspec1.
    assert (Heta : Coord (Coordinate.x v) (Coordinate.y v) = v) by by destruct v.
    split.
    + intros [[?|[Hn Hempty]]|(w & ? & ?)]; [by left | right | right].
      * exists v. split; [left|]. split; [|done].
        rewrite <- Heta. by eapply getNeighbors_adjacent.
      * exists w. split; [by right | done].
    + intros [?|(w & [->|?]%elem_of_cons & Hlib)]; [by do 2 left | left; right | right].
      * destruct Hlib as [Hadj Hempty]. split; [|done].
        destruct (fitsBoard_range g (Coordinate.x n) (Coordinate.y n)
                    (standardBoard_fits _ Hstd)); [by rewrite Hempty|].
        by apply adjacent_getNeighbors.
      * by exists w.
Qed.

Lemma forJs_invariant {S : Type} (body : Z -> S -> Js S) (P : list Z -> S -> Prop)
    (range : list Z) (st : S) :
  P [] st ->
  (forall done i st, i ∈ range -> P done st ->
                     exists st', body i st = Ret st' /\ P (done ++ [i]) st') ->
  exists st', forJs body range st = Ret st' /\ P range st'.
Proof.
  intros Hinit Hstep.
  assert (Hgen : forall rest done st,
            (forall i, i ∈ rest -> i ∈ range) -> P done st ->
            exists st', forJs body rest st = Ret st' /\ P (done ++ rest) st').
  { induction rest as [|i rest IH]; intros done st0 Hsub Hdone; simpl.
    - exists st0. by rewrite app_nil_r.
    - destruct (Hstep done i st0 (Hsub i ltac:(left)) Hdone) as (st1 & Hbody & Hst1).
      rewrite Hbody. simpl.
      destruct (IH (done ++ [i]) st1) as (st2 & Hrest & Hst2); [|done|].
      + intros j ?. apply Hsub. by right.
      + exists st2. split; [done|]. by rewrite <- app_assoc in Hst2. }
  by apply (Hgen range [] st).
Qed.

Lemma sameGroup_other_color (g : Grid) (color color' : StoneColor) (c d : Coordinate) :
  colored g color c -> color' <> color -> sameGroup g color' c d -> d = c.
Proof.
  intros Hc Hne Hcd. apply rtc_inv in Hcd as [->|(e & (_ & Hc' & _) & _)]; [done|].
  unfold colored in Hc, Hc'. congruence.
Qed.

Lemma libertiesOfGroup_unique (g : Grid) (color : StoneColor) (a c : Coordinate)
    (L L' : gset Coordinate) :
  sameGroup g color a c ->
  libertiesOfGroup g color a L -> libertiesOfGroup g color c L' -> L' = L.
Proof.
  intros Hac HL HL'. apply set_eq. intros n. rewrite (HL n), (HL' n).
  split; intros (v & Hv & Hn); exists v; (split; [|done]).
  - by eapply rtc_trans.
  - eapply rtc_trans; [by apply sameGroup_sym|done].
Qed.

Lemma Scanned_skip (g : Grid) (D : Coordinate -> Prop) (visited : gset Coordinate)
    (found : list WeakGroup) (p : Coordinate) :
  (forall color, color <> EMPTY -> colored g color p -> p ∈ visited) ->
  Scanned g D visited found ->
  Scanned g (fun c => D c \/ c = p) visited found.
Proof.
  intros Hp [Hcl Hdn Hfd Hal Hon]. split; try done.
  intros c color [?| ->]; eauto.
Qed.

Lemma Scanned_group (g : Grid) (D : Coordinate -> Prop) (visited : gset Coordinate)
    (found found' : list WeakGroup) (p : Coordinate) (color : StoneColor)
    (grp : list Coordinate) (L : gset Coordinate) :
  color <> EMPTY -> colored g color p -> p ∉ visited ->
  (forall c, c ∈ grp <-> sameGroup g color p c) ->
  libertiesOfGroup g color p L ->
  (found' = found ++ [(color, p, L)] /\ (size L <= 2)%nat) \/
  (found' = found /\ ~ (size L <= 2)%nat) ->
  Scanned g D visited found ->
  Scanned g (fun c => D c \/ c = p) (list_to_set grp ∪ visited) found'.
Proof.
  intros Hcolor Hp Hfresh Hgrp HL Hfound' [Hcl Hdn Hfd Hal Hon].
  assert (Hin : forall c, c ∈ (list_to_set grp ∪ visited : gset Coordinate) <->
                          sameGroup g color p c \/ c ∈ visited).
  { intros c. by rewrite elem_of_union, elem_of_list_to_set, Hgrp. }
  assert (Hsub : forall w, w ∈ found -> w ∈ found').
  { intros w Hw. destruct Hfound' as [[-> _]|[-> _]]; [|done].
    apply elem_of_app. by left. }
  split.
  - intros c d color' [Hc|Hc]%Hin Hcd; apply Hin; [|right; by eapply Hcl].
    destruct (decide (color' = color)) as [->|Hne]; [left; by eapply rtc_trans|].
    rewrite (sameGroup_other_color g color color' c d); [by left | | done..].
    by eapply sameGroup_colored.
  - intros c color' [Hc| ->] Hne Hcol; apply Hin; [right; by eapply Hdn | by left].
  - intros color' a L' Hw.
    assert (Hold : (color', a, L') ∈ found -> color' <> EMPTY /\ colored g color' a /\
              a ∈ (list_to_set grp ∪ visited : gset Coordinate) /\
              libertiesOfGroup g color' a L' /\ (size L' <= 2)%nat).
    { intros Hw'. destruct (Hfd _ _ _ Hw') as (? & ? & ? & ? & ?).
      split; [done|]. split; [done|]. split; [apply Hin; by right | done]. }
    destruct Hfound' as [[-> Hweak]|[-> _]]; [|by apply Hold].
    apply elem_of_app in Hw as [?|[= -> -> ->]%list_elem_of_singleton]; [by apply Hold|].
    split; [done|]. split; [done|]. split; [apply Hin; by left | done].
  - intros c color' L' [Hc|Hc]%Hin Hcol HL' Hweak.
    + pose proof (sameGroup_colored _ _ _ _ Hp Hc) as Hcol'.
      unfold colored in Hcol, Hcol'. assert (color' = color) as -> by congruence.
      rewrite (libertiesOfGroup_unique g color p c L L' Hc HL HL') in *.
      destruct Hfound' as [[-> _]|[-> Hstrong]]; [|done].
      exists p. split; [|done]. apply elem_of_app. right. left.
    + destruct (Hal c color' L' Hc Hcol HL' Hweak) as (a & Ha & Hac).
      exists a. split; [by apply Hsub | done].
  - intros i j color1 a1 L1 color2 a2 L2 Hi Hj Hsame. unfold WeakGroup in *.
    destruct Hfound' as [[-> _]|[-> _]]; [|by eapply Hon].
    assert (Hanchor : forall k color' a L', found !! k = Some (color', a, L') ->
                                            a ∈ visited).
    { intros k color' a L' Hk.
      by destruct (Hfd color' a L' (list_elem_of_lookup_2 _ _ _ Hk)) as (_ & _ & ? & _). }
    destruct (decide (i < length found)%nat) as [Hi'|Hi'],
             (decide (j < length found)%nat) as [Hj'|Hj'].
    + rewrite lookup_app_l in Hi, Hj by done. by eapply Hon.
    + rewrite lookup_app_l in Hi by done. rewrite lookup_app_r in Hj by lia.
      apply list_lookup_singleton_Some in Hj as [_ [= <- <- <-]].
      exfalso. apply Hfresh. eapply Hcl; [by eapply Hanchor | done].
    + rewrite lookup_app_r in Hi by lia. rewrite lookup_app_l in Hj by done.
      apply list_lookup_singleton_Some in Hi as [_ [= <- <- <-]].
      exfalso. apply Hfresh. eapply Hcl; [by eapply Hanchor|].
      by apply sameGroup_sym.
    + rewrite lookup_app_r in Hi, Hj by lia.
      apply list_lookup_singleton_Some in Hi as [Hi _].
      apply list_lookup_singleton_Some in Hj as [Hj _]. lia.
Qed.

Lemma safetyVisit_standard (g : Grid) (D : Coordinate -> Prop) (x y : Z)
    (visited : gset Coordinate) (found : list WeakGroup) :
  standardBoard g -> onBoard19 (Coord x y) -> Scanned g D visited found ->
  exists visited' found',
    safetyVisit g x y (visited, renderWeakGroup <$> found)
      = Ret (visited', renderWeakGroup <$> found') /\
    Scanned g (fun c => D c \/ c = Coord x y) visited' found'.
Proof.
  intros Hstd [Hx Hy] Hscan. simpl in Hx, Hy.
  pose proof (standardBoard_fits _ Hstd) as Hfits.
  destruct (standardBoard_defined g _ _ Hstd Hx Hy) as [s Hs].
  unfold safetyVisit. rewrite Hs.
  assert (Hstone : s <> EMPTY ->
    exists visited' found',
      (if bool_decide (Coord x y ∈ visited)
       then Ret (visited, renderWeakGroup <$> found)
       else
         result ← checkLiberties g x y s;
         let visited0 := list_to_set (group result) ∪ visited in
         libs ← groupLiberties g (group result) ∅;
         if Z.of_nat (size libs) <=? 2
         then match head (group result) with
              | Some anchor =>
                  Ret (visited0, (renderWeakGroup <$> found)
                                   ++ [safetyFinding s anchor (Z.of_nat (size libs))])
              | None => TypeError
              end
         else Ret (visited0, renderWeakGroup <$> found))
      = Ret (visited', renderWeakGroup <$> found') /\
      Scanned g (fun c => D c \/ c = Coord x y) visited' found').
  { intros Hcolor. assert (Hp : colored g s (Coord x y)) by done.
    case_bool_decide as Hvis.
    { exists visited, found. split; [done|]. by apply Scanned_skip. }
    destruct (checkLiberties_returns g x y s Hstd Hx Hy) as [res Hres].
    rewrite Hres. simpl.
    destruct (checkLiberties_group_of_seed g x y s res Hfits Hcolor Hp Hres)
      as (_ & Hgrp & Hcol & _).
    destruct (checkLiberties_Ret g x y s res Hres Hs) as (_ & _ & tail & Htail).
    destruct (groupLiberties_standard g (group res) ∅ Hstd) as (L & HL & Hspec).
    { intros v Hv. apply (fitsBoard_range g); [done|].
      specialize (Hcol v Hv). unfold colored in Hcol. by rewrite Hcol. }
    rewrite HL. simpl.
    assert (HLgroup : libertiesOfGroup g s (Coord x y) L).
    { intros n. rewrite Hspec. split.
      - intros [?%elem_of_empty|(v & Hv & Hn)]; [done|]. exists v. split; [by apply Hgrp | done].
      - intros (v & Hv & Hn). right. exists v. split; [by apply Hgrp | done]. }
    destruct (Z.leb_spec (Z.of_nat (size L)) 2) as [Hweak|Hstrong].
    - rewrite Htail. simpl.
      exists (list_to_set (Coord x y :: tail) ∪ visited), (found ++ [(s, Coord x y, L)]).
      split; [by rewrite fmap_app|]. rewrite <- Htail.
      eapply (Scanned_group g D visited found); try done. left. split; [done | lia].
    - exists (list_to_set (group res) ∪ visited), found. split; [done|].
      eapply (Scanned_group g D visited found _ _ s (group res) L); try done.
      right. split; [done | lia]. }
  destruct s; [|by apply Hstone..].
  exists visited, found. split; [done|]. apply Scanned_skip; [|done].
  intros color Hcolor Hc. unfold colored in Hc. simpl in Hc. congruence.
Qed.

(** X29. On a 19 by 19 board the safety scan returns, and its report renders a
    list of groups such that: every listed group is a group of stones with
    at most two liberties, with its colour, one of its stones as anchor and
    its set of liberties; every stone whose group has at most two liberties
    is in a listed group; and no group is listed twice. *)
Theorem analyzeSafetyHeuristic_on_standard_board (g : Grid) :
  standardBoard g ->
  exists found : list WeakGroup,
    analyzeSafetyHeuristic g = Ret (renderWeakGroup <$> found) /\
    (forall color a L, (color, a, L) ∈ found ->
       color <> EMPTY /\ colored g color a /\
       libertiesOfGroup g color a L /\ (size L <= 2)%nat) /\
    (forall c color L, color <> EMPTY -> colored g color c ->
       libertiesOfGroup g color c L -> (size L <= 2)%nat ->
       exists a, (color, a, L) ∈ found /\ sameGroup g color a c) /\
    (forall i j color a L color' a' L',
       found !! i = Some (color, a, L) -> found !! j = Some (color', a', L') ->
       sameGroup g color a a' -> i = j).
Proof.
  intros Hstd. pose proof Hstd as [Hrows _].
  unfold analyzeSafetyHeuristic. rewrite Hrows.
  change (Z.of_nat 19) with 19.
  destruct (forJs_invariant
    (fun y => forJs (fun x => safetyVisit g x y) (seqZ 0 19))
    (fun ys st => exists found,
       st.2 = renderWeakGroup <$> found /\
       Scanned g (fun c => Coordinate.y c ∈ ys /\ 0 <= Coordinate.x c < 19) st.1 found)
    (seqZ 0 19) (∅, [])) as ([visited report] & Hrun & found & Hreport & Hscan).
  - exists []. split; [done|]. split.
    + by intros c d color ?%elem_of_empty.
    + by intros c color [?%elem_of_nil _].
    + by intros color a L ?%elem_of_nil.
    + by intros c color L ?%elem_of_empty.
    + by intros i j color a L color' a' L' ?.
  - intros ys y [visited report] Hy (found & Hreport & Hscan). simpl in Hreport. subst report.
    apply elem_of_seqZ in Hy.
    destruct (forJs_invariant (fun x => safetyVisit g x y)
      (fun xs st => exists found,
         st.2 = renderWeakGroup <$> found /\
         Scanned g (fun c => (Coordinate.y c ∈ ys /\ 0 <= Coordinate.x c < 19) \/
                             (Coordinate.y c = y /\ Coordinate.x c ∈ xs)) st.1 found)
      (seqZ 0 19) (visited, renderWeakGroup <$> found))
      as ([visited' report'] & Hrun & found' & Hreport' & Hscan').
    + exists found. split; [done|]. destruct Hscan as [Hcl Hdn Hfd Hal Hon].
      split; try done. intros c color [?|[_ ?%elem_of_nil]]; [eauto | done].
    + intros xs x [visited1 report1] Hx (found1 & Hreport1 & Hscan1).
      simpl in Hreport1, Hscan1. subst report1. apply elem_of_seqZ in Hx.
      assert (Hxy : onBoard19 (Coord x y)) by (split; simpl; lia).
      destruct (safetyVisit_standard g _ x y visited1 found1 Hstd Hxy Hscan1) as
        (visited2 & found2 & Hvisit & Hscan2).
      exists (visited2, renderWeakGroup <$> found2). split; [done|].
      exists found2. split; [done|]. destruct Hscan2 as [Hcl Hdn Hfd Hal Hon].
      split; try done. intros c color Hc. apply Hdn.
      destruct Hc as [?|[? [?|Hcx%list_elem_of_singleton]%elem_of_app]].
      * left. by left.
      * left. right. done.
      * right. destruct c; simpl in *. congruence.
    + exists (visited', report'). split; [done|]. exists found'. split; [done|].
      destruct Hscan' as [Hcl Hdn Hfd Hal Hon]. split; try done.
      intros c color Hc. apply Hdn.
      destruct Hc as [[?|Hcy%list_elem_of_singleton]%elem_of_app ?].
      * by left.
      * right. split; [done|]. apply elem_of_seqZ. lia.
  - rewrite Hrun. simpl in *. subst report. exists found. split; [done|].
    destruct Hscan as [Hcl Hdn Hfd Hal Hon]. split; [|split; [|done]].
    + intros color a L Hw. destruct (Hfd color a L Hw) as (? & ? & _ & ? & ?). done.
    + intros c color L Hcolor Hc HL Hweak. apply Hal; try done.
      apply (Hdn c color); [|done..].
      destruct (fitsBoard_range g (Coordinate.x c) (Coordinate.y c)
                  (standardBoard_fits _ Hstd)) as [? ?].
      { unfold colored in Hc. by rewrite Hc. }
      split; [apply elem_of_seqZ; lia | done].
Qed.

Lemma analyzeSafetyHeuristic_on_standard_board_witness :
  exists found : list WeakGroup,
    analyzeSafetyHeuristic (grid Boards.bentThree) = Ret (renderWeakGroup <$> found) /\
    length found = 1%nat.
Proof.
  destruct (analyzeSafetyHeuristic_on_standard_board (grid Boards.bentThree)
              standardBoard_bentThree) as (found & Hrun & _).
  exists found. split; [exact Hrun|].
  apply (f_equal (fun r => match r with Ret l => length l | _ => 0%nat end)) in Hrun.
  rewrite length_fmap in Hrun. rewrite <- Hrun. vm_compute. reflexivity.
Defined.

Lemma checkLiberties_group_of_seed_witness :
  exists res, checkLiberties (grid Boards.bentThree) 1 0 WHITE = Ret res /\
              forall c, c ∈ group res <-> sameGroup (grid Boards.bentThree) WHITE (Coord 1 0) c.
Proof.
  destruct (checkLiberties_returns (grid Boards.bentThree) 1 0 WHITE
              standardBoard_bentThree) as [res Hres]; [lia..|].
  exists res. split; [exact Hres|].
  apply (checkLiberties_group_of_seed (grid Boards.bentThree) 1 0 WHITE res);
    [apply standardBoard_fits, standardBoard_bentThree | discriminate | reflexivity | exact Hres].
Defined.

(** ** The move applied by the external library *)

(** When the external library applies the move, the ko point is the one
    stone that left the board, whatever the group of the new stone. *)
Lemma playMove_external_ko (caught : string) (st : BoardState) (x y : Z)
    (next : SabakiBoard) (sm : list (list Z)) (k : Coordinate) :
  valid (playMove_external caught st x y next sm) = true ->
  koPoint (newState (playMove_external caught st x y next sm)) = Some k <->
  capturedInRows (map (map ofSign) sm) 0 (grid st) [] = Ret [k].
Proof.
  unfold playMove_external.
  destruct (capturedInRows _ 0 (grid st) []) as [capturedStones| |]; simpl; [|done..].
  intros _. destruct capturedStones as [|s [|s' rest]]; simpl.
  - split; [done | by intros [= ?]].
  - split; [by intros [= ->] | by intros [= ->]].
  - split; [done | by intros [= ?]].
Qed.

(** ** The ASCII dump *)

Lemma append_assoc (a b c : string) : (a +:+ b) +:+ c = a +:+ b +:+ c.
Proof.
  induction a as [|ch a IH]; [done|].
  change (String ch ((a +:+ b) +:+ c) = String ch (a +:+ b +:+ c)). by f_equal.
Qed.

Lemma append_nil_r (a : string) : a +:+ "" = a.
Proof.
  induction a as [|ch a IH]; [done|].
  change (String ch (a +:+ "") = String ch a). by f_equal.
Qed.

Lemma foldl_append {A : Type} (h : A -> string) (l : list A) (a : string) :
  foldl (fun acc x => acc +:+ h x) a l = a +:+ joinStrings (h <$> l).
Proof.
  revert a. induction l as [|x l IH]; intros a; simpl.
  - by rewrite append_nil_r.
  - by rewrite IH, append_assoc.
Qed.

Lemma asciiCells_foldl (g : Grid) (size y : Z) (a : string) :
  foldl (fun acc x => acc +:+ glyph (stoneAt g x y)) a (seqZ 0 size)
  = a +:+ asciiCells g size y.
Proof. unfold asciiCells. by rewrite !foldl_append. Qed.

(** X30. The dump of a grid of any side [N]: the column header, one line per
    row [y] that carries the row number [N - y] at both ends, and the
    column header again. The header letters are the first [N] of the
    letters A to T without I. *)
Theorem boardToAscii_rows (g : Grid) :
  let size := Z.of_nat (length g) in
  let header := columnHeader (String.substring 0 (length g) letters) size "   " in
  boardToAscii g
    = header +:+ newline +:+ joinStrings (asciiRow g size <$> seqZ 0 size) +:+ header
  /\ forall i, char_at letters i <> "I".
Proof.
  intros size header. split.
  - unfold boardToAscii. fold size.
    assert (Hrows : forall a l,
      foldl (fun acc y =>
               let rowNum := size - y in
               let acc := acc +:+ (if rowNum <? 10 then " " else "") +:+ pretty rowNum +:+ " " in
               let acc := foldl (fun acc x => acc +:+ glyph (stoneAt g x y)) acc (seqZ 0 size) in
               acc +:+ pretty rowNum +:+ newline) a l
      = a +:+ joinStrings (asciiRow g size <$> l)).
    { intros a l. revert a. induction l as [|y l IH]; intros a; simpl.
      - by rewrite append_nil_r.
      - rewrite IH, asciiCells_foldl. unfold asciiRow.
        by rewrite !append_assoc. }
    rewrite Hrows. unfold columnHeader at 1. rewrite foldl_append.
    unfold header, columnHeader. rewrite !foldl_append.
    by rewrite !append_assoc.
  - intros i. unfold char_at. destruct (i <? 0); [discriminate|].
    generalize (Z.to_nat i). intros n.
    do 19 (destruct n as [|n]; [discriminate|]). discriminate.
Qed.

(** ** Board geometry, for every size *)
(** X1. [createEmptyGrid(size)] has [size] rows of [size] points, all of
    them EMPTY; outside that square there is no point. A size that is not
    positive gives the grid without rows. *)
Theorem createEmptyGrid_stoneAt (size x y : Z) :
  length (createEmptyGrid size) = Z.to_nat size /\
  (forall row, row ∈ createEmptyGrid size -> length row = Z.to_nat size) /\
  stoneAt (createEmptyGrid size) x y
    = if bool_decide (0 <= x < size /\ 0 <= y < size) then Some EMPTY else None.
Proof.
  unfold createEmptyGrid. split; [by rewrite length_replicate|]. split.
  - intros row [-> _]%elem_of_replicate. by rewrite length_replicate.
  - unfold stoneAt, index.
    destruct (Z.ltb_spec y 0) as [Hy|Hy]; simpl.
    { rewrite bool_decide_eq_false_2; [done | lia]. }
    destruct (decide (y < size)) as [Hy'|Hy'].
    + rewrite lookup_replicate_2 by lia. simpl.
      destruct (Z.ltb_spec x 0) as [Hx|Hx].
      { rewrite bool_decide_eq_false_2; [done | lia]. }
      destruct (decide (x < size)) as [Hx'|Hx'].
      * rewrite lookup_replicate_2 by lia. rewrite bool_decide_eq_true_2; [done | lia].
      * rewrite (proj1 (lookup_replicate_None _ _ _)) by lia.
        rewrite bool_decide_eq_false_2; [done | lia].
    + rewrite (proj1 (lookup_replicate_None _ _ _)) by lia. simpl.
      rewrite bool_decide_eq_false_2; [done | lia].
Qed.

(** X2. For a point of a board of side [size], [getNeighbors] lists each
    orthogonal neighbour that lies on the board, once, and nothing else: two
    to four points when the board has at least two rows. *)
Theorem getNeighbors_on_board (x y size : Z) :
  0 <= x < size -> 0 <= y < size ->
  NoDup (getNeighbors x y size) /\
  (2 <= size -> (2 <= length (getNeighbors x y size) <= 4)%nat) /\
  forall n, n ∈ getNeighbors x y size <->
            adjacent (Coord x y) n /\
            0 <= Coordinate.x n < size /\ 0 <= Coordinate.y n < size.
Proof.
  intros Hx Hy. split; [apply NoDup_getNeighbors|]. split.
  - intros Hsize. unfold getNeighbors.
    destruct (Z.ltb_spec 0 x), (Z.ltb_spec x (size - 1)),
      (Z.ltb_spec 0 y), (Z.ltb_spec y (size - 1)); simpl; lia.
  - intros [nx ny]. unfold getNeighbors, adjacent. simpl.
    rewrite !elem_of_app.
    destruct (Z.ltb_spec 0 x), (Z.ltb_spec x (size - 1)),
      (Z.ltb_spec 0 y), (Z.ltb_spec y (size - 1));
      rewrite ?elem_of_nil, ?list_elem_of_singleton;
      (split; [intros [H'|[H'|[H'|H']]]; try done; injection H' as -> ->; lia
              | intros [[[? [?|?]]|[? [?|?]]] [? ?]]; try lia;
                first [ left; f_equal; lia
                      | right; left; f_equal; lia
                      | right; right; left; f_equal; lia
                      | right; right; right; f_equal; lia ]]).
Qed.

Lemma getNeighbors_on_board_witness :
  getNeighbors 0 4 5 = [Coord 1 4; Coord 0 3] /\
  (Coord 0 5 ∈ getNeighbors 0 4 5 <->
   adjacent (Coord 0 4) (Coord 0 5) /\ 0 <= 0 < 5 /\ 0 <= 5 < 5).
Proof.
  split; [reflexivity|].
  apply (getNeighbors_on_board 0 4 5); lia.
Defined.

(** ** The labels of the 19 by 19 board *)
(** The letters of two columns of the board differ. *)
Lemma letters_distinct (x x' : Z) :
  0 <= x < 19 -> 0 <= x' < 19 -> char_at letters x = char_at letters x' -> x = x'.
Proof.
  intros Hx Hx' Heq.
  assert (Hall : forallb (fun a => forallb (fun b =>
            implb (String.eqb (char_at letters a) (char_at letters b)) (a =? b))
            (seqZ 0 19)) (seqZ 0 19) = true) by (vm_compute; reflexivity).
  rewrite forallb_forall in Hall.
  specialize (Hall x). rewrite <- list_elem_of_In, elem_of_seqZ in Hall.
  specialize (Hall ltac:(lia)). rewrite forallb_forall in Hall.
  specialize (Hall x'). rewrite <- list_elem_of_In, elem_of_seqZ in Hall.
  specialize (Hall ltac:(lia)).
  rewrite Heq, String.eqb_refl in Hall. simpl in Hall. lia.
Qed.

Lemma char_at_letters (x : Z) :
  0 <= x < 19 -> exists col, char_at letters x = String col EmptyString.
Proof.
  intros Hx. unfold char_at. destruct (Z.ltb_spec x 0); [lia|].
  assert (Hn : (Z.to_nat x < 19)%nat) by lia.
  set (n := Z.to_nat x) in *. clearbody n.
  do 19 (destruct n as [|n]; [by eexists|]). lia.
Qed.

(** X3. Two points of the 19 by 19 board never get the same label from
    [toGtpCoordinate]. *)
Theorem toGtpCoordinate_injective (x y x' y' : Z) :
  0 <= x < 19 -> 0 <= y < 19 -> 0 <= x' < 19 -> 0 <= y' < 19 ->
  toGtpCoordinate x y = toGtpCoordinate x' y' -> x = x' /\ y = y'.
Proof.
  intros Hx Hy Hx' Hy'. unfold toGtpCoordinate.
  destruct (Z.ltb_spec x 0), (Z.leb_spec 19 x), (Z.ltb_spec y 0), (Z.leb_spec 19 y);
    try lia.
  destruct (Z.ltb_spec x' 0), (Z.leb_spec 19 x'), (Z.ltb_spec y' 0), (Z.leb_spec 19 y');
    try lia.
  simpl.
  destruct (char_at_letters x Hx) as [col Hcol].
  destruct (char_at_letters x' Hx') as [col' Hcol'].
  intros Heq. rewrite Hcol, Hcol' in Heq.
  change (String col (pretty (19 - y)) = String col' (pretty (19 - y'))) in Heq.
  injection Heq as Hc Hrow.
  apply pretty_Z_inj in Hrow. split; [|lia].
  apply letters_distinct; [done..|]. by rewrite Hcol, Hcol', Hc.
Qed.

Lemma toGtpCoordinate_injective_witness :
  toGtpCoordinate 3 15 = "D4" /\ toGtpCoordinate (1 + 2) (20 - 5) = "D4" /\
  (3 = 1 + 2 /\ 15 = 20 - 5).
Proof.
  split; [reflexivity|]. split; [reflexivity|].
  apply (toGtpCoordinate_injective 3 15 (1 + 2) (20 - 5)); [lia.. | reflexivity].
Defined.

(** ** The resolver's loop *)
Lemma checkLiberties_loop_fuel (fuel fuel' : nat) (g : Grid) (color : StoneColor)
    (stack : list Coordinate) (visited : gset Coordinate) (grp : list Coordinate)
    (lib : bool) :
  (fuel <= fuel')%nat ->
  checkLiberties_loop fuel g color stack visited grp lib <> Unmodelled ->
  checkLiberties_loop fuel' g color stack visited grp lib
  = checkLiberties_loop fuel g color stack visited grp lib.
Proof.
  revert fuel' stack visited grp lib.
  induction fuel as [|fuel IH]; intros fuel' stack visited grp lib Hle Hrun;
    destruct stack as [|current stack]; try (by destruct fuel').
  destruct fuel' as [|fuel']; [lia|]. simpl in *.
  case_bool_decide; [apply IH; [lia | done]|].
  destruct (scanNeighbors g color _ _ stack lib) as [[stack' lib']| |]; simpl in *;
    [apply IH; [lia | done] | done..].
Qed.

(** X4. The [while] loop of [checkLiberties] ends on every grid, whatever
    its shape and whatever the seed: five passes for each point of the grid
    are enough, more passes change nothing, and the call either returns or
    throws a TypeError. *)
Theorem checkLiberties_terminates (g : Grid) (x y : Z) (color : StoneColor) (fuel : nat) :
  (checkLiberties_fuel g <= fuel)%nat ->
  checkLiberties_loop fuel g color [Coord x y] ∅ [] false = checkLiberties g x y color /\
  (checkLiberties g x y color = TypeError \/ exists res, checkLiberties g x y color = Ret res).
Proof.
  intros Hfuel. pose proof (checkLiberties_modelled g x y color) as Hrun. split.
  - by apply checkLiberties_loop_fuel.
  - destruct (checkLiberties g x y color) as [res| |]; [right; by exists res | by left | done].
Qed.

Lemma checkLiberties_terminates_witness :
  checkLiberties_loop 1000 Boards.bottomStone BLACK [Coord 2 4] ∅ [] false = TypeError /\
  checkLiberties_loop 1000 Boards.topLeftStone BLACK [Coord 0 0] ∅ [] false
    = Ret (mkCheckResult true [Coord 0 0]).
Proof.
  split.
  - rewrite (proj1 (checkLiberties_terminates Boards.bottomStone 2 4 BLACK 1000
                      ltac:(vm_compute; lia))).
    vm_compute. reflexivity.
  - rewrite (proj1 (checkLiberties_terminates Boards.topLeftStone 0 0 BLACK 1000
                      ltac:(vm_compute; lia))).
    vm_compute. reflexivity.
Defined.

(** X5. On a 19 by 19 board [checkLiberties], called on a stone, returns;
    the group starts with the seed, holds each stone reached from the seed
    through neighbouring stones of the colour once and nothing else, and
    the flag is set exactly when one of these stones has an EMPTY
    neighbour. *)
Theorem checkLiberties_on_standard_board (g : Grid) (x y : Z) (color : StoneColor) :
  standardBoard g -> color <> EMPTY -> stoneAt g x y = Some color ->
  exists res,
    checkLiberties g x y color = Ret res /\
    NoDup (group res) /\
    head (group res) = Some (Coord x y) /\
    (forall c, c ∈ group res <-> sameGroup g color (Coord x y) c) /\
    (hasLiberties res = true <->
     exists v n, sameGroup g color (Coord x y) v /\ libertyOf g v n).
Proof.
  intros Hstd Hcolor Hstone.
  destruct (fitsBoard_range g x y (standardBoard_fits g Hstd)) as [Hx Hy]; [by eexists|].
  destruct (checkLiberties_returns g x y color Hstd Hx Hy) as [res Hres].
  exists res. split; [done|].
  destruct (checkLiberties_group_of_seed g x y color res) as (Hnd & Hgroup & _ & Hlib);
    [by apply standardBoard_fits | done..|].
  destruct (checkLiberties_Ret g x y color res Hres Hstone) as (_ & _ & tail & Htail).
  split; [done|]. split; [by rewrite Htail|]. split; [done|].
  rewrite Hlib. split; intros (v & n & Hv & Hn); exists v, n; (split; [by apply Hgroup | done]).
Qed.

Lemma checkLiberties_on_standard_board_witness :
  exists res,
    checkLiberties (grid Boards.bentThree) 1 1 WHITE = Ret res /\
    head (group res) = Some (Coord 1 1) /\ hasLiberties res = true.
Proof.
  destruct (checkLiberties_on_standard_board (grid Boards.bentThree) 1 1 WHITE
              standardBoard_bentThree) as (res & Hres & _ & Hhead & _);
    [discriminate | reflexivity |].
  exists res. split; [exact Hres|]. split; [exact Hhead|].
  vm_compute in Hres. injection Hres as <-. reflexivity.
Defined.

(** X6. On a board of at most 19 by 19 points the answer of the resolver
    does not depend on the stone of the group it is called on: the same
    stones, in some order, and the same flag. *)
Theorem checkLiberties_seed_independent (g : Grid) (color : StoneColor)
    (a b : Coordinate) (ra rb : CheckResult) :
  fitsBoard g -> color <> EMPTY -> colored g color a ->
  checkLiberties g (Coordinate.x a) (Coordinate.y a) color = Ret ra ->
  b ∈ group ra ->
  checkLiberties g (Coordinate.x b) (Coordinate.y b) color = Ret rb ->
  group ra ≡ₚ group rb /\ hasLiberties ra = hasLiberties rb.
Proof.
  intros Hfit Hcolor Ha Hra Hb Hrb. destruct a as [ax ay], b as [bx b_y]. simpl in *.
  destruct (checkLiberties_group_of_seed g ax ay color ra) as (Hnda & Hga & Hca & Hla);
    [done..|].
  destruct (checkLiberties_group_of_seed g bx b_y color rb) as (Hndb & Hgb & _ & Hlb);
    [done.. | by apply Hca | done |].
  assert (Hab : sameGroup g color (Coord ax ay) (Coord bx b_y)) by by apply Hga.
  assert (Hsame : forall c, c ∈ group ra <-> c ∈ group rb).
  { intros c. rewrite Hga, Hgb. split; intros Hc.
    - eapply rtc_trans; [|exact Hc]. by apply sameGroup_sym.
    - by eapply rtc_trans. }
  split; [by apply NoDup_Permutation|].
  apply eq_true_iff_eq. rewrite Hla, Hlb.
  split; intros (v & n & Hv & Hn); exists v, n; (split; [by apply Hsame | done]).
Qed.

Lemma checkLiberties_seed_independent_witness :
  exists ra rb,
    checkLiberties (grid Boards.bentThree) 1 0 WHITE = Ret ra /\
    checkLiberties (grid Boards.bentThree) 0 1 WHITE = Ret rb /\
    group ra ≡ₚ group rb /\ hasLiberties ra = hasLiberties rb.
Proof.
  exists (mkCheckResult true [Coord 1 0; Coord 1 1; Coord 0 1]),
         (mkCheckResult true [Coord 0 1; Coord 1 1; Coord 1 0]).
  split; [vm_compute; reflexivity|]. split; [vm_compute; reflexivity|].
  apply (checkLiberties_seed_independent (grid Boards.bentThree) WHITE
           (Coord 1 0) (Coord 0 1)).
  - apply standardBoard_fits, standardBoard_bentThree.
  - discriminate.
  - reflexivity.
  - vm_compute. reflexivity.
  - simpl. apply list_elem_of_In. simpl. auto.
  - vm_compute. reflexivity.
Defined.

(** ** The resolver on a board with fewer than 19 rows *)
Lemma scanNeighbors_throws (g : Grid) (color : StoneColor) (visited : gset Coordinate)
    (ns stack : list Coordinate) (lib : bool) :
  (exists n, n ∈ ns /\ index g (Coordinate.y n) = None) ->
  scanNeighbors g color visited ns stack lib = TypeError.
Proof.
  revert stack lib. induction ns as [|n ns IH]; intros stack lib (m & Hm & Hrow).
  { by apply elem_of_nil in Hm. }
  simpl. unfold cell_at.
  destruct (index g (Coordinate.y n)) as [row|] eqn:Hn; [|done]. simpl.
  assert (Hrest : exists n', n' ∈ ns /\ index g (Coordinate.y n') = None).
  { apply elem_of_cons in Hm as [->|Hm]; [congruence | eauto]. }
  repeat case_match; by apply IH.
Qed.

Lemma bottom_row_neighbor (g : Grid) (x y : Z) :
  (0 < length g < 19)%nat -> y = Z.of_nat (length g) - 1 ->
  exists n, n ∈ getNeighbors x y BOARD_SIZE /\ index g (Coordinate.y n) = None.
Proof.
  intros Hlen ->. exists (Coord x (Z.of_nat (length g))). split.
  - unfold getNeighbors, BOARD_SIZE. rewrite !elem_of_app. do 3 right.
    destruct (Z.ltb_spec (Z.of_nat (length g) - 1) (19 - 1)); [|lia].
    replace (Z.of_nat (length g) - 1 + 1) with (Z.of_nat (length g)) by lia. left.
  - simpl. unfold index. destruct (Z.ltb_spec (Z.of_nat (length g)) 0); [done|].
    apply lookup_ge_None. lia.
Qed.

(** X7. On a grid with fewer than 19 rows, [checkLiberties] called on any
    point of the bottom row throws a TypeError, whatever the colour and
    whatever the grid holds: the neighbour below the point is taken as on
    a 19 by 19 board, and its row does not exist. *)
Theorem checkLiberties_bottom_row_throws (g : Grid) (x y : Z) (color : StoneColor) :
  (0 < length g < 19)%nat -> y = Z.of_nat (length g) - 1 ->
  checkLiberties g x y color = TypeError.
Proof.
  intros Hlen Hy. unfold checkLiberties, checkLiberties_fuel.
  cbn [checkLiberties_loop]. rewrite bool_decide_eq_false_2 by apply not_elem_of_empty.
  cbn [Coordinate.x Coordinate.y].
  rewrite scanNeighbors_throws; [done|]. by apply bottom_row_neighbor.
Qed.

Lemma checkLiberties_bottom_row_throws_witness :
  checkLiberties Boards.smallCorner.(grid) 1 4 WHITE = TypeError.
Proof.
  apply (checkLiberties_bottom_row_throws (grid Boards.smallCorner) 1 4 WHITE).
  - vm_compute. lia.
  - reflexivity.
Defined.

Lemma scanNeighbors_rows (g : Grid) (color : StoneColor) (visited : gset Coordinate)
    (ns stack : list Coordinate) (lib : bool) (r : list Coordinate * bool) :
  scanNeighbors g color visited ns stack lib = Ret r ->
  forall n, n ∈ ns -> is_Some (index g (Coordinate.y n)).
Proof.
  intros Hscan n Hn. destruct (index g (Coordinate.y n)) as [row|] eqn:Hrow; [by eexists|].
  rewrite scanNeighbors_throws in Hscan; [done | by eauto].
Qed.

Lemma scanNeighbors_returns (g : Grid) (color : StoneColor) (visited : gset Coordinate)
    (ns stack : list Coordinate) (lib : bool) :
  (forall n, n ∈ ns -> is_Some (index g (Coordinate.y n))) ->
  exists r, scanNeighbors g color visited ns stack lib = Ret r.
Proof.
  revert stack lib. induction ns as [|n ns IH]; intros stack lib Hns; simpl; [eauto|].
  destruct (Hns n ltac:(left)) as [row Hrow]. unfold cell_at. rewrite Hrow. simpl.
  assert (Hrest : forall n', n' ∈ ns -> is_Some (index g (Coordinate.y n')))
    by (intros n' ?; apply Hns; by right).
  repeat case_match; by apply IH.
Qed.

Lemma checkLiberties_loop_rows (fuel : nat) (g : Grid) (color : StoneColor)
    (stack : list Coordinate) (visited : gset Coordinate) (grp : list Coordinate)
    (lib : bool) (res : CheckResult) :
  checkLiberties_loop fuel g color stack visited grp lib = Ret res ->
  (forall c, c ∈ grp -> rowsAround g c) ->
  forall c, c ∈ group res -> rowsAround g c.
Proof.
  revert stack visited grp lib.
  induction fuel as [|fuel IH]; intros stack visited grp lib Hrun Hgrp;
    destruct stack as [|current stack]; simpl in Hrun; try done;
    try (by injection Hrun as <-).
  case_bool_decide; [by eapply IH|].
  js_inv Hrun. destruct v as [stack' lib'].
  eapply IH; [exact Hrun|].
  intros c [Hc|Hc%list_elem_of_singleton]%elem_of_app; [by apply Hgrp|]. subst c.
  intros n Hn. by eapply scanNeighbors_rows.
Qed.

Lemma checkLiberties_rows (g : Grid) (x y : Z) (color : StoneColor) (res : CheckResult) :
  checkLiberties g x y color = Ret res ->
  forall c, c ∈ group res -> rowsAround g c.
Proof.
  intros Hres. eapply checkLiberties_loop_rows; [exact Hres|].
  by intros c ?%elem_of_nil.
Qed.

Lemma rowsAround_bottom (g : Grid) (c : Coordinate) :
  (0 < length g < 19)%nat -> rowsAround g c ->
  Coordinate.y c <> Z.of_nat (length g) - 1.
Proof.
  intros Hlen Hrows Hy.
  destruct (bottom_row_neighbor g (Coordinate.x c) (Coordinate.y c) Hlen Hy)
    as (n & Hn & Hnone).
  destruct (Hrows n Hn) as [row Hrow]. congruence.
Qed.

Lemma checkLiberties_loop_above (g : Grid) (color : StoneColor) (seed : Coordinate)
    (fuel : nat) (stack : list Coordinate) (visited : gset Coordinate)
    (grp : list Coordinate) (lib : bool) :
  color <> EMPTY -> fitsBoard g -> colored g color seed ->
  (forall c, sameGroup g color seed c -> Coordinate.y c <> Z.of_nat (length g) - 1) ->
  Resolving g color seed stack visited grp lib ->
  checkLiberties_loop fuel g color stack visited grp lib <> TypeError.
Proof.
  intros Hcolor Hfits Hseed Habove. revert stack visited grp lib.
  induction fuel as [|fuel IH]; intros stack visited grp lib Hres;
    destruct stack as [|current stack]; simpl; try done.
  case_bool_decide as Hvis.
  { apply IH. by eapply Resolving_skip. }
  assert (Hcur : sameGroup g color seed current) by (apply (res_stack _ _ _ _ _ _ _ Hres); left).
  assert (Hcol : colored g color current) by by eapply sameGroup_colored.
  destruct (colored_range g color Hfits current Hcol) as [Hx Hy].
  destruct (proj1 (stoneAt_is_Some g _ _) (mk_is_Some _ _ Hcol))
    as (row & Hrow%lookup_lt_Some & _ & _).
  specialize (Habove current Hcur).
  destruct (scanNeighbors_returns g color ({[current]} ∪ visited)
              (getNeighbors (Coordinate.x current) (Coordinate.y current) BOARD_SIZE)
              stack lib) as [[stack' lib'] Hscan].
  { intros n Hn.
    destruct (getNeighbors_range _ _ _ Hn Hx Hy) as [_ Hny].
    apply getNeighbors_adjacent in Hn. unfold adjacent in Hn. simpl in Hn.
    unfold index. destruct (Z.ltb_spec (Coordinate.y n) 0); [lia|].
    apply lookup_lt_is_Some_2. lia. }
  rewrite Hscan. simpl. apply IH. by eapply Resolving_visit.
Qed.

(** X8. On a board with fewer than 19 rows and rows of at most 19 points,
    [checkLiberties] called on a stone throws a TypeError when the group
    of the stone has a stone on the bottom row, and returns when it has
    none. *)
Theorem checkLiberties_short_board (g : Grid) (x y : Z) (color : StoneColor) :
  fitsBoard g -> (length g < 19)%nat -> color <> EMPTY -> colored g color (Coord x y) ->
  ((exists c, sameGroup g color (Coord x y) c /\
              Coordinate.y c = Z.of_nat (length g) - 1) ->
   checkLiberties g x y color = TypeError) /\
  ((forall c, sameGroup g color (Coord x y) c ->
              Coordinate.y c <> Z.of_nat (length g) - 1) ->
   exists res, checkLiberties g x y color = Ret res).
Proof.
  intros Hfits Hlen Hcolor Hseed.
  assert (Hpos : (0 < length g)%nat).
  { destruct (proj1 (stoneAt_is_Some g _ _) (mk_is_Some _ _ Hseed))
      as (row & Hrow%lookup_lt_Some & _). lia. }
  pose proof (checkLiberties_modelled g x y color) as Hrun. split.
  - intros (c & Hc & Hy).
    destruct (checkLiberties g x y color) as [res| |] eqn:Hres; [exfalso | done..].
    destruct (checkLiberties_group_of_seed g x y color res Hfits Hcolor Hseed Hres)
      as (_ & Hgroup & _).
    apply Hgroup in Hc.
    by apply (rowsAround_bottom g c ltac:(lia) (checkLiberties_rows _ _ _ _ _ Hres c Hc)).
  - intros Habove.
    destruct (checkLiberties g x y color) as [res| |] eqn:Hres; [by eauto | exfalso | done].
    revert Hres. apply (checkLiberties_loop_above g color (Coord x y)); [done..|].
    split.
    + by intros c ->%list_elem_of_singleton.
    + by intros c ?%elem_of_empty.
    + by intros v n ?%elem_of_empty.
    + right. left.
    + intros c. split; [by intros ?%elem_of_empty | by intros ?%elem_of_nil].
    + split; [done | by intros (v & _ & ?%elem_of_empty & _)].
Qed.

Lemma checkLiberties_short_board_witness :
  checkLiberties Boards.bottomStone 2 4 BLACK = TypeError.
Proof.
  apply (checkLiberties_short_board Boards.bottomStone 2 4 BLACK).
  - split; [vm_compute; lia|]. intros row Hrow.
    apply list_elem_of_In in Hrow. vm_compute in Hrow.
    repeat (destruct Hrow as [<-|Hrow]; [vm_compute; lia|]). destruct Hrow.
  - vm_compute. lia.
  - discriminate.
  - reflexivity.
  - exists (Coord 2 4). split; [apply rtc_refl | reflexivity].
Defined.

(** ** Outcomes of a move on any grid *)
Lemma playMove_local_rejects (st : BoardState) (x y : Z) (color : StoneColor)
    (r : MoveResult) :
  playMove_local st x y color = Ret r -> valid r = false ->
  r = reject st "Suicide move not allowed".
Proof.
  unfold playMove_local. intros Hplay Hvalid.
  js_inv Hplay. js_inv Hplay. js_inv Hplay. js_inv Hplay.
  destruct v2; [by injection Hplay as <-|].
  js_inv Hplay. injection Hplay as <-. done.
Qed.

(** X9. Whatever the grid and whatever the external library does, a
    result of [playMove] that is not valid carries the prior state and a
    reason; a valid one carries no reason, records the point played as the
    last move, and was played on an EMPTY point that is not the ko
    point. *)
Theorem playMove_outcome
    (external : Grid -> Captures -> Z -> Z -> Z -> option MakeMove) (caught : string)
    (st : BoardState) (x y : Z) (color : StoneColor) (r : MoveResult) :
  playMove external caught st x y color = Ret r ->
  (valid r = false -> newState r = st /\ is_Some (message r)) /\
  (valid r = true ->
     message r = None /\ lastMove (newState r) = Some (Coord x y) /\
     stoneAt (grid st) x y = Some EMPTY /\ isKoPoint st x y = false).
Proof.
  unfold playMove. intros Hplay.
  js_inv Hplay. rename v into target, Hv into Htarget. apply cell_at_Ret in Htarget.
  case_bool_decide as Hocc; [injection Hplay as <-; split; [by eauto | done]|].
  destruct (isKoPoint st x y) eqn:Hko; [injection Hplay as <-; split; [by eauto | done]|].
  assert (Hlocal : playMove_local st x y color = Ret r ->
    (valid r = false -> newState r = st /\ is_Some (message r)) /\
    (valid r = true ->
       message r = None /\ lastMove (newState r) = Some (Coord x y) /\
       stoneAt (grid st) x y = Some EMPTY /\ false = false)).
  { intros Hloc. split.
    - intros Hv. rewrite (playMove_local_rejects _ _ _ _ _ Hloc Hv). by eauto.
    - intros Hv.
      destruct (playMove_local_Ret _ _ _ _ _ Hloc Hv) as (_ & _ & _ & _ & _ & _ & ? & ? & _).
      by rewrite Htarget, Hocc. }
  destruct (external _ _ _ _ _) as [[msg|[next|]]|]; [|destruct (signMap next) as [sm|]|..];
    try by apply Hlocal.
  - injection Hplay as <-. split; [by eauto | done].
  - injection Hplay as <-. unfold playMove_external.
    destruct (capturedInRows _ 0 (grid st) []); simpl;
      [split; [done|] | split; [by eauto | done]..].
    intros _. by rewrite Htarget, Hocc.
Qed.

Lemma playMove_outcome_witness :
  newState Boards.koResult <> Boards.koShape /\
  lastMove (newState Boards.koResult) = Some (Coord 1 2).
Proof.
  destruct (playMove_outcome noExternal "" Boards.koShape 1 2 BLACK Boards.koResult)
    as [_ Hvalid]; [vm_compute; reflexivity|].
  destruct (Hvalid ltac:(reflexivity)) as (_ & Hlast & _).
  split; [|exact Hlast]. vm_compute. discriminate.
Defined.

(** X10. A move off the grid: with [y] outside the rows of the grid
    [playMove] throws a TypeError; with [x] outside the row [y] it answers
    that the point is occupied and gives the prior state back. *)
Theorem playMove_off_grid
    (external : Grid -> Captures -> Z -> Z -> Z -> option MakeMove) (caught : string)
    (st : BoardState) (x y : Z) (color : StoneColor) :
  (y < 0 \/ Z.of_nat (length (grid st)) <= y ->
   playMove external caught st x y color = TypeError) /\
  (forall row, index (grid st) y = Some row ->
     x < 0 \/ Z.of_nat (length row) <= x ->
     playMove external caught st x y color = Ret (reject st "Point is occupied")).
Proof.
  unfold playMove, cell_at. split.
  - intros Hy. replace (index (grid st) y) with (@None (list StoneColor)); [done|].
    symmetry. unfold index. destruct (Z.ltb_spec y 0); [done|].
    apply lookup_ge_None. lia.
  - intros row -> Hx. simpl.
    replace (index row x) with (@None StoneColor); [done|].
    symmetry. unfold index. destruct (Z.ltb_spec x 0); [done|].
    apply lookup_ge_None. lia.
Qed.

Lemma playMove_off_grid_witness :
  playMove noExternal "" (emptyState 5) 0 5 BLACK = TypeError /\
  playMove noExternal "" (emptyState 5) 5 0 BLACK
    = Ret (reject (emptyState 5) "Point is occupied").
Proof.
  destruct (playMove_off_grid noExternal "" (emptyState 5) 0 5 BLACK) as [Hy _].
  destruct (playMove_off_grid noExternal "" (emptyState 5) 5 0 BLACK) as [_ Hx].
  split.
  - apply Hy. right. vm_compute. discriminate.
  - apply (Hx (replicate 5 EMPTY)); [reflexivity|]. right. vm_compute. discriminate.
Defined.

(** X11. With or without an external rules library, [playMove] returns or
    throws a TypeError on every state: the loops of the resolver end, and
    no store lands outside the points that the grid has. *)
Theorem playMove_returns_or_throws
    (external : Grid -> Captures -> Z -> Z -> Z -> option MakeMove) (caught : string)
    (st : BoardState) (x y : Z) (color : StoneColor) :
  playMove external caught st x y color = TypeError \/
  exists r, playMove external caught st x y color = Ret r.
Proof.
  pose proof (playMove_modelled external caught st x y color) as Hrun.
  destruct (playMove external caught st x y color) as [r| |] eqn:Hplay.
  - right. by exists r.
  - by left.
  - done.
Qed.

(** ** A valid move of the engine's own rules, on any grid *)
Lemma captureNeighbors_head (g : Grid) (opponent : StoneColor)
    (ns acc res : list Coordinate) :
  captureNeighbors g opponent ns acc = Ret res ->
  exists extra, res = acc ++ extra /\
                (extra = [] \/ exists n, n ∈ ns /\ head extra = Some n).
Proof.
  revert acc. induction ns as [|n ns IH]; intros acc Hcap; simpl in Hcap.
  - injection Hcap as <-. exists []. split; [by rewrite app_nil_r | by left].
  - assert (Hrest : forall acc', captureNeighbors g opponent ns acc' = Ret res ->
      acc' = acc ->
      exists extra, res = acc ++ extra /\
                    (extra = [] \/ exists n', n' ∈ n :: ns /\ head extra = Some n')).
    { intros acc' Hcap' ->. destruct (IH _ Hcap') as (extra & -> & Hextra).
      exists extra. split; [done|]. destruct Hextra as [->|(n' & ? & ?)]; [by left|].
      right. exists n'. split; [by right | done]. }
    js_inv Hcap. apply cell_at_Ret in Hv.
    case_bool_decide as Hopp; [|by eapply Hrest].
    js_inv Hcap. destruct (hasLiberties v0); simpl in Hcap; [by eapply Hrest|].
    destruct (IH _ Hcap) as (extra & -> & _).
    destruct (checkLiberties_Ret _ _ _ _ _ Hv0) as (_ & _ & tail & Htail); [by rewrite Hv|].
    exists (group v0 ++ extra). split; [by rewrite app_assoc|].
    right. exists n. split; [by left|]. rewrite Htail. by destruct n.
Qed.

(** X12. A valid move of the engine's own rules, on a grid of any shape:
    the new grid holds the new stone; every other point is as before or
    held an opposing stone and is EMPTY now; the grid keeps its shape; and
    the captures of the colour that did not move stay as they were. *)
Theorem playMove_valid_grid
    (external : Grid -> Captures -> Z -> Z -> Z -> option MakeMove) (caught : string)
    (st : BoardState) (x y : Z) (color : StoneColor) (r : MoveResult) :
  ownRules external st x y color ->
  playMove external caught st x y color = Ret r ->
  valid r = true ->
  stoneAt (grid (newState r)) x y = Some color /\
  (forall x' y',
     stoneAt (grid (newState r)) x' y' = stoneAt (grid st) x' y' \/
     (x' = x /\ y' = y) \/
     (stoneAt (grid st) x' y' = Some (opponentOf color) /\
      stoneAt (grid (newState r)) x' y' = Some EMPTY)) /\
  (forall x' y', is_Some (stoneAt (grid (newState r)) x' y')
                 <-> is_Some (stoneAt (grid st) x' y')) /\
  (color = BLACK -> Captures.W (captures (newState r)) = Captures.W (captures st)) /\
  (color <> BLACK -> Captures.B (captures (newState r)) = Captures.B (captures st)).
Proof.
  intros Hext Hplay Hvalid. unfold playMove in Hplay.
  js_inv Hplay. rename v into target, Hv into Htarget. apply cell_at_Ret in Htarget.
  case_bool_decide as Hocc; [injection Hplay as <-; done|].
  rewrite Hocc in Htarget.
  destruct (isKoPoint st x y); [injection Hplay as <-; done|].
  apply (playMove_ownRules _ caught) in Hext. rewrite Hext in Hplay.
  destruct (playMove_local_Ret _ _ _ _ _ Hplay Hvalid)
    as (placed & captured & Hplaced & Hcaptured & Hnew & Hcaps & _).
  destruct (captureNeighbors_Ret _ _ _ _ _ Hcaptured) as (extra & Hextra & Hcol).
  simpl in Hextra. subst extra.
  pose proof (set_cell_Ret _ _ _ _ _ Hplaced) as Hset.
  pose proof (removeStones_Ret _ _ _ Hnew) as Hdel.
  destruct (opponentOf_ne color) as [Hne1 Hne2].
  assert (Hkeep : Coord x y ∉ captured).
  { intros Hin. specialize (Hcol _ Hin). unfold colored in Hcol. simpl in Hcol.
    rewrite Hset, decide_True in Hcol by done. congruence. }
  split; [|split; [|split; [|split]]].
  - rewrite Hdel, decide_False by done. rewrite Hset, decide_True; done.
  - intros x' y'. rewrite Hdel. case_decide as Hin.
    + right; right. specialize (Hcol _ Hin). unfold colored in Hcol. simpl in Hcol.
      rewrite Hset in Hcol. case_decide; [congruence | done].
    + rewrite Hset. case_decide; [by right; left | by left].
  - intros x' y'. rewrite Hdel. case_decide as Hin.
    + specialize (Hcol _ Hin). unfold colored in Hcol. simpl in Hcol.
      rewrite Hset in Hcol. case_decide as Hxy; [congruence|].
      rewrite Hcol. split; by eauto.
    + rewrite Hset. case_decide as Hxy; [|done].
      destruct Hxy as [-> ->]. rewrite Htarget. split; by eauto.
  - intros ->. by rewrite Hcaps.
  - intros Hcolor. rewrite Hcaps. unfold addCaptures. by rewrite decide_False.
Qed.

Lemma playMove_valid_grid_witness :
  stoneAt (grid (newState Boards.koResult)) 1 2 = Some BLACK /\
  stoneAt (grid (newState Boards.koResult)) 1 1 = Some EMPTY.
Proof.
  destruct (playMove_valid_grid noExternal "" Boards.koShape 1 2 BLACK Boards.koResult)
    as [Hstone _]; [exact I | vm_compute; reflexivity | reflexivity |].
  split; [exact Hstone | reflexivity].
Defined.

(** X13. The ko point that a valid move of the engine's own rules leaves
    is a neighbour of the point played; it held an opposing stone before
    the move and is EMPTY after it, and it is not the last move. *)
Theorem playMove_ko_point_neighbor
    (external : Grid -> Captures -> Z -> Z -> Z -> option MakeMove) (caught : string)
    (st : BoardState) (x y : Z) (color : StoneColor) (r : MoveResult) (k : Coordinate) :
  ownRules external st x y color ->
  playMove external caught st x y color = Ret r ->
  valid r = true ->
  koPoint (newState r) = Some k ->
  adjacent (Coord x y) k /\
  stoneAt (grid st) (Coordinate.x k) (Coordinate.y k) = Some (opponentOf color) /\
  stoneAt (grid (newState r)) (Coordinate.x k) (Coordinate.y k) = Some EMPTY /\
  lastMove (newState r) <> Some k.
Proof.
  intros Hext Hplay Hvalid Hk. unfold playMove in Hplay.
  js_inv Hplay. rename v into target, Hv into Htarget. apply cell_at_Ret in Htarget.
  case_bool_decide as Hocc; [injection Hplay as <-; done|].
  rewrite Hocc in Htarget.
  destruct (isKoPoint st x y); [injection Hplay as <-; done|].
  apply (playMove_ownRules _ caught) in Hext. rewrite Hext in Hplay.
  destruct (playMove_local_Ret _ _ _ _ _ Hplay Hvalid)
    as (placed & captured & Hplaced & Hcaptured & Hnew & _ & Hlast & _ & Hko).
  apply Hko in Hk as [-> _].
  destruct (captureNeighbors_Ret _ _ _ _ _ Hcaptured) as (extra & Hextra & Hcol).
  destruct (captureNeighbors_head _ _ _ _ _ Hcaptured) as (extra' & Hextra' & Hhead).
  simpl in Hextra, Hextra'. subst extra extra'.
  destruct Hhead as [?|(n & Hn & Hhead)]; [done|]. injection Hhead as <-.
  specialize (Hcol k ltac:(left)). unfold colored in Hcol.
  rewrite (set_cell_Ret _ _ _ _ _ Hplaced) in Hcol.
  destruct (opponentOf_ne color) as [Hne1 Hne2].
  case_decide as Hxy; [congruence|].
  split; [by eapply getNeighbors_adjacent|]. split; [done|]. split.
  - rewrite (removeStones_Ret _ _ _ Hnew). rewrite decide_True; [done|].
    destruct k. left.
  - rewrite Hlast. intros [= <-]. by apply Hxy.
Qed.

Lemma playMove_ko_point_neighbor_witness :
  adjacent (Coord 1 2) (Coord 1 1) /\
  stoneAt (grid Boards.koShape) 1 1 = Some WHITE /\
  stoneAt (grid (newState Boards.koResult)) 1 1 = Some EMPTY /\
  lastMove (newState Boards.koResult) <> Some (Coord 1 1).
Proof.
  apply (playMove_ko_point_neighbor noExternal "" Boards.koShape 1 2 BLACK
           Boards.koResult (Coord 1 1)).
  - exact I.
  - vm_compute. reflexivity.
  - reflexivity.
  - reflexivity.
Defined.

Lemma captureNeighbors_throws (g : Grid) (opponent : StoneColor)
    (ns acc : list Coordinate) :
  (exists n, n ∈ ns /\ index g (Coordinate.y n) = None) ->
  captureNeighbors g opponent ns acc = TypeError.
Proof.
  revert acc. induction ns as [|n ns IH]; intros acc (m & Hm & Hrow).
  { by apply elem_of_nil in Hm. }
  simpl. unfold cell_at.
  destruct (index g (Coordinate.y n)) as [row|] eqn:Hn; [|done]. simpl.
  assert (Hrest : exists n', n' ∈ ns /\ index g (Coordinate.y n') = None).
  { apply elem_of_cons in Hm as [->|Hm]; [congruence | eauto]. }
  case_bool_decide; [|by apply IH].
  pose proof (checkLiberties_modelled g (Coordinate.x n) (Coordinate.y n) opponent) as Hrun.
  destruct (checkLiberties g _ _ opponent) as [res| |]; simpl; [|done..].
  destruct (hasLiberties res); simpl; by apply IH.
Qed.

(** X14. On a board with fewer than 19 rows, every move of the engine's
    own rules on an EMPTY point of the bottom row that is not the ko point
    throws a TypeError. *)
Theorem playMove_bottom_row_throws
    (external : Grid -> Captures -> Z -> Z -> Z -> option MakeMove) (caught : string)
    (st : BoardState) (x y : Z) (color : StoneColor) :
  ownRules external st x y color ->
  (length (grid st) < 19)%nat -> y = Z.of_nat (length (grid st)) - 1 ->
  stoneAt (grid st) x y = Some EMPTY -> isKoPoint st x y = false ->
  playMove external caught st x y color = TypeError.
Proof.
  intros Hext Hlen Hy Hempty Hko. unfold playMove.
  rewrite (stoneAt_cell_at _ _ _ _ Hempty). simpl.
  rewrite Hko.
  rewrite (playMove_ownRules _ caught _ _ _ _ Hext). unfold playMove_local.
  destruct (set_cell_defined (grid st) x y color _ Hempty) as [placed Hplaced].
  rewrite Hplaced. simpl.
  assert (Hrows : length placed = length (grid st)).
  { unfold set_cell in Hplaced. repeat case_match; simplify_eq.
    unfold Grid in *. by rewrite length_insert. }
  assert (0 < length (grid st))%nat.
  { destruct (proj1 (stoneAt_is_Some _ _ _) (mk_is_Some _ _ Hempty))
      as (row & Hrow%lookup_lt_Some & _). lia. }
  rewrite captureNeighbors_throws; [done|].
  apply bottom_row_neighbor; [lia | by rewrite Hrows].
Qed.

Lemma playMove_bottom_row_throws_witness :
  playMove noExternal "" Boards.smallCorner 2 4 WHITE = TypeError.
Proof.
  apply (playMove_bottom_row_throws noExternal "" Boards.smallCorner 2 4 WHITE).
  - exact I.
  - vm_compute. lia.
  - reflexivity.
  - reflexivity.
  - reflexivity.
Defined.

(** ** The move applied by the external library, on any grid *)
Lemma capturedInRow_removed (old newGrid : Grid) (nrow : list StoneColor) (row : Z)
    (cells : list StoneColor) (col : Z) (acc : list Coordinate) :
  index newGrid row = Some nrow ->
  (forall i v, cells !! i = Some v -> stoneAt old (col + Z.of_nat i) row = Some v) ->
  capturedInRow newGrid row col cells acc
  = Ret (acc ++ filter (fun c =>
                   stoneAt old (Coordinate.x c) (Coordinate.y c) <> Some EMPTY /\
                   stoneAt newGrid (Coordinate.x c) (Coordinate.y c) = Some EMPTY)
                 (rowCells row col cells)).
Proof.
  intros Hnrow. revert col acc.
  induction cells as [|v cells IH]; intros col acc Hcells; simpl.
  { by rewrite app_nil_r. }
  assert (Hv : stoneAt old col row = Some v).
  { rewrite <- (Hcells 0%nat v eq_refl). f_equal. lia. }
  assert (Hrest : forall i w, cells !! i = Some w ->
                    stoneAt old (col + 1 + Z.of_nat i) row = Some w).
  { intros i w Hw. rewrite <- (Hcells (S i) w Hw). f_equal. lia. }
  rewrite filter_cons. simpl. rewrite Hv.
  unfold cell_at. rewrite Hnrow. simpl.
  assert (Hnow : stoneAt newGrid col row = index nrow col).
  { unfold stoneAt. by rewrite Hnrow. }
  rewrite Hnow.
  case_bool_decide as Hstone.
  - case_bool_decide as Hgone.
    + rewrite decide_True by (split; congruence).
      rewrite (IH _ _ Hrest). by rewrite <- app_assoc.
    + rewrite decide_False by (by intros [_ ?]). by apply IH.
  - rewrite decide_False; [by apply IH|]. intros [Hne _]. apply Hne.
    f_equal. by destruct (decide (v = EMPTY)).
Qed.

Lemma capturedInRows_removed (old newGrid : Grid) (rows : list (list StoneColor))
    (row : Z) (acc : list Coordinate) :
  0 <= row ->
  (forall i cells, rows !! i = Some cells -> index old (row + Z.of_nat i) = Some cells) ->
  (forall i, (i < length rows)%nat -> is_Some (index newGrid (row + Z.of_nat i))) ->
  capturedInRows newGrid row rows acc
  = Ret (acc ++ filter (fun c =>
                   stoneAt old (Coordinate.x c) (Coordinate.y c) <> Some EMPTY /\
                   stoneAt newGrid (Coordinate.x c) (Coordinate.y c) = Some EMPTY)
                 (cellsFrom row rows)).
Proof.
  revert row acc. induction rows as [|cells rows IH]; intros row acc Hrow Hold Hnew; simpl.
  { by rewrite app_nil_r. }
  destruct (Hnew 0%nat ltac:(simpl; lia)) as [nrow Hnrow].
  rewrite Z.add_0_r in Hnrow.
  pose proof (Hold 0%nat cells eq_refl) as Hcells. rewrite Z.add_0_r in Hcells.
  rewrite (capturedInRow_removed old newGrid nrow row cells 0 acc Hnrow).
  2:{ intros i v Hv. unfold stoneAt. rewrite Hcells. simpl.
      apply index_Some. rewrite Z.add_0_l, Nat2Z.id. split; [lia | done]. }
  simpl. rewrite IH; [by rewrite filter_app, app_assoc | lia | |].
  - intros i cells' Hi. rewrite <- (Hold (S i) cells' Hi). f_equal. lia.
  - intros i Hi. replace (row + 1 + Z.of_nat i) with (row + Z.of_nat (S i)) by lia.
    apply Hnew. simpl. lia.
Qed.

Lemma capturedInRow_throws (newGrid : Grid) (row : Z) (cells : list StoneColor)
    (col : Z) (acc : list Coordinate) :
  index newGrid row = None -> (exists v, v ∈ cells /\ v <> EMPTY) ->
  capturedInRow newGrid row col cells acc = TypeError.
Proof.
  intros Hrow. revert col acc.
  induction cells as [|v cells IH]; intros col acc (w & Hw & Hstone).
  { by apply elem_of_nil in Hw. }
  simpl. unfold cell_at. rewrite Hrow. simpl.
  case_bool_decide as Hv; [done|].
  apply IH. exists w. split; [|done].
  apply elem_of_cons in Hw as [->|Hw]; [|done].
  exfalso. apply Hstone. by destruct (decide (v = EMPTY)).
Qed.

Lemma capturedInRow_modelled (newGrid : Grid) (row : Z) (cells : list StoneColor)
    (col : Z) (acc : list Coordinate) :
  capturedInRow newGrid row col cells acc <> Unmodelled.
Proof.
  revert col acc. induction cells as [|v cells IH]; intros col acc; simpl; [done|].
  case_bool_decide; [|by apply IH].
  unfold cell_at. destruct (index newGrid row); simpl; [|done].
  case_bool_decide; by apply IH.
Qed.

Lemma capturedInRows_throws (newGrid : Grid) (rows : list (list StoneColor))
    (row : Z) (acc : list Coordinate) (i : nat) (cells : list StoneColor) :
  rows !! i = Some cells -> (exists v, v ∈ cells /\ v <> EMPTY) ->
  index newGrid (row + Z.of_nat i) = None ->
  capturedInRows newGrid row rows acc = TypeError.
Proof.
  revert row acc i. induction rows as [|cells' rows IH]; intros row acc i Hi Hstone Hnone;
    [done|]. simpl.
  destruct i as [|i]; simpl in Hi.
  - injection Hi as ->. rewrite Z.add_0_r in Hnone.
    by rewrite capturedInRow_throws.
  - pose proof (capturedInRow_modelled newGrid row cells' 0 acc) as Hrun.
    destruct (capturedInRow newGrid row 0 cells' acc) as [acc'| |]; simpl; [|done..].
    apply (IH _ _ i); [done..|].
    replace (row + 1 + Z.of_nat i) with (row + Z.of_nat (S i)) by lia. done.
Qed.

(** X15. When the external library applies the move and its sign map has
    a row for every row of the grid, the result is valid, the new grid is
    the decoded sign map, and the ko point is set exactly when one stone
    left the board, to that stone. When a row that holds a stone is
    missing from the sign map, the move is rejected with the message of
    the TypeError and the prior state. *)
Theorem playMove_external_removed (caught : string) (st : BoardState) (x y : Z)
    (next : SabakiBoard) (sm : list (list Z)) :
  ((length (grid st) <= length sm)%nat ->
   valid (playMove_external caught st x y next sm) = true /\
   grid (newState (playMove_external caught st x y next sm)) = map (map ofSign) sm /\
   forall k, koPoint (newState (playMove_external caught st x y next sm)) = Some k <->
             removedStones (grid st) (map (map ofSign) sm) = [k]) /\
  (forall (i : nat) cells v,
     grid st !! i = Some cells -> v ∈ cells -> v <> EMPTY -> (length sm <= i)%nat ->
     playMove_external caught st x y next sm = reject st caught).
Proof.
  unfold playMove_external. split.
  - intros Hrows.
    assert (Hcap : capturedInRows (map (map ofSign) sm) 0 (grid st) []
                   = Ret (removedStones (grid st) (map (map ofSign) sm))).
    { unfold removedStones, gridCells.
      rewrite (capturedInRows_removed (grid st) (map (map ofSign) sm) (grid st) 0 []);
        [done | done | |].
      - intros i cells Hi. apply index_Some. rewrite Z.add_0_l, Nat2Z.id.
        split; [lia | done].
      - intros i Hi. rewrite Z.add_0_l. unfold index.
        destruct (Z.ltb_spec (Z.of_nat i) 0); [lia|]. rewrite Nat2Z.id.
        apply lookup_lt_is_Some_2. rewrite length_map. lia. }
    rewrite Hcap. simpl. split; [done|]. split; [done|]. intros k.
    destruct (removedStones _ _) as [|s [|s' rest]]; simpl;
      (split; [by intros [= ->] | by intros [= ->]]).
  - intros i cells v Hi Hv Hstone Hshort.
    rewrite (capturedInRows_throws _ _ 0 [] i cells Hi); [done | by eauto |].
    rewrite Z.add_0_l. unfold index.
    destruct (Z.ltb_spec (Z.of_nat i) 0); [done|]. rewrite Nat2Z.id.
    apply lookup_ge_None. rewrite length_map. lia.
Qed.

Lemma playMove_external_removed_witness :
  koPoint (newState (playMove_external "" Boards.koShape 1 2 (mkSabakiBoard None None)
                       [[0; 1; 0; 0; 0]; [1; 0; 1; 0; 0]; [0; 1; 0; 0; 0];
                        [0; 0; 0; 0; 0]; [0; 0; 0; 0; 0]]))
    = Some (Coord 1 1) /\
  playMove_external "caught" Boards.koShape 1 2 (mkSabakiBoard None None) [[0; 1; 0; 0; 0]]
    = reject Boards.koShape "caught".
Proof.
  split.
  - apply (playMove_external_removed "" Boards.koShape 1 2 (mkSabakiBoard None None)
             [[0; 1; 0; 0; 0]; [1; 0; 1; 0; 0]; [0; 1; 0; 0; 0];
              [0; 0; 0; 0; 0]; [0; 0; 0; 0; 0]]).
    + vm_compute. lia.
    + vm_compute. reflexivity.
  - apply (proj2 (playMove_external_removed "caught" Boards.koShape 1 2
                    (mkSabakiBoard None None) [[0; 1; 0; 0; 0]])
             1%nat [BLACK; WHITE; BLACK; EMPTY; EMPTY] WHITE).
    + reflexivity.
    + apply list_elem_of_In. simpl. auto.
    + discriminate.
    + simpl. lia.
Defined.

(** ** Areas *)
(** A score is not above 0.5 and below -0.5 at once, nor positive and
    negative at once. *)
Lemma ltb_exclusive (lo hi v : float) :
  Prim2SF lo = S754_finite true 4503599627370496 (-53) \/ Prim2SF lo = S754_zero false ->
  Prim2SF hi = S754_finite false 4503599627370496 (-53) \/ Prim2SF hi = S754_zero false ->
  PrimFloat.ltb hi v = true -> PrimFloat.ltb v lo = false.
Proof.
  rewrite !ltb_spec. unfold SFltb, SFcompare.
  intros [-> | ->] [-> | ->]; destruct (Prim2SF v) as [s|s| |s m e]; try done;
    destruct s; done.
Qed.

Lemma foldl_Counted {B : Type} (f : Area -> B -> Area) (l : list B) (n : Z) (area : Area) :
  (forall m a b, Counted m a -> Counted (m + 1) (f a b)) ->
  Counted n area -> Counted (n + Z.of_nat (length l)) (foldl f area l).
Proof.
  intros Hf. revert n area. induction l as [|b l IH]; intros n area Hn; simpl.
  - by rewrite Z.add_0_r.
  - replace (n + Z.of_nat (S (length l))) with (n + 1 + Z.of_nat (length l)) by lia.
    apply IH, Hf, Hn.
Qed.

Lemma Counted_step (lo hi v : float) (m : Z) (area : Area) :
  (PrimFloat.ltb hi v = true -> PrimFloat.ltb v lo = false) ->
  Counted m area ->
  Counted (m + 1)
    (let area :=
       if PrimFloat.ltb hi v then mkArea (blackArea area + 1) (whiteArea area) else area in
     if PrimFloat.ltb v lo then mkArea (blackArea area) (whiteArea area + 1) else area).
Proof.
  intros Hex [Hb Hw Hs]. simpl.
  destruct (PrimFloat.ltb hi v) eqn:Hhi.
  - rewrite (Hex eq_refl). split; simpl; lia.
  - destruct (PrimFloat.ltb v lo); split; simpl; lia.
Qed.

(** X16. Whatever [Math.exp] and [Math.pow] answer, the influence
    heuristic counts no point for both colours: neither area is negative,
    and together they are at most the number of points of the board. *)
Theorem calculateInfluenceHeuristic_bounds
    (Math_exp : float -> float) (Math_pow : float -> float -> float) (g : Grid) :
  0 <= blackArea (calculateInfluenceHeuristic Math_exp Math_pow g) /\
  0 <= whiteArea (calculateInfluenceHeuristic Math_exp Math_pow g) /\
  blackArea (calculateInfluenceHeuristic Math_exp Math_pow g)
    + whiteArea (calculateInfluenceHeuristic Math_exp Math_pow g)
    <= Z.of_nat (length g) * Z.of_nat (length g).
Proof.
  unfold calculateInfluenceHeuristic.
  set (size := Z.of_nat (length g)).
  assert (Hrows : forall (rows : list Z) m area, Counted m area ->
    Counted (m + size * Z.of_nat (length rows))
      (foldl (fun area y =>
         foldl (fun area x =>
           let val := influenceAt Math_exp Math_pow (influenceStones g) x y in
           let area :=
             if PrimFloat.ltb 0.5%float val
             then mkArea (blackArea area + 1) (whiteArea area) else area in
           if PrimFloat.ltb val (-0.5)%float
           then mkArea (blackArea area) (whiteArea area + 1) else area)
           area (seqZ 0 size)) area rows)).
  { induction rows as [|y rows IH]; intros m area Hm; simpl.
    - by rewrite Z.mul_0_r, Z.add_0_r.
    - replace (m + size * Z.of_nat (S (length rows)))
        with (m + Z.of_nat (length (seqZ 0 size)) + size * Z.of_nat (length rows))
        by (rewrite length_seqZ; lia).
      apply IH, foldl_Counted; [|done].
      intros m' a x Ha. apply Counted_step; [|done].
      apply ltb_exclusive; [by left | by left]. }
  destruct (Hrows (seqZ 0 size) 0 (mkArea 0 0)) as [Hb Hw Hs]; [by split|].
  rewrite length_seqZ, Z2Nat.id, Z.add_0_l in Hs by (unfold size; lia).
  split; [done|]. split; [done|]. exact Hs.
Qed.

(** X17. The summary that [getInfluenceSummary] makes of the map of the
    external library counts no entry for both colours: neither area is
    negative, and together they are at most the number of entries of the
    map. *)
Theorem getInfluenceSummary_bounds
    (influenceMap : list (list Z) -> option (list (list float))) (g : Grid) (area : Area) :
  getInfluenceSummary influenceMap g = Some area ->
  exists map_,
    influenceMap (toSignMap g) = Some map_ /\
    0 <= blackArea area /\ 0 <= whiteArea area /\
    blackArea area + whiteArea area <= Z.of_nat (length (concat map_)).
Proof.
  unfold getInfluenceSummary. intros (map_ & Hmap & ->)%fmap_Some.
  exists map_. split; [done|]. unfold countAreas.
  assert (Hrows : forall (rows : list (list float)) m area, Counted m area ->
    Counted (m + Z.of_nat (length (concat rows)))
      (foldl (fun area row =>
         foldl (fun area value =>
           let area :=
             if PrimFloat.ltb 0%float value
             then mkArea (blackArea area + 1) (whiteArea area) else area in
           if PrimFloat.ltb value 0%float
           then mkArea (blackArea area) (whiteArea area + 1) else area)
           area row) area rows)).
  { induction rows as [|row rows IH]; intros m area Hm; simpl.
    - by rewrite Z.add_0_r.
    - rewrite length_app, Nat2Z.inj_add, Z.add_assoc.
      apply IH, foldl_Counted; [|done].
      intros m' a x Ha. apply Counted_step; [|done].
      apply ltb_exclusive; [by right | by right]. }
  destruct (Hrows map_ 0 (mkArea 0 0)) as [Hb Hw Hs]; [by split|].
  rewrite Z.add_0_l in Hs. split; [done|]. split; [done|]. exact Hs.
Qed.

Lemma getInfluenceSummary_bounds_witness :
  getInfluenceSummary (fun _ => Some [[1%float; 0%float]; [(-1)%float; (-2)%float]])
                      (createEmptyGrid 2) = Some (mkArea 1 2) /\
  1 + 2 <= 4.
Proof.
  split; [reflexivity|].
  destruct (getInfluenceSummary_bounds
              (fun _ => Some [[1%float; 0%float]; [(-1)%float; (-2)%float]])
              (createEmptyGrid 2) (mkArea 1 2) eq_refl) as (map_ & Hmap & _ & _ & Hsum).
  injection Hmap as <-. exact Hsum.
Defined.

(** ** Sign maps *)
Lemma ofSign_toSign (c : StoneColor) : ofSign (toSign c) = c.
Proof. by destruct c. Qed.

(** X18. Decoding the sign map of a grid, as [playMove] decodes the map of
    the external library, gives the grid back. The sign map has the shape
    of the grid, holds only 1, -1 and 0, and is the number grid of the
    shape matcher. *)
Theorem toSignMap_round_trip (g : Grid) :
  map (map ofSign) (toSignMap g) = g /\
  toSignMap g = numGridOf g /\
  length (toSignMap g) = length g /\
  (forall y row, toSignMap g !! y = Some row ->
     exists cells, g !! y = Some cells /\ length row = length cells) /\
  (forall row v, row ∈ toSignMap g -> v ∈ row -> v = 1 \/ v = -1 \/ v = 0).
Proof.
  unfold toSignMap. split; [|split; [done|split; [by rewrite length_map|split]]].
  - rewrite map_map. rewrite <- (map_id g) at 2. apply map_ext. intros row.
    rewrite map_map. rewrite <- (map_id row) at 2. apply map_ext, ofSign_toSign.
  - intros y row Hrow. change (map (map toSign) g) with (map toSign <$> g) in Hrow.
    rewrite list_lookup_fmap in Hrow.
    apply fmap_Some in Hrow as (cells & Hcells & ->).
    exists cells. split; [done|]. apply length_map.
  - intros row v Hrow Hv.
    change (map (map toSign) g) with (map toSign <$> g) in Hrow.
    apply list_elem_of_fmap in Hrow as (cells & -> & _).
    change (map toSign cells) with (toSign <$> cells) in Hv.
    apply list_elem_of_fmap in Hv as (c & -> & _). destruct c; simpl; auto.
Qed.

(** ** Quarter turns *)
Lemma entry_is_Some (N : nat) (g : list (list Z)) (i j : Z) :
  squareGrid N g ->
  is_Some (entry g i j) <-> 0 <= i < Z.of_nat N /\ 0 <= j < Z.of_nat N.
Proof.
  intros [Hlen Hrows]. unfold entry, index. split.
  - intros [v Hv]. destruct (Z.ltb_spec i 0); [done|].
    destruct (g !! Z.to_nat i) as [row|] eqn:Hrow; [|done]. simpl in Hv.
    destruct (Z.ltb_spec j 0); [done|].
    apply lookup_lt_Some in Hrow as Hi, Hv.
    rewrite (Hrows row) in Hv by eauto using list_elem_of_lookup_2. lia.
  - intros [Hi Hj]. destruct (Z.ltb_spec i 0); [lia|].
    destruct (lookup_lt_is_Some_2 g (Z.to_nat i)) as [row Hrow]; [lia|].
    rewrite Hrow. simpl. destruct (Z.ltb_spec j 0); [lia|].
    apply lookup_lt_is_Some_2.
    rewrite (Hrows row) by eauto using list_elem_of_lookup_2. lia.
Qed.

Lemma squareGrid_ext (N : nat) (g h : list (list Z)) :
  squareGrid N g -> squareGrid N h ->
  (forall i j, 0 <= i < Z.of_nat N -> 0 <= j < Z.of_nat N -> entry g i j = entry h i j) ->
  g = h.
Proof.
  intros [Hg Hgrows] [Hh Hhrows] Heq.
  apply list_eq_same_length with N; [done..|].
  intros i row row' Hi Hrow Hrow'. 
  apply list_eq_same_length with N;
    [eauto using list_elem_of_lookup_2..|].
  intros j v v' Hj Hv Hv'.
  specialize (Heq (Z.of_nat i) (Z.of_nat j) ltac:(lia) ltac:(lia)).
  assert (Hix : forall A (a : list A) k w, a !! k = Some w -> index a (Z.of_nat k) = Some w).
  { intros A a k w Hw. apply index_Some. rewrite Nat2Z.id. split; [lia | done]. }
  unfold entry in Heq.
  rewrite (Hix _ _ _ _ Hrow), (Hix _ _ _ _ Hrow') in Heq. simpl in Heq.
  rewrite (Hix _ _ _ _ Hv), (Hix _ _ _ _ Hv') in Heq. congruence.
Qed.

Lemma store2_entry (N : nat) (res : list (list Z)) (i j v : Z) :
  squareGrid N res -> 0 <= i < Z.of_nat N -> 0 <= j < Z.of_nat N ->
  squareGrid N (store2 res i j v) /\
  forall i' j', entry (store2 res i j v) i' j'
                = if bool_decide (i' = i /\ j' = j) then Some v else entry res i' j'.
Proof.
  intros [Hlen Hrows] Hi Hj. unfold store2.
  destruct (index res i) as [row|] eqn:Hrow.
  2:{ exfalso. unfold index in Hrow. destruct (Z.ltb_spec i 0); [lia|].
      apply lookup_ge_None in Hrow. lia. }
  pose proof Hrow as Hrow'. apply index_Some in Hrow' as [_ Hrow'].
  assert (Hlrow : length row = N) by eauto using list_elem_of_lookup_2.
  split.
  - split; [by rewrite length_insert|].
    intros r Hr. apply list_elem_of_lookup in Hr as [k Hk].
    destruct (decide (k = Z.to_nat i)) as [->|Hne].
    + rewrite list_lookup_insert_eq in Hk by (by eapply lookup_lt_Some).
      injection Hk as <-. by rewrite length_insert.
    + rewrite list_lookup_insert_ne in Hk by done.
      eauto using list_elem_of_lookup_2.
  - intros i' j'. unfold entry.
    rewrite (index_insert res i i' _ row Hrow).
    destruct (decide (i' = i)) as [->|Hne]; simpl.
    + destruct (index row j) as [w|] eqn:Hw.
      2:{ exfalso. unfold index in Hw. destruct (Z.ltb_spec j 0); [lia|].
          apply lookup_ge_None in Hw. lia. }
      rewrite (index_insert row j j' _ w Hw), Hrow. simpl.
      destruct (decide (j' = j)) as [->|Hne'].
      * by rewrite bool_decide_eq_true_2.
      * rewrite bool_decide_eq_false_2; [done | by intros [_ ?]].
    + rewrite bool_decide_eq_false_2; [done | by intros [? _]].
Qed.

(** The inner loop of a quarter turn, for the row [r] of [g]. *)
Lemma rotateGrid_row (N : nat) (g : list (list Z)) (r : Z) (cs : list Z)
    (res : list (list Z)) :
  squareGrid N g -> squareGrid N res -> 0 <= r < Z.of_nat N ->
  (forall c, c ∈ cs -> 0 <= c < Z.of_nat N) ->
  let res' :=
    foldl (fun res c =>
             match index g r ≫= (fun row => index row c) with
             | Some v => store2 res c (Z.of_nat N - 1 - r) v
             | None => res
             end) res cs in
  squareGrid N res' /\
  forall i j, entry res' i j
              = if bool_decide (j = Z.of_nat N - 1 - r /\ i ∈ cs)
                then entry g r i else entry res i j.
Proof.
  intros Hg. revert res. induction cs as [|c cs IH]; intros res Hres Hr Hcs; simpl.
  - split; [done|]. intros i j. rewrite bool_decide_eq_false_2; [done|].
    intros [_ []%elem_of_nil].
  - assert (Hc : 0 <= c < Z.of_nat N) by (apply Hcs; left).
    destruct (proj2 (entry_is_Some N g r c Hg) (conj Hr Hc)) as [v Hv].
    unfold entry in Hv. rewrite Hv.
    destruct (store2_entry N res c (Z.of_nat N - 1 - r) v Hres Hc ltac:(lia))
      as [Hsq Hentry].
    destruct (IH _ Hsq Hr) as [Hsq' Hentry']; [by intros; apply Hcs; right|].
    split; [done|]. intros i j. rewrite Hentry', Hentry.
    destruct (decide (j = Z.of_nat N - 1 - r)) as [->|Hj].
    2:{ rewrite !bool_decide_eq_false_2; [done | by intros [? ?]..]. }
    destruct (decide (i ∈ cs)) as [Hi|Hi].
    { rewrite !bool_decide_eq_true_2; [done | split; [done|] ..]; [by right | done]. }
    rewrite (bool_decide_eq_false_2 (_ /\ i ∈ cs)) by (by intros [_ ?]).
    destruct (decide (i = c)) as [->|Hic].
    + rewrite !bool_decide_eq_true_2; [done | split; [done | by left] | done].
    + rewrite !bool_decide_eq_false_2; [done | |by intros [? _]].
      intros [_ [?|?]%elem_of_cons]; done.
Qed.

(** The outer loop. *)
Lemma rotateGrid_rows (N : nat) (g : list (list Z)) (rs : list Z) (res : list (list Z)) :
  squareGrid N g -> squareGrid N res ->
  (forall r, r ∈ rs -> 0 <= r < Z.of_nat N) ->
  let res' :=
    foldl (fun res r =>
      foldl (fun res c =>
               match index g r ≫= (fun row => index row c) with
               | Some v => store2 res c (Z.of_nat N - 1 - r) v
               | None => res
               end) res (seqZ 0 (Z.of_nat N))) res rs in
  squareGrid N res' /\
  forall i j, entry res' i j
              = if bool_decide (Z.of_nat N - 1 - j ∈ rs /\ 0 <= i < Z.of_nat N)
                then entry g (Z.of_nat N - 1 - j) i else entry res i j.
Proof.
  intros Hg. revert res. induction rs as [|r rs IH]; intros res Hres Hrs; simpl.
  - split; [done|]. intros i j. by destruct (entry g (Z.of_nat N - 1 - j) i).
  - assert (Hr : 0 <= r < Z.of_nat N) by (apply Hrs; left).
    destruct (rotateGrid_row N g r (seqZ 0 (Z.of_nat N)) res Hg Hres Hr)
      as [Hsq Hentry].
    { intros c. rewrite elem_of_seqZ. lia. }
    destruct (IH _ Hsq) as [Hsq' Hentry']; [by intros; apply Hrs; right|].
    split; [done|]. intros i j. rewrite Hentry', Hentry.
    destruct (decide (0 <= i < Z.of_nat N)) as [Hi|Hi].
    2:{ rewrite !bool_decide_eq_false_2; [done | intros [H1 H2]..];
          first [done | apply elem_of_seqZ in H2; lia]. }
    destruct (decide (Z.of_nat N - 1 - j ∈ rs)) as [Hj|Hj].
    { rewrite !bool_decide_eq_true_2; [done | split; [|done] ..]; [by right | done]. }
    rewrite (bool_decide_eq_false_2 (_ ∈ rs /\ _)) by (by intros [? _]).
    destruct (decide (j = Z.of_nat N - 1 - r)) as [->|Hjr].
    + rewrite !bool_decide_eq_true_2.
      * by replace (Z.of_nat N - 1 - (Z.of_nat N - 1 - r)) with r by lia.
      * split; [|done]. replace (Z.of_nat N - 1 - (Z.of_nat N - 1 - r)) with r by lia.
        by left.
      * split; [done|]. apply elem_of_seqZ. lia.
    + rewrite !bool_decide_eq_false_2; [done | |by intros [? _]].
      intros [[?|?]%elem_of_cons _]; [lia | done].
Qed.

Lemma rotateGrid_entry (N : nat) (g : list (list Z)) :
  squareGrid N g ->
  squareGrid N (rotateGrid g) /\
  forall i j, 0 <= i < Z.of_nat N -> 0 <= j < Z.of_nat N ->
              entry (rotateGrid g) i j = entry g (Z.of_nat N - 1 - j) i.
Proof.
  intros Hg. pose proof Hg as [Hlen _]. unfold rotateGrid. rewrite Hlen.
  destruct (rotateGrid_rows N g (seqZ 0 (Z.of_nat N)) (replicate N (replicate N 0)) Hg)
    as [Hsq Hentry].
  - split; [by rewrite length_replicate|].
    intros row [-> _]%elem_of_replicate. by rewrite length_replicate.
  - intros r. rewrite elem_of_seqZ. lia.
  - split; [done|]. intros i j Hi Hj. rewrite Hentry.
    rewrite bool_decide_eq_true_2; [done|]. rewrite elem_of_seqZ. lia.
Qed.

(** X19. [rotateGrid] turns a square grid by a quarter: the result is
    square, its entry [i][j] is the entry [N - 1 - j][i] of the grid, and
    four turns give the grid back. *)
Theorem rotateGrid_quarter_turn (N : nat) (g : list (list Z)) :
  squareGrid N g ->
  squareGrid N (rotateGrid g) /\
  (forall i j, 0 <= i < Z.of_nat N -> 0 <= j < Z.of_nat N ->
     entry (rotateGrid g) i j = entry g (Z.of_nat N - 1 - j) i) /\
  rotateGrid (rotateGrid (rotateGrid (rotateGrid g))) = g.
Proof.
  intros Hg.
  destruct (rotateGrid_entry N g Hg) as [H1 E1].
  destruct (rotateGrid_entry N _ H1) as [H2 E2].
  destruct (rotateGrid_entry N _ H2) as [H3 E3].
  destruct (rotateGrid_entry N _ H3) as [H4 E4].
  split; [done|]. split; [done|].
  apply (squareGrid_ext N); [done..|].
  intros i j Hi Hj.
  rewrite E4, E3, E2, E1 by lia. f_equal; lia.
Qed.

Lemma rotateGrid_quarter_turn_witness :
  rotateGrid [[0; 1; 0]; [1; -1; 0]; [1; -1; 0]] = [[1; 1; 0]; [-1; -1; 1]; [0; 0; 0]] /\
  rotateGrid (rotateGrid (rotateGrid (rotateGrid [[0; 1; 0]; [1; -1; 0]; [1; -1; 0]])))
    = [[0; 1; 0]; [1; -1; 0]; [1; -1; 0]].
Proof.
  split; [reflexivity|].
  apply (rotateGrid_quarter_turn 3 [[0; 1; 0]; [1; -1; 0]; [1; -1; 0]]).
  split; [reflexivity|].
  intros row Hrow. apply list_elem_of_In in Hrow.
  repeat (destruct Hrow as [<-|Hrow]; [reflexivity|]). destruct Hrow.
Defined.

(** ** The shape scan on a board without stones *)
Lemma matchAt_no_stones (g : Grid) (pGrid : list (list Z)) (size x y : Z) :
  (forall row s, row ∈ g -> s ∈ row -> s = EMPTY) ->
  hasStoneCell pGrid size = true ->
  matchAt (numGridOf g) pGrid size x y = false.
Proof.
  intros Hempty Hcell. unfold hasStoneCell in Hcell.
  apply existsb_exists in Hcell as (py & Hpy & Hcell).
  apply existsb_exists in Hcell as (px & Hpx & Hcell).
  unfold entry in Hcell.
  destruct (index pGrid py ≫= (fun row => index row px)) as [v|] eqn:Hv; [|done].
  apply andb_true_iff in Hcell as [Hv0 Hv2].
  apply negb_true_iff, bool_decide_eq_false in Hv0, Hv2.
  apply not_true_iff_false. unfold matchAt. rewrite forallb_forall. intros Hall.
  specialize (Hall py Hpy). rewrite forallb_forall in Hall.
  specialize (Hall px Hpx). simpl in Hall. rewrite Hv in Hall.
  rewrite bool_decide_eq_false_2 in Hall by congruence. simpl in Hall.
  apply negb_true_iff, negb_false_iff, bool_decide_eq_true in Hall.
  unfold numGridOf in Hall.
  destruct (index (map (map toSign) g) (y + py)) as [row|] eqn:Hrow; [|done].
  simpl in Hall. apply index_elem_of in Hrow, Hall.
  change (map (map toSign) g) with (map toSign <$> g) in Hrow.
  apply list_elem_of_fmap in Hrow as (cells & -> & Hcells).
  change (map toSign cells) with (toSign <$> cells) in Hall.
  apply list_elem_of_fmap in Hall as (s & -> & Hs).
  rewrite (Hempty cells s Hcells Hs) in Hv0. done.
Qed.

Lemma scanBoard_no_match (numGrid pGrid : list (list Z)) (size : Z) (pat : ShapePattern)
    (colorSign : Z) (found : list string) :
  (forall x y, matchAt numGrid pGrid (patSize pat) x y = false) ->
  scanBoard numGrid pGrid size pat colorSign found = found.
Proof.
  intros Hno. unfold scanBoard.
  apply (foldl_invariant (fun f => f = found)); [done|].
  intros f y _ ->.
  apply (foldl_invariant (fun f => f = found)); [done|].
  intros f x _ ->. by rewrite Hno.
Qed.

Lemma templates_have_stones (pat : ShapePattern) (colorSign : Z) (r : nat) :
  pat ∈ PATTERNS -> colorSign ∈ [1; -1] -> (1 <= r <= 4)%nat ->
  hasStoneCell (templateOf pat colorSign r) (patSize pat) = true.
Proof.
  intros Hpat Hcs Hr.
  apply list_elem_of_In in Hpat, Hcs.
  assert (Hcases : (r = 1 \/ r = 2 \/ r = 3 \/ r = 4)%nat) by lia.
  repeat (destruct Hpat as [<-|Hpat]; [
    repeat (destruct Hcs as [<-|Hcs]; [
      destruct Hcases as [->|[->|[->| ->]]]; vm_compute; reflexivity |]);
    destruct Hcs |]).
  destruct Hpat.
Qed.

Lemma scanRotations_no_stones (g : Grid) (pat : ShapePattern) (colorSign : Z)
    (found : list string) :
  (forall row s, row ∈ g -> s ∈ row -> s = EMPTY) ->
  pat ∈ PATTERNS -> colorSign ∈ [1; -1] ->
  scanRotations g pat colorSign found = found.
Proof.
  intros Hempty Hpat Hcs. unfold scanRotations.
  change (seqZ 0 4) with [0; 1; 2; 3]. cbn [foldl snd].
  pose proof (fun r Hr x y =>
    matchAt_no_stones g (templateOf pat colorSign r) (patSize pat) x y Hempty
      (templates_have_stones pat colorSign r Hpat Hcs Hr)) as Hno.
  unfold templateOf in Hno.
  rewrite (scanBoard_no_match _ _ _ _ _ found (Hno 1%nat ltac:(lia))).
  rewrite (scanBoard_no_match _ _ _ _ _ found (Hno 2%nat ltac:(lia))).
  rewrite (scanBoard_no_match _ _ _ _ _ found (Hno 3%nat ltac:(lia))).
  apply (scanBoard_no_match _ _ _ _ _ found (Hno 4%nat ltac:(lia))).
Qed.

(** X20. On a grid without stones, of any size, the shape scan finds
    nothing: every template of every pattern, colour and turn has a stone
    cell, which no window of the board matches. *)
Theorem findShapesHeuristic_no_stones (g : Grid) :
  (forall row s, row ∈ g -> s ∈ row -> s = EMPTY) ->
  findShapesHeuristic g = [].
Proof.
  intros Hempty. unfold findShapesHeuristic.
  apply (foldl_invariant (fun found => found = [])); [done|].
  intros found pat Hpat ->.
  apply (foldl_invariant (fun found => found = [])); [done|].
  intros found colorSign Hcs ->.
  by apply scanRotations_no_stones.
Qed.

Lemma findShapesHeuristic_no_stones_witness :
  findShapesHeuristic (createEmptyGrid 5) = [].
Proof.
  apply (findShapesHeuristic_no_stones (createEmptyGrid 5)).
  intros row s Hrow Hs.
  apply list_elem_of_In in Hrow. apply list_elem_of_In in Hs.
  vm_compute in Hrow.
  repeat (destruct Hrow as [<-|Hrow]; [vm_compute in Hs; intuition congruence|]).
  destruct Hrow.
Defined.

(** ** The anchor of a pattern *)
Lemma pushVertex_anchors (pGrid : list (list Z)) (y : Z) (cells : list Z) (col : Z)
    (acc : SignedVertices) :
  (forall i v, cells !! i = Some v ->
     index pGrid y ≫= (fun row => index row (col + Z.of_nat i)) = Some v) ->
  anchors (foldl (pushVertex y) acc (indexedFrom col cells))
  = match anchors acc with
    | [] => anchorOf (head (filter (stoneCell pGrid) (rowCells y col cells)))
    | _ => anchors acc
    end.
Proof.
  revert col acc. induction cells as [|v cells IH]; intros col acc Hcells; simpl.
  { by destruct (anchors acc). }
  assert (Hv : index pGrid y ≫= (fun row => index row col) = Some v).
  { rewrite <- (Hcells 0%nat v eq_refl). by rewrite Z.add_0_r. }
  rewrite IH.
  2:{ intros i w Hw. rewrite <- (Hcells (S i) w Hw).
      by replace (col + 1 + Z.of_nat i) with (col + Z.of_nat (S i)) by lia. }
  assert (Hcell : stoneCell pGrid (Coord col y) <-> v <> 2 /\ v <> 0).
  { unfold stoneCell. simpl. rewrite Hv. split.
    - intros (_ & ? & ?). split; congruence.
    - intros [? ?]. split; [done | split; congruence]. }
  rewrite filter_cons. unfold pushVertex.
  destruct (decide (v = 2)) as [->|Hv2].
  { rewrite decide_False; [done | rewrite Hcell; by intros [? _]]. }
  destruct (decide (v = 0)) as [->|Hv0]; simpl.
  { rewrite andb_false_r. simpl. rewrite decide_False; [done | rewrite Hcell; by intros [_ ?]]. }
  rewrite (bool_decide_eq_false_2 (v = 0)) by done. rewrite andb_true_r.
  rewrite decide_True by (by apply Hcell).
  by destruct (anchors acc) as [|a rest] eqn:Hacc.
Qed.

Lemma toSignedVertices_rows (pGrid : list (list Z)) (rows : list (list Z)) (r : Z)
    (acc : SignedVertices) :
  0 <= r ->
  (forall i row, rows !! i = Some row -> index pGrid (r + Z.of_nat i) = Some row) ->
  anchors (foldl (fun acc '(y, row) => foldl (pushVertex y) acc (indexedFrom 0 row))
                 acc (indexedFrom r rows))
  = match anchors acc with
    | [] => anchorOf (head (filter (stoneCell pGrid) (cellsFrom r rows)))
    | _ => anchors acc
    end.
Proof.
  revert r acc. induction rows as [|row rows IH]; intros r acc Hr Hrows; simpl.
  { by destruct (anchors acc). }
  pose proof (Hrows 0%nat row eq_refl) as Hrow. rewrite Z.add_0_r in Hrow.
  rewrite IH; [|lia|].
  2:{ intros i row' Hi. rewrite <- (Hrows (S i) row' Hi). f_equal. lia. }
  rewrite (pushVertex_anchors pGrid).
  2:{ intros i v Hv. rewrite Hrow. simpl. apply index_Some.
      rewrite Z.add_0_l, Nat2Z.id. split; [lia | done]. }
  rewrite filter_app.
  destruct (anchors acc) as [|a rest]; [|done].
  destruct (filter (stoneCell pGrid) (rowCells r 0 row)) as [|c cs]; done.
Qed.

Lemma pushVertex_wellAnchored (y : Z) (acc : SignedVertices) (cell : Z * Z) :
  wellAnchored acc -> wellAnchored (pushVertex y acc cell).
Proof.
  intros [Hwild Hanchor]. destruct cell as [x value]. unfold pushVertex.
  destruct (decide (value = 2)) as [->|Hv2]; [done|].
  assert (Hsigned : (if decide (value = 0) then 0 else value) = value).
  { by destruct (decide (value = 0)). }
  rewrite Hsigned.
  assert (Hold : forall a, a ∈ anchors acc ->
            exists v, (a, v) ∈ vertices acc ++ [((x, y), value)] /\ v <> 0).
  { intros a (v & Hv & Hne)%Hanchor. exists v. split; [|done].
    apply elem_of_app. by left. }
  assert (Hnew : forall p v, (p, v) ∈ vertices acc ++ [((x, y), value)] -> v <> 2).
  { intros p v [Hv|Hv%list_elem_of_singleton]%elem_of_app; [by eapply Hwild|].
    by injection Hv as _ ->. }
  destruct (bool_decide (length (anchors acc) = 0%nat)); simpl; [|by split].
  case_bool_decide as Hzero; simpl; [by split|].
  split; [done|]. simpl. intros a [Ha|Ha%list_elem_of_singleton]%elem_of_app; [by apply Hold|].
  subst a. exists value. split; [|done]. apply elem_of_app. right. left.
Qed.

(** X21. [toSignedVertices] gives a pattern at most one anchor: the first
    cell, row by row, whose value is neither the wildcard 2 nor 0, and
    none when the pattern has no such cell. No vertex is a wildcard, and
    the anchor is one of the vertices, with a sign. *)
Theorem toSignedVertices_anchor (pattern : ShapePattern) :
  anchors (toSignedVertices pattern)
    = match firstStonePoint (patGrid pattern) with
      | Some c => [(Coordinate.x c, Coordinate.y c)]
      | None => []
      end /\
  (forall p v, (p, v) ∈ vertices (toSignedVertices pattern) -> v <> 2) /\
  (forall a, a ∈ anchors (toSignedVertices pattern) ->
     exists v, (a, v) ∈ vertices (toSignedVertices pattern) /\ v <> 0).
Proof.
  split.
  - unfold toSignedVertices.
    rewrite (toSignedVertices_rows (patGrid pattern)); [done | done |].
    intros i row Hi. apply index_Some. rewrite Z.add_0_l, Nat2Z.id. split; [lia | done].
  - change (wellAnchored (toSignedVertices pattern)). unfold toSignedVertices.
    apply foldl_invariant.
    + split; [by intros p v ?%elem_of_nil | by intros a ?%elem_of_nil].
    + intros acc [y row] _ Hacc. apply foldl_invariant; [done|].
      intros acc' cell _. apply pushVertex_wellAnchored.
Qed.

(** ** The safety scan on other boards *)
Lemma forJs_skip {S : Type} (body : Z -> S -> Js S) (range : list Z) (st : S) :
  (forall i, i ∈ range -> body i st = Ret st) -> forJs body range st = Ret st.
Proof.
  induction range as [|i range IH]; intros Hbody; simpl; [done|].
  rewrite Hbody by left. simpl. apply IH. intros j Hj. apply Hbody. by right.
Qed.

(** X22. On a grid without stones whose rows are at least as long as the
    grid is high, of any size, the safety scan returns the empty report. *)
Theorem analyzeSafetyHeuristic_no_stones (g : Grid) :
  (forall row, row ∈ g -> (length g <= length row)%nat) ->
  (forall row s, row ∈ g -> s ∈ row -> s = EMPTY) ->
  analyzeSafetyHeuristic g = Ret [].
Proof.
  intros Hwide Hempty. unfold analyzeSafetyHeuristic.
  rewrite forJs_skip; [done|].
  intros y Hy%elem_of_seqZ. apply forJs_skip.
  intros x Hx%elem_of_seqZ. unfold safetyVisit.
  destruct (lookup_lt_is_Some_2 g (Z.to_nat y)) as [row Hrow]; [lia|].
  assert (Hin : row ∈ g) by eauto using list_elem_of_lookup_2.
  destruct (lookup_lt_is_Some_2 row (Z.to_nat x)) as [s Hs].
  { specialize (Hwide row Hin). lia. }
  assert (Hstone : stoneAt g x y = Some s).
  { unfold stoneAt. rewrite (proj2 (index_Some g y row)) by (split; [lia | done]).
    simpl. apply index_Some. split; [lia | done]. }
  rewrite Hstone, (Hempty row s Hin) by eauto using list_elem_of_lookup_2. done.
Qed.

Lemma analyzeSafetyHeuristic_no_stones_witness :
  analyzeSafetyHeuristic (createEmptyGrid 5) = Ret [].
Proof.
  apply (analyzeSafetyHeuristic_no_stones (createEmptyGrid 5)).
  - intros row Hrow. apply list_elem_of_In in Hrow. vm_compute in Hrow.
    repeat (destruct Hrow as [<-|Hrow]; [vm_compute; lia|]). destruct Hrow.
  - intros row s Hrow Hs.
    apply list_elem_of_In in Hrow. apply list_elem_of_In in Hs.
    vm_compute in Hrow.
    repeat (destruct Hrow as [<-|Hrow]; [vm_compute in Hs; intuition congruence|]).
    destruct Hrow.
Defined.

Lemma forJs_modelled {S : Type} (body : Z -> S -> Js S) (I : S -> Prop)
    (range : list Z) (st : S) :
  (forall j st, j ∈ range -> I st -> body j st <> Unmodelled) ->
  (forall j st st', j ∈ range -> I st -> body j st = Ret st' -> I st') ->
  I st ->
  forJs body range st <> Unmodelled /\
  forall st', forJs body range st = Ret st' -> I st'.
Proof.
  intros Hrun Hkeep. revert st.
  induction range as [|j range IH]; intros st Hst; simpl.
  { split; [done | by intros st' [= <-]]. }
  pose proof (Hrun j st ltac:(left) Hst) as Hj.
  destruct (body j st) as [st1| |] eqn:Hbody; simpl; [|done..].
  apply IH.
  - intros j' st0 Hj'. apply Hrun. by right.
  - intros j' st0 st0' Hj'. apply Hkeep. by right.
  - by eapply (Hkeep j st); [left|..].
Qed.

Lemma forJs_throws {S : Type} (body : Z -> S -> Js S) (I : S -> Prop)
    (range : list Z) (i : Z) (st : S) :
  i ∈ range ->
  (forall j st, j ∈ range -> I st -> body j st <> Unmodelled) ->
  (forall j st st', j ∈ range -> I st -> body j st = Ret st' -> I st') ->
  (forall st, I st -> body i st = TypeError) ->
  I st -> forJs body range st = TypeError.
Proof.
  intros Hi Hrun Hkeep Hthrow. revert st.
  induction range as [|j range IH]; intros st Hst; simpl.
  { by apply elem_of_nil in Hi. }
  destruct (decide (j = i)) as [->|Hne]; [by rewrite Hthrow|].
  pose proof (Hrun j st ltac:(left) Hst) as Hj.
  destruct (body j st) as [st1| |] eqn:Hbody; simpl; [|done..].
  apply IH.
  - apply elem_of_cons in Hi as [?|?]; [congruence | done].
  - intros j' st0 Hj'. apply Hrun. by right.
  - intros j' st0 st0' Hj'. apply Hkeep. by right.
  - by eapply (Hkeep j st); [left|..].
Qed.

Lemma libertiesOf_modelled (g : Grid) (ns : list Coordinate) (libs : gset Coordinate) :
  libertiesOf g ns libs <> Unmodelled.
Proof.
  revert libs. induction ns as [|n ns IH]; intros libs; simpl; [done|].
  unfold cell_at. destruct (index g (Coordinate.y n)); simpl; [apply IH | done].
Qed.

Lemma groupLiberties_modelled (g : Grid) (grp : list Coordinate) (libs : gset Coordinate) :
  groupLiberties g grp libs <> Unmodelled.
Proof.
  revert libs. induction grp as [|s grp IH]; intros libs; simpl; [done|].
  pose proof (libertiesOf_modelled g
    (getNeighbors (Coordinate.x s) (Coordinate.y s) BOARD_SIZE) libs) as Hrun.
  destruct (libertiesOf g _ libs); simpl; [apply IH | done..].
Qed.

Lemma safetyVisit_aboveBottom (g : Grid) (x y : Z) (st st' : gset Coordinate * list string) :
  (0 < length g < 19)%nat ->
  aboveBottom g st -> safetyVisit g x y st = Ret st' -> aboveBottom g st'.
Proof.
  intros Hlen Hst Hvisit. destruct st as [visited report]. unfold safetyVisit in Hvisit.
  destruct (stoneAt g x y) as [[| |]|]; try done; try (by injection Hvisit as <-).
  all: case_bool_decide; [by injection Hvisit as <-|].
  all: js_inv Hvisit; js_inv Hvisit.
  all: assert (Hnew : aboveBottom g (list_to_set (group v) ∪ visited, report))
         by (intros c Hc; simpl in Hc;
             apply elem_of_union in Hc as [Hc%elem_of_list_to_set|Hc];
             [eapply rowsAround_bottom, checkLiberties_rows; eauto | by apply Hst]).
  all: destruct (Z.of_nat (size v0) <=? 2); [|by injection Hvisit as <-].
  all: destruct (head (group v)); [by injection Hvisit as <-|done].
Qed.

Lemma safetyVisit_modelled (g : Grid) (x y : Z) (st : gset Coordinate * list string) :
  is_Some (stoneAt g x y) -> safetyVisit g x y st <> Unmodelled.
Proof.
  intros [s Hs]. destruct st as [visited report]. unfold safetyVisit. rewrite Hs.
  destruct s; [done|..].
  all: case_bool_decide; [done|].
  all: match goal with |- context [checkLiberties ?g' ?x' ?y' ?c] =>
         pose proof (checkLiberties_modelled g' x' y' c) as Hrun;
         destruct (checkLiberties g' x' y' c) as [res| |]; simpl; [|done..] end.
  all: pose proof (groupLiberties_modelled g (group res) ∅) as Hlibs.
  all: destruct (groupLiberties g (group res) ∅) as [libs| |]; simpl; [|done..].
  all: destruct (Z.of_nat (size libs) <=? 2); [|done].
  all: by destruct (head (group res)).
Qed.

(** X23. On a grid with fewer than 19 rows, whose rows are at least as
    long as the grid is high, the safety scan throws a TypeError as soon
    as the bottom row holds a stone. *)
Theorem analyzeSafetyHeuristic_bottom_row_throws (g : Grid) (x : Z) (s : StoneColor) :
  (length g < 19)%nat ->
  (forall row, row ∈ g -> (length g <= length row)%nat) ->
  stoneAt g x (Z.of_nat (length g) - 1) = Some s -> s <> EMPTY ->
  0 <= x < Z.of_nat (length g) ->
  analyzeSafetyHeuristic g = TypeError.
Proof.
  intros Hlen Hwide Hstone Hs Hx.
  assert (Hpos : (0 < length g < 19)%nat) by lia.
  assert (Hdef : forall x' y', 0 <= x' < Z.of_nat (length g) ->
                               0 <= y' < Z.of_nat (length g) -> is_Some (stoneAt g x' y')).
  { intros x' y' Hx' Hy'. apply stoneAt_is_Some.
    destruct (lookup_lt_is_Some_2 g (Z.to_nat y')) as [row Hrow]; [lia|].
    exists row. split; [done|]. split; [lia|].
    specialize (Hwide row ltac:(eauto using list_elem_of_lookup_2)). lia. }
  unfold analyzeSafetyHeuristic.
  rewrite (forJs_throws _ (aboveBottom g) _ (Z.of_nat (length g) - 1)); [done|..].
  - apply elem_of_seqZ. lia.
  - intros y st Hy%elem_of_seqZ Hst.
    apply (forJs_modelled _ (aboveBottom g)); [| |done].
    + intros x' st0 Hx'%elem_of_seqZ _. apply safetyVisit_modelled, Hdef; lia.
    + intros x' st0 st0' _. by apply safetyVisit_aboveBottom.
  - intros y st st' Hy%elem_of_seqZ Hst.
    apply (forJs_modelled _ (aboveBottom g)); [| |done].
    + intros x' st0 Hx'%elem_of_seqZ _. apply safetyVisit_modelled, Hdef; lia.
    + intros x' st0 st0' _. by apply safetyVisit_aboveBottom.
  - intros st Hst.
    apply (forJs_throws _ (aboveBottom g) _ x); [| | | |done].
    + apply elem_of_seqZ. lia.
    + intros x' st0 Hx'%elem_of_seqZ _. apply safetyVisit_modelled, Hdef; lia.
    + intros x' st0 st0' _. by apply safetyVisit_aboveBottom.
    + intros [visited report] Hst0. unfold safetyVisit. rewrite Hstone.
      assert (Hnew : Coord x (Z.of_nat (length g) - 1) ∉ visited).
      { intros Hin. by apply (Hst0 _ Hin). }
      assert (Hthrow : forall color,
                checkLiberties g x (Z.of_nat (length g) - 1) color = TypeError).
      { intros color. unfold checkLiberties, checkLiberties_fuel.
        cbn [checkLiberties_loop].
        rewrite bool_decide_eq_false_2 by apply not_elem_of_empty.
        cbn [Coordinate.x Coordinate.y].
        rewrite scanNeighbors_throws; [done|]. by apply bottom_row_neighbor. }
      destruct s; [done|..]; rewrite bool_decide_eq_false_2 by done;
        by rewrite Hthrow.
  - by intros c ?%elem_of_empty.
Qed.

Lemma analyzeSafetyHeuristic_bottom_row_throws_witness :
  analyzeSafetyHeuristic (grid Boards.smallCorner) = TypeError.
Proof.
  apply (analyzeSafetyHeuristic_bottom_row_throws (grid Boards.smallCorner) 1 WHITE).
  - vm_compute. lia.
  - intros row Hrow. apply list_elem_of_In in Hrow. vm_compute in Hrow.
    repeat (destruct Hrow as [<-|Hrow]; [vm_compute; lia|]). destruct Hrow.
  - reflexivity.
  - discriminate.
  - change (0 <= 1 < 5). lia.
Defined.

(** ** SGF move values *)
(** X24. Writing a move and reading it back. The value that the fallback
    of [generateSGF] writes is read back as the same coordinates, for
    every coordinate from -97 to 65438, the pass (-1, -1) included. The
    value that [buildSabakiTreeFromGameTree] writes is read back as the
    same coordinates, unless one of them is -1: then the move is written
    as the empty value and read back as the pass (-1, -1). *)
Theorem moveOfValue_round_trip (x y : Z) :
  -97 <= x < 65439 -> -97 <= y < 65439 ->
  moveOfValue (valueOfMove_fallback (Some x) (Some y)) = (Some x, Some y) /\
  moveOfValue (valueOfMove (Some x) (Some y))
    = if bool_decide (x = -1 \/ y = -1) then (Some (-1), Some (-1)) else (Some x, Some y).
Proof.
  intros Hx Hy.
  assert (Hdecode : moveOfValue (fromCharCode (Some (x + 97)) ++ fromCharCode (Some (y + 97)))
                    = (Some x, Some y)).
  { unfold moveOfValue, fromCharCode, charCodeAt. simpl.
    rewrite !Z.mod_small by lia. do 2 f_equal; lia. }
  split; [done|]. unfold valueOfMove. simpl.
  destruct (decide (x = -1)) as [->|Hx1].
  { by rewrite (bool_decide_eq_true_2 (_ \/ _)) by by left. }
  destruct (decide (y = -1)) as [->|Hy1].
  { rewrite (bool_decide_eq_true_2 (_ \/ _)) by (by right).
    by rewrite orb_true_r. }
  rewrite !bool_decide_eq_false_2; [done | | congruence..].
  by intros [?|?].
Qed.

Lemma moveOfValue_round_trip_witness :
  moveOfValue (valueOfMove_fallback (Some (-1)) (Some (-1))) = (Some (-1), Some (-1)) /\
  valueOfMove_fallback (Some (-1)) (Some (-1)) = [96; 96] /\
  moveOfValue (valueOfMove (Some 3) (Some (-1))) = (Some (-1), Some (-1)).
Proof.
  destruct (moveOfValue_round_trip (-1) (-1)) as [Hpass _]; [lia..|].
  destruct (moveOfValue_round_trip 3 (-1)) as [_ Hlost]; [lia..|].
  split; [exact Hpass|]. split; [reflexivity | exact Hlost].
Defined.

(** X25. Reading a value and writing it back. A value of two code units
    is written back unchanged by the fallback of [generateSGF], and by
    [buildSabakiTreeFromGameTree] when neither unit is 96. A value of one
    code unit has no second coordinate and comes back from the fallback
    with the code unit 0 added. The empty value, the pass, comes back
    empty from [buildSabakiTreeFromGameTree] and as two units 96 from the
    fallback. *)
Theorem valueOfMove_round_trip (val : list Z) :
  (forall c, c ∈ val -> 0 <= c < 65536) ->
  (length val = 2%nat ->
   valueOfMove_fallback (moveOfValue val).1 (moveOfValue val).2 = val) /\
  (length val = 2%nat -> 96 ∉ val ->
   valueOfMove (moveOfValue val).1 (moveOfValue val).2 = val) /\
  (length val = 1%nat ->
   exists c, val = [c] /\
             valueOfMove_fallback (moveOfValue val).1 (moveOfValue val).2 = [c; 0]) /\
  (val = [] -> valueOfMove (moveOfValue val).1 (moveOfValue val).2 = [] /\
               valueOfMove_fallback (moveOfValue val).1 (moveOfValue val).2 = [96; 96]).
Proof.
  intros Hunits. split; [|split; [|split]].
  - intros Hlen. destruct val as [|a [|b [|]]]; try done.
    pose proof (Hunits a ltac:(left)). pose proof (Hunits b ltac:(right; left)).
    unfold moveOfValue, valueOfMove_fallback, charCodeAt. simpl.
    replace (a - 97 + 97) with a by lia. replace (b - 97 + 97) with b by lia.
    by rewrite !Z.mod_small by lia.
  - intros Hlen Hpass. destruct val as [|a [|b [|]]]; try done.
    pose proof (Hunits a ltac:(left)). pose proof (Hunits b ltac:(right; left)).
    unfold moveOfValue, valueOfMove, charCodeAt. simpl.
    rewrite !bool_decide_eq_false_2.
    + simpl. replace (a - 97 + 97) with a by lia. replace (b - 97 + 97) with b by lia.
      by rewrite !Z.mod_small by lia.
    + intros [= Hb]. apply Hpass. replace b with 96 by lia. right; left.
    + intros [= Ha]. apply Hpass. replace a with 96 by lia. left.
  - intros Hlen. destruct val as [|a [|]]; try done.
    pose proof (Hunits a ltac:(left)). exists a. split; [done|].
    unfold moveOfValue, valueOfMove_fallback, charCodeAt. simpl.
    replace (a - 97 + 97) with a by lia. by rewrite Z.mod_small by lia.
  - intros ->. done.
Qed.

Lemma valueOfMove_round_trip_witness :
  valueOfMove (moveOfValue [112; 100]).1 (moveOfValue [112; 100]).2 = [112; 100] /\
  moveOfValue [112; 100] = (Some 15, Some 3).
Proof.
  split; [|reflexivity].
  apply (valueOfMove_round_trip [112; 100]).
  - intros c Hc. apply list_elem_of_In in Hc. simpl in Hc.
    destruct Hc as [<-|[<-|[]]]; lia.
  - reflexivity.
  - intros Hin. apply list_elem_of_In in Hin. simpl in Hin.
    destruct Hin as [Hin|[Hin|[]]]; discriminate Hin.
Defined.

(** ** The marker map *)
Lemma markerAt_is_Some (N : nat) (m : MarkerMap) (x y : Z) :
  squareMap N m ->
  is_Some (markerAt m x y) <-> 0 <= x < Z.of_nat N /\ 0 <= y < Z.of_nat N.
Proof.
  unfold MarkerMap in *. intros [Hlen Hrows]. unfold markerAt, index. split.
  - intros [v Hv]. destruct (Z.ltb_spec y 0); [done|].
    destruct (m !! Z.to_nat y) as [row|] eqn:Hrow; [|done]. simpl in Hv.
    destruct (Z.ltb_spec x 0); [done|].
    apply lookup_lt_Some in Hrow as Hy, Hv.
    rewrite (Hrows row) in Hv by eauto using list_elem_of_lookup_2. lia.
  - intros [Hx Hy]. destruct (Z.ltb_spec y 0); [lia|].
    destruct (lookup_lt_is_Some_2 m (Z.to_nat y)) as [row Hrow]; [lia|].
    rewrite Hrow. simpl. destruct (Z.ltb_spec x 0); [lia|].
    apply lookup_lt_is_Some_2.
    rewrite (Hrows row) by eauto using list_elem_of_lookup_2. lia.
Qed.

Lemma store_markerAt (N : nat) (m : MarkerMap) (row : list (option string))
    (x y : Z) (old v : option string) :
  squareMap N m -> index m y = Some row -> index row x = Some old ->
  squareMap N (<[Z.to_nat y := <[Z.to_nat x := v]> row]> m) /\
  forall x' y', markerAt (<[Z.to_nat y := <[Z.to_nat x := v]> row]> m) x' y'
                = if bool_decide (x' = x /\ y' = y) then Some v else markerAt m x' y'.
Proof.
  unfold squareMap, MarkerMap in *. intros [Hlen Hrows] Hrow Hold.
  pose proof Hrow as Hrow'. apply index_Some in Hrow' as [_ Hrow'].
  assert (Hlrow : length row = N) by eauto using list_elem_of_lookup_2.
  split.
  - split; [by rewrite length_insert|].
    intros r Hr. apply list_elem_of_lookup in Hr as [k Hk].
    destruct (decide (k = Z.to_nat y)) as [->|Hne].
    + rewrite list_lookup_insert_eq in Hk by (by eapply lookup_lt_Some).
      injection Hk as <-. by rewrite length_insert.
    + rewrite list_lookup_insert_ne in Hk by done.
      eauto using list_elem_of_lookup_2.
  - intros x' y'. unfold markerAt.
    rewrite (index_insert m y y' _ row Hrow).
    destruct (decide (y' = y)) as [->|Hne]; simpl.
    + rewrite (index_insert row x x' _ old Hold), Hrow. simpl.
      destruct (decide (x' = x)) as [->|Hne'].
      * by rewrite bool_decide_eq_true_2.
      * rewrite bool_decide_eq_false_2; [done | by intros [? _]].
    + rewrite bool_decide_eq_false_2; [done | by intros [_ ?]].
Qed.

Lemma setMarker_markerAt (N : nat) (m : MarkerMap) (marker : Marker) :
  squareMap N m ->
  squareMap N (setMarker m marker) /\
  forall x y, markerAt (setMarker m marker) x y
              = if bool_decide (markerOn x y marker /\ is_Some (markerAt m x y))
                then Some (Some (markerLabel marker)) else markerAt m x y.
Proof.
  intros Hsq. unfold setMarker.
  destruct (index m (markerY marker)) as [row|] eqn:Hrow.
  2:{ split; [done|]. intros x y. rewrite bool_decide_eq_false_2; [done|].
      intros [[<- <-] [v Hv]]. unfold markerAt in Hv. by rewrite Hrow in Hv. }
  destruct (index row (markerX marker)) as [old|] eqn:Hold.
  2:{ split; [done|]. intros x y. rewrite bool_decide_eq_false_2; [done|].
      intros [[<- <-] [v Hv]]. unfold markerAt in Hv. rewrite Hrow in Hv. simpl in Hv.
      by rewrite Hold in Hv. }
  destruct (store_markerAt N m row (markerX marker) (markerY marker) old
              (Some (markerLabel marker)) Hsq Hrow Hold) as [Hsq' Hat].
  split; [done|]. intros x y. rewrite Hat. unfold markerOn.
  destruct (decide (x = markerX marker /\ y = markerY marker)) as [[-> ->]|Hne].
  - rewrite !bool_decide_eq_true_2; [done | | done].
    split; [done|]. unfold markerAt. rewrite Hrow. simpl. by rewrite Hold.
  - rewrite !bool_decide_eq_false_2; [done | | done].
    intros [[? ?] _]. apply Hne. by split.
Qed.

Lemma foldl_setMarker (N : nat) (ms : list Marker) (m : MarkerMap) :
  squareMap N m ->
  squareMap N (foldl setMarker m ms) /\
  forall x y, markerAt (foldl setMarker m ms) x y
              = match last (filter (markerOn x y) ms) with
                | Some marker =>
                    if bool_decide (is_Some (markerAt m x y))
                    then Some (Some (markerLabel marker)) else None
                | None => markerAt m x y
                end.
Proof.
  intros Hsq. induction ms as [|marker ms IH] using rev_ind; [done|].
  destruct IH as [Hsq' Hat]. rewrite foldl_app. simpl.
  destruct (setMarker_markerAt N (foldl setMarker m ms) marker Hsq') as [Hsq'' Hat'].
  split; [done|]. intros x y. rewrite Hat', filter_app, filter_cons, filter_nil.
  assert (Hsome : is_Some (markerAt (foldl setMarker m ms) x y) <-> is_Some (markerAt m x y)).
  { by rewrite (markerAt_is_Some N _ x y Hsq'), (markerAt_is_Some N _ x y Hsq). }
  destruct (decide (markerOn x y marker)) as [Hon|Hoff].
  - rewrite last_snoc.
    destruct (decide (is_Some (markerAt m x y))) as [Hin|Hout].
    + rewrite !bool_decide_eq_true_2; [done | done | by split; [|apply Hsome]].
    + rewrite !bool_decide_eq_false_2; [|done | by intros [_ ?%Hsome]].
      rewrite Hat. destruct (last (filter (markerOn x y) ms)).
      * by rewrite bool_decide_eq_false_2.
      * destruct (markerAt m x y); [by destruct Hout|done].
  - rewrite app_nil_r. rewrite bool_decide_eq_false_2 by (by intros [? _]). apply Hat.
Qed.

(** X26. The marker map has [boardSize] rows of [boardSize] points. A
    point holds the label of the last marker placed on it; without a
    marker it holds the circle when it is the last move, and nothing
    otherwise. Markers off the board are ignored, and an absent marker
    list counts as empty. *)
Theorem markerMap_entries (boardSize : Z) (lastMove : option Coordinate)
    (markers : option (list Marker)) (m : MarkerMap) :
  markerMap boardSize lastMove markers = Ret m ->
  length m = Z.to_nat boardSize /\
  (forall row, row ∈ m -> length row = Z.to_nat boardSize) /\
  forall x y,
    markerAt m x y
    = if bool_decide (0 <= x < boardSize /\ 0 <= y < boardSize) then
        Some match last (filter (markerOn x y) (default [] markers)) with
             | Some marker => Some (markerLabel marker)
             | None => if bool_decide (lastMove = Some (Coord x y))
                       then Some "circle" else None
             end
      else None.
Proof.
  unfold markerMap. intros Hrun.
  set (N := Z.to_nat boardSize) in *.
  set (m0 := replicate N (replicate N None)) in *.
  assert (Hsq0 : squareMap N m0).
  { split; [apply length_replicate|].
    intros row [-> _]%elem_of_replicate. apply length_replicate. }
  assert (Hat0 : forall x y, is_Some (markerAt m0 x y) -> markerAt m0 x y = Some None).
  { intros x y [v Hv]. rewrite Hv. unfold markerAt in Hv.
    destruct (index m0 y) as [row|] eqn:Hrow; [|done]. simpl in Hv.
    apply index_elem_of in Hrow, Hv.
    apply elem_of_replicate in Hrow as [-> _].
    by apply elem_of_replicate in Hv as [-> _]. }
  js_inv Hrun. injection Hrun as <-. rename v into m1, Hv into Hm1.
  replace (match markers with Some ms => foldl setMarker m1 ms | None => m1 end)
    with (foldl setMarker m1 (default [] markers)) by by destruct markers.
  assert (Hm1' : squareMap N m1 /\
            forall x y, markerAt m1 x y
                        = if bool_decide (lastMove = Some (Coord x y) /\ is_Some (markerAt m0 x y))
                          then Some (Some "circle") else markerAt m0 x y).
  { destruct lastMove as [[cx cy]|]; simpl in Hm1.
    - destruct (index m0 cy) as [row|] eqn:Hrow; [|done].
      destruct (index row cx) as [old|] eqn:Hold; [|done].
      injection Hm1 as <-.
      destruct (store_markerAt N m0 row cx cy old (Some "circle") Hsq0 Hrow Hold)
        as [Hsq1 Hat1].
      split; [done|]. intros x y. rewrite Hat1.
      destruct (decide (x = cx /\ y = cy)) as [[-> ->]|Hne].
      + rewrite !bool_decide_eq_true_2; [done | | done].
        split; [done|]. unfold markerAt. rewrite Hrow. simpl. by rewrite Hold.
      + rewrite !bool_decide_eq_false_2; [done | | done].
        intros [[= -> ->] _]. by apply Hne.
    - injection Hm1 as <-. split; [done|]. intros x y.
      rewrite bool_decide_eq_false_2; [done | by intros [? _]]. }
  destruct Hm1' as [Hsq1 Hat1].
  destruct (foldl_setMarker N (default [] markers) m1 Hsq1) as [[Hlen Hrows] Hat].
  split; [done|]. split; [done|]. intros x y. rewrite Hat.
  assert (Hin : is_Some (markerAt m1 x y) <-> 0 <= x < boardSize /\ 0 <= y < boardSize).
  { rewrite (markerAt_is_Some N _ x y Hsq1). unfold N. lia. }
  assert (Hin0 : is_Some (markerAt m0 x y) <-> 0 <= x < boardSize /\ 0 <= y < boardSize).
  { rewrite (markerAt_is_Some N _ x y Hsq0). unfold N. lia. }
  destruct (decide (0 <= x < boardSize /\ 0 <= y < boardSize)) as [Hon|Hoff].
  - rewrite (bool_decide_eq_true_2 (_ /\ _)) by done.
    destruct (last (filter (markerOn x y) (default [] markers))) as [marker|].
    + by rewrite bool_decide_eq_true_2 by by apply Hin.
    + rewrite Hat1. destruct (decide (lastMove = Some (Coord x y))) as [Hl|Hl].
      * rewrite !bool_decide_eq_true_2; [done | done | by split; [|apply Hin0]].
      * rewrite !bool_decide_eq_false_2; [|done | by intros [? _]].
        apply Hat0. by apply Hin0.
  - rewrite (bool_decide_eq_false_2 (_ /\ _)) by done.
    assert (Hnone : markerAt m1 x y = None).
    { destruct (markerAt m1 x y) eqn:E; [|done]. exfalso. apply Hoff, Hin. by eexists. }
    destruct (last (filter (markerOn x y) (default [] markers))) as [marker|]; [|done].
    rewrite bool_decide_eq_false_2; [done|]. by rewrite Hin.
Qed.

Lemma markerMap_entries_witness :
  exists m,
    markerMap 3 (Some (Coord 1 1)) (Some [mkMarker 1 1 "A"; mkMarker 5 0 "B"; mkMarker 1 1 "C"])
      = Ret m /\
    markerAt m 1 1 = Some (Some "C") /\ markerAt m 5 0 = None.
Proof.
  eexists. split; [vm_compute; reflexivity|].
  destruct (markerMap_entries 3 (Some (Coord 1 1))
              (Some [mkMarker 1 1 "A"; mkMarker 5 0 "B"; mkMarker 1 1 "C"])
              _ eq_refl) as (_ & _ & Hat).
  split; [rewrite Hat | rewrite Hat]; reflexivity.
Defined.

(** X27. The store of the last move's circle is not guarded: with a last
    move whose row is off the board the marker map throws a TypeError,
    whatever the markers. Without a last move, or with one on the board,
    the map is built, and the circle shows unless a marker sits on it. *)
Theorem markerMap_outcome (boardSize : Z) (lastMove : option Coordinate)
    (markers : option (list Marker)) :
  match lastMove with
  | None => exists m, markerMap boardSize None markers = Ret m
  | Some c =>
      (Coordinate.y c < 0 \/ boardSize <= Coordinate.y c ->
       markerMap boardSize (Some c) markers = TypeError) /\
      (0 <= Coordinate.x c < boardSize -> 0 <= Coordinate.y c < boardSize ->
       exists m, markerMap boardSize (Some c) markers = Ret m /\
                 (last (filter (markerOn (Coordinate.x c) (Coordinate.y c))
                               (default [] markers)) = None ->
                  markerAt m (Coordinate.x c) (Coordinate.y c) = Some (Some "circle")))
  end.
Proof.
  unfold markerMap. destruct lastMove as [[cx cy]|]; simpl; [|by eauto].
  set (N := Z.to_nat boardSize).
  set (m0 := replicate N (replicate N (@None string))).
  assert (Hsq0 : squareMap N m0).
  { split; [apply length_replicate|].
    intros row [-> _]%elem_of_replicate. apply length_replicate. }
  split.
  - intros Hy. replace (index m0 cy) with (@None (list (option string))); [done|].
    symmetry. unfold index. destruct (Z.ltb_spec cy 0); [done|].
    apply lookup_ge_None. unfold m0. rewrite length_replicate. lia.
  - intros Hx Hy.
    destruct (proj2 (markerAt_is_Some N m0 cx cy Hsq0)) as [old Hold]; [unfold N; lia|].
    unfold markerAt in Hold.
    destruct (index m0 cy) as [row|] eqn:Hrow; [|done]. simpl in Hold. rewrite Hold. simpl.
    eexists. split; [done|]. intros Hnone.
    destruct (store_markerAt N m0 row cx cy old (Some "circle") Hsq0 Hrow Hold)
      as [Hsq1 Hat1].
    replace (match markers with Some ms => foldl setMarker _ ms | None => _ end)
      with (foldl setMarker (<[Z.to_nat cy := <[Z.to_nat cx := Some "circle"]> row]> m0)
                            (default [] markers)) by by destruct markers.
    destruct (foldl_setMarker N (default [] markers) _ Hsq1) as [_ Hat].
    rewrite Hat, Hnone, Hat1. by rewrite bool_decide_eq_true_2.
Qed.

Lemma markerMap_outcome_witness :
  markerMap 3 (Some (Coord 0 3)) None = TypeError.
Proof.
  apply (markerMap_outcome 3 (Some (Coord 0 3)) None). right. simpl. lia.
Defined.

